(** * clawstash: storage provisioning and backup orchestration

    A shallow embedding of the TypeScript sources of clawstash
    ([src/core/s3.ts], [src/core/config.ts], [src/core/openclaw.ts],
    [src/core/restic.ts], [src/cli/backup.ts], [src/cli/restore.ts]) and
    the properties of its specification that are settled against them.

    Layout: the embedding comes first (modules [JS], [Effects], [Config],
    [S3], [Openclaw], [Restic], [BackupCli], [RestoreCli]), the theorems
    follow. *)

From Stdlib Require Import ZArith NArith List String Ascii Bool Lia.
From Stdlib Require Import DecimalString DecimalPos.
From Stdlib Require DecimalFacts.
Import ListNotations.

Set Implicit Arguments.

(* ================================================================== *)
(** ** JavaScript strings and the [String.prototype] methods in use   *)
(* ================================================================== *)

Module JS.

(** A JavaScript string is a sequence of UTF-16 code units. *)
Definition jsstring := list N.

(** ASCII literals of the source text, one code unit per character. *)
Definition lit (s : string) : jsstring :=
  map N_of_ascii (list_ascii_of_string s).

(** [a === b] on strings. *)
Fixpoint str_eqb (a b : jsstring) : bool :=
  match a, b with
  | [], [] => true
  | c :: a', d :: b' => (c =? d)%N && str_eqb a' b'
  | _, _ => false
  end.

(** Truthiness of a string: only the empty string is falsy. *)
Definition truthy_str (s : jsstring) : bool :=
  match s with [] => false | _ :: _ => true end.

(** Truthiness of [string | undefined] / [string | null]. *)
Definition truthy (s : option jsstring) : bool :=
  match s with Some s' => truthy_str s' | None => false end.

(** [s.startsWith(p)] *)
Fixpoint startsWith (s p : jsstring) {struct p} : bool :=
  match p, s with
  | [], _ => true
  | c :: p', d :: s' => (d =? c)%N && startsWith s' p'
  | _ :: _, [] => false
  end.

(** [s.endsWith(p)] *)
Definition endsWith (s p : jsstring) : bool :=
  startsWith (rev s) (rev p).

(** [s.includes(p)] *)
Fixpoint includes (s p : jsstring) : bool :=
  startsWith s p ||
  match s with
  | [] => false
  | _ :: s' => includes s' p
  end.

(** [s.slice(0, n)] for [0 <= n]. *)
Definition slice0 (s : jsstring) (n : nat) : jsstring := firstn n s.

(** [parts.join(sep)] *)
Fixpoint join (sep : jsstring) (parts : list jsstring) : jsstring :=
  match parts with
  | [] => []
  | [p] => p
  | p :: rest => p ++ sep ++ join sep rest
  end.

Fixpoint dropWhile (f : N -> bool) (s : jsstring) : jsstring :=
  match s with
  | [] => []
  | c :: s' => if f c then dropWhile f s' else s
  end.

Fixpoint takeWhile (f : N -> bool) (s : jsstring) : jsstring :=
  match s with
  | [] => []
  | c :: s' => if f c then c :: takeWhile f s' else []
  end.

(** ECMAScript [WhiteSpace] and [LineTerminator] code points: what
    [String.prototype.trim] strips and what the regex class [\s]
    matches. *)
Definition isWhiteSpace (c : N) : bool :=
  ((9 <=? c) && (c <=? 13) || (c =? 32) || (c =? 160) || (c =? 5760)
   || (8192 <=? c) && (c <=? 8202) || (c =? 8232) || (c =? 8233)
   || (c =? 8239) || (c =? 8287) || (c =? 12288) || (c =? 65279))%N.

(** The regex class [\d]. *)
Definition isDigit (c : N) : bool := ((48 <=? c) && (c <=? 57))%N.

(** [s.trim()] *)
Definition trim (s : jsstring) : jsstring :=
  rev (dropWhile isWhiteSpace (rev (dropWhile isWhiteSpace s))).

(** [s.split(sep)] for a separator of one code unit. The result is never
    empty: [''.split('\n')] is [['']]. *)
Fixpoint split (sep : N) (s : jsstring) : list jsstring :=
  match s with
  | [] => [[]]
  | c :: s' =>
      if (c =? sep)%N then [] :: split sep s'
      else match split sep s' with
           | l :: ls => (c :: l) :: ls
           | [] => [[c]]
           end
  end.

(** [s.toLowerCase()] on the code units A-Z; the strings it is applied to
    in this development are captures of ASCII letters. *)
Definition toLowerCase (s : jsstring) : jsstring :=
  map (fun c => if ((65 <=? c) && (c <=? 90))%N then (c + 32)%N else c) s.

(** [String(n)] for an integer [n] (decimal notation, which is what
    JavaScript prints for integers below 1e21). *)
Definition Number_toString (z : Z) : jsstring :=
  lit (NilZero.string_of_int (Z.to_int z)).

(** A JavaScript number (an IEEE 754 double) as far as this program
    computes with numbers: time values, counts and their sums, products
    and differences are integers, so a finite number is the integer it
    denotes. Negative zero is identified with zero; no operation of the
    program tells them apart. *)
Inductive number := Finite (z : Z) | PosInfinity | NegInfinity | NaN.

(** The double nearest to a natural number [a], ties to the even
    significand: integers below [2^53] are doubles; above, a double
    keeps the 53 leading bits. *)
Definition nearest_double (a : Z) : Z :=
  if (a <? 2 ^ 53)%Z then a
  else
    let e := (Z.log2 a - 52)%Z in
    let q := (a / 2 ^ e)%Z in
    let r := (a mod 2 ^ e)%Z in
    let half := (2 ^ (e - 1))%Z in
    let q' := if (half <? r)%Z || ((r =? half)%Z && Z.odd q)
              then (q + 1)%Z else q in
    (q' * 2 ^ e)%Z.

(** The number value of an integer: the nearest double, an infinity
    when that is [2^1024] or more. *)
Definition round_double (z : Z) : number :=
  let m := nearest_double (Z.abs z) in
  if (2 ^ 1024 <=? m)%Z then
    if (z <? 0)%Z then NegInfinity else PosInfinity
  else Finite (Z.sgn z * m).

(** [-a] *)
Definition num_neg (a : number) : number :=
  match a with
  | Finite z => Finite (- z)
  | PosInfinity => NegInfinity
  | NegInfinity => PosInfinity
  | NaN => NaN
  end.

(** [a + b]: the exact sum, rounded. *)
Definition num_add (a b : number) : number :=
  match a, b with
  | NaN, _ | _, NaN => NaN
  | Finite x, Finite y => round_double (x + y)
  | PosInfinity, NegInfinity | NegInfinity, PosInfinity => NaN
  | PosInfinity, _ | _, PosInfinity => PosInfinity
  | NegInfinity, _ | _, NegInfinity => NegInfinity
  end.

(** [a - b] *)
Definition num_sub (a b : number) : number := num_add a (num_neg b).

(** The product of an infinity, negated when [negative], and [z]. *)
Definition infinity_times (negative : bool) (z : Z) : number :=
  if (z =? 0)%Z then NaN
  else if xorb negative (z <? 0)%Z then NegInfinity else PosInfinity.

(** [a * b]: the exact product, rounded. *)
Definition num_mul (a b : number) : number :=
  match a, b with
  | NaN, _ | _, NaN => NaN
  | Finite x, Finite y => round_double (x * y)
  | PosInfinity, Finite z | Finite z, PosInfinity => infinity_times false z
  | NegInfinity, Finite z | Finite z, NegInfinity => infinity_times true z
  | PosInfinity, PosInfinity | NegInfinity, NegInfinity => PosInfinity
  | PosInfinity, NegInfinity | NegInfinity, PosInfinity => NegInfinity
  end.

(** [Math.abs(a)] *)
Definition Math_abs (a : number) : number :=
  match a with
  | Finite z => Finite (Z.abs z)
  | PosInfinity | NegInfinity => PosInfinity
  | NaN => NaN
  end.

(** [a < b]: false as soon as one side is [NaN]. *)
Definition num_lt (a b : number) : bool :=
  match a, b with
  | NaN, _ | _, NaN => false
  | Finite x, Finite y => (x <? y)%Z
  | NegInfinity, NegInfinity => false
  | NegInfinity, _ => true
  | Finite _, PosInfinity => true
  | _, _ => false
  end.

(** Truthiness of a number: [0] and [NaN] are falsy. *)
Definition truthy_num (a : number) : bool :=
  match a with
  | Finite z => negb (z =? 0)%Z
  | PosInfinity | NegInfinity => true
  | NaN => false
  end.

(** The integer a string of decimal digits denotes, read from the left
    as [parseInt] reads it. *)
Definition decimal_value (digits : jsstring) : Z :=
  fold_left (fun acc c => (10 * acc + (Z.of_N c - 48))%Z) digits 0%Z.

(** [parseInt(s, 10)]: leading white space is skipped, a sign is read,
    then the longest run of decimal digits; without a digit the result
    is [NaN], otherwise the number value of the integer read (the double
    nearest to it, as V8 computes it; [Infinity] from [2^1024]). *)
Definition parseInt (s : jsstring) : number :=
  let s1 := dropWhile isWhiteSpace s in
  let negative := match s1 with c :: _ => (c =? 45)%N | [] => false end in
  let s2 := match s1 with
            | c :: rest => if ((c =? 45) || (c =? 43))%N then rest else s1
            | [] => s1
            end in
  match takeWhile isDigit s2 with
  | [] => NaN
  | digits =>
      round_double (if negative then - decimal_value digits
                    else decimal_value digits)
  end.

(** The digits of a finite number [a >= 0] as [Number::toString]
    chooses them: the fewest significant digits [c], followed by [j]
    zeros, that read back as [a]; of two candidates with equally many
    digits the nearer to [a], and the even one when they are equally
    near. [n] is the number of digits of [a], [k] the number of
    significant digits tried (from 1; 17 always suffice). *)
Fixpoint shortest (a n k : Z) (fuel : nat) : Z * Z :=
  match fuel with
  | O => (a, 0%Z)
  | S fuel' =>
      let j := (n - k)%Z in
      if (j <=? 0)%Z then (a, 0%Z)
      else
        let lo := (a / 10 ^ j)%Z in
        let hi := (lo + 1)%Z in
        let back c := match round_double (c * 10 ^ j) with
                      | Finite b => (b =? a)%Z
                      | _ => false
                      end in
        match back lo, back hi with
        | true, true =>
            let dl := (a - lo * 10 ^ j)%Z in
            let dh := (hi * 10 ^ j - a)%Z in
            if (dl <? dh)%Z then (lo, j)
            else if (dh <? dl)%Z then (hi, j)
            else if Z.even lo then (lo, j) else (hi, j)
        | true, false => (lo, j)
        | false, true => (hi, j)
        | false, false => shortest a n (k + 1) fuel'
        end
  end.

(** Digits, last first, without the zeros they end with. *)
Fixpoint strip_zeros (reversed : jsstring) : jsstring :=
  match reversed with
  | 48%N :: rest => strip_zeros rest
  | _ => reversed
  end.

(** [String(a)] for a finite [a >= 0]: the digits in full below
    [1e21], and from there the first digit, the others after a point,
    and the exponent. *)
Definition String_of_magnitude (a : Z) : jsstring :=
  let '(c, j) :=
    shortest a (Z.of_nat (List.length (Number_toString a))) 1 17 in
  let digits := Number_toString c in
  if (c * 10 ^ j <? 10 ^ 21)%Z then digits ++ repeat 48%N (Z.to_nat j)
  else
    let exponent :=
      Number_toString (Z.of_nat (List.length digits) + j - 1) in
    match rev (strip_zeros (rev digits)) with
    | [] => digits
    | [d] => d :: lit "e+" ++ exponent
    | d :: rest => d :: 46%N :: rest ++ lit "e+" ++ exponent
    end.

(** [String(v)] *)
Definition String_of_number (v : number) : jsstring :=
  match v with
  | NaN => lit "NaN"
  | PosInfinity => lit "Infinity"
  | NegInfinity => lit "-Infinity"
  | Finite z =>
      if (z <? 0)%Z then 45%N :: String_of_magnitude (- z)
      else String_of_magnitude z
  end.

(** Exceptions: the [name] and [message] of an [Error] object. *)
Record Exn := mkExn { exn_name : jsstring; exn_message : jsstring }.

Definition Error (msg : jsstring) : Exn := mkExn (lit "Error") msg.
Definition TypeError (msg : jsstring) : Exn := mkExn (lit "TypeError") msg.

(** [String(err)], i.e. [Error.prototype.toString]. *)
Definition String_of_exn (e : Exn) : jsstring :=
  match exn_name e, exn_message e with
  | n, [] => n
  | [], m => m
  | n, m => n ++ lit ": " ++ m
  end.

(** Property lookup [obj[key]] on an object literal: own properties
    first, then the properties every object inherits from
    [Object.prototype]. *)
Definition Object_prototype_keys : list jsstring :=
  map lit
    ["constructor"; "__defineGetter__"; "__defineSetter__";
     "hasOwnProperty"; "__lookupGetter__"; "__lookupSetter__";
     "isPrototypeOf"; "propertyIsEnumerable"; "toString"; "valueOf";
     "__proto__"; "toLocaleString"]%string.

Inductive property (A : Type) : Type :=
| Own (a : A)
| Inherited
| Undefined.
Arguments Inherited {A}.
Arguments Undefined {A}.

Fixpoint own_property {A} (obj : list (jsstring * A)) (key : jsstring)
  : option A :=
  match obj with
  | [] => None
  | (k, v) :: rest => if str_eqb k key then Some v else own_property rest key
  end.

Definition get_property {A} (obj : list (jsstring * A)) (key : jsstring)
  : property A :=
  match own_property obj key with
  | Some v => Own v
  | None =>
      if existsb (fun k => str_eqb k key) Object_prototype_keys
      then Inherited else Undefined
  end.

(** [Object.keys(obj)]: own keys in insertion order. *)
Definition Object_keys {A} (obj : list (jsstring * A)) : list jsstring :=
  map fst obj.

End JS.
Import JS.

Set Warnings "-register-all".

(* ================================================================== *)
(** ** Data of the program                                            *)
(* ================================================================== *)

(** A non-integer number as a decimal [significand * 10 ^ exponent10]
    (durations in seconds, JSON number literals). *)
Record decimal := mkDecimal { significand : Z; exponent10 : Z }.

(** The values [JSON.parse] returns. *)
Inductive json : Type :=
| JNull
| JBool (b : bool)
| JNum (n : decimal)
| JStr (s : jsstring)
| JArr (items : list json)
| JObj (fields : list (jsstring * json)).

(** [src/core/config.ts]: [StorageConfig]. *)
Inductive Provider := r2 | s3 | b2 | minio.

Record StorageConfig := mkStorage {
  provider : Provider;
  bucket : jsstring;
  accountId : option jsstring;
  accessKeyId : jsstring;
  secretAccessKey : jsstring;
  endpoint : option jsstring;
  region : option jsstring;
  jurisdiction : option jsstring
}.

Record RetentionConfig := mkRetention {
  keepLast : Z; keepDaily : Z; keepWeekly : Z; keepMonthly : Z
}.

(** The fields of [ClawstashConfig] that the commands read. *)
Record ClawstashConfig := mkConfig {
  openclawDir : jsstring;
  storage : StorageConfig;
  retention : RetentionConfig;
  exclude : list jsstring;
  resticVersion : jsstring
}.

(** [src/core/restic.ts]: [ResticOptions], [ResticBackupSummary],
    [ResticSnapshot]. *)
Record ResticOptions := mkResticOptions {
  ro_storage : StorageConfig;
  ro_passphrase : jsstring
}.

Record ResticBackupSummary := mkSummary {
  files_new : Z;
  files_changed : Z;
  files_unmodified : Z;
  data_added : Z;
  total_bytes_processed : Z;
  total_duration : decimal;
  snapshot_id : jsstring
}.

Record ResticSnapshot := mkSnapshot {
  id : jsstring;
  short_id : jsstring;
  time : jsstring;
  hostname : jsstring;
  tags : option (list jsstring);
  paths : list jsstring
}.

(** What [getCategoryIncludes] hands to the engine wrapper: [undefined],
    an array of globs, or (for a name that only [Object.prototype] knows)
    the inherited member found under that name. *)
Inductive IncludesValue :=
| NoIncludes
| Globs (patterns : list jsstring)
| PrototypeMember (name : jsstring).

(** The [options] argument of [backup] in [src/core/restic.ts]; every
    field is optional. *)
Record BackupCallOptions := mkBackupCallOptions {
  bo_tags : option (list jsstring);
  bo_excludes : option (list jsstring);
  bo_includes : IncludesValue;
  bo_dryRun : option bool
}.

(** HTTP as [fetch] sees it. *)
Record Request := mkRequest {
  req_url : jsstring;
  req_method : jsstring;
  req_headers : list (jsstring * jsstring);
  req_timeout : option Z
}.

(** A response: its status and the text of its body ([await res.text()]). *)
Record Response := mkResponse { status : Z; text : jsstring }.

(** The parts of a WHATWG [URL] object that the signer reads. *)
Record URL := mkURL {
  url_host : jsstring;
  url_pathname : jsstring;
  url_search : jsstring;
  url_href : jsstring
}.

(** The key of [createHmac]: [Buffer | string]. *)
Inductive hmac_key := KeyString (s : jsstring) | KeyBuffer (b : list N).

(** A settled promise; also the outcome of a synchronous call that
    either returns or throws. *)
Inductive Settled (A : Type) : Type :=
| Fulfilled (a : A)
| Rejected (e : Exn).
Arguments Rejected {A}.

(** The pure library functions the program calls: Node's [crypto], the
    WHATWG [URL] constructor, [Date] and [JSON] parsing, and the two
    formatters of [src/utils/fs.ts] (floating-point arithmetic, kept
    abstract). *)
Class Runtime := {
  (** [createHash("sha256").update(s).digest("hex")] *)
  sha256_hex : jsstring -> jsstring;
  (** [createHmac("sha256", key).update(data).digest()] *)
  hmac_sha256 : hmac_key -> jsstring -> list N;
  (** [new URL(path, base)]; [None] when it throws. *)
  URL_new : jsstring -> jsstring -> option URL;
  (** [new Date(s).getTime()]; [None] is [NaN]. *)
  Date_getTime : jsstring -> option Z;
  (** [JSON.parse(s)]; [None] when it throws. *)
  JSON_parse : jsstring -> option json;
  formatBytes : Z -> jsstring;
  formatDuration : decimal -> jsstring
}.

(* ================================================================== *)
(** ** Effects: the ambient world, the observable trace, and [IO]     *)
(* ================================================================== *)

Module Effects.

Inductive LogLevel := LDebug | LInfo | LWarn | LError.

Inductive SpinnerAction := SStart | SStop | SFail | SSucceed | SWarn.

(** What a run does to the outside world, in order. *)
Inductive Event :=
| Log (level : LogLevel) (msg : jsstring)
| LogBlank
| LogHeader (msg : jsstring)
| LogKv (key value : jsstring) (st : option jsstring)
| Spinner (action : SpinnerAction) (label : jsstring)
| Fetch (req : Request)
| KeychainRead
| Spawn (binary : jsstring) (args : list jsstring)
        (env : list (jsstring * jsstring)) (timeout : Z)
| CallEnsureRestic (version : jsstring)
| CallBackup (sourceDir : jsstring) (opts : ResticOptions)
             (options : BackupCallOptions)
| CallForget (opts : ResticOptions) (policy : RetentionConfig).

(** What the outside world answers. [restic_backup] and [restic_forget]
    stand for the imports of [src/cli/backup.ts] from [../core/restic.js],
    the other collaborators for modules outside this development.
    [getKeychainPassphrase] is the settled promise of [getPassphrase]
    of [src/core/keychain.ts], which rejects on a platform that
    [getPlatform] does not support. [ensureRestic] answers for the
    whole of [restic-installer.ts]; the processes it starts on its own
    ([restic version], and what an installation takes) are not events
    of the trace. *)
Record Env := mkEnv {
  Date_now : Z;
  process_env : jsstring -> option jsstring;
  getKeychainPassphrase : Settled (option jsstring);
  fetch : Request -> Settled Response;
  getResticBinaryPath : jsstring;
  execFile : jsstring -> list jsstring -> list (jsstring * jsstring) -> Z ->
             Settled (jsstring * jsstring);
  requireConfig : Settled ClawstashConfig;
  ensureRestic : jsstring -> Settled unit;
  scanOpenClawDir_exists : jsstring -> Settled bool;
  isOpenClawRunning : Settled bool;
  restic_backup : jsstring -> ResticOptions -> BackupCallOptions ->
                  Settled ResticBackupSummary;
  restic_forget : ResticOptions -> RetentionConfig -> Settled unit
}.

(** How a call ends: it returns, it throws, or the process exits. *)
Inductive Outcome (A : Type) : Type :=
| Ret (a : A)
| Throw (e : Exn)
| Exit (code : Z).
Arguments Throw {A}.
Arguments Exit {A}.

Definition IO (A : Type) : Type := Env -> list Event -> Outcome A * list Event.

Definition ret {A} (a : A) : IO A := fun _ tr => (Ret a, tr).

Definition bind {A B} (c : IO A) (k : A -> IO B) : IO B :=
  fun env tr =>
    match c env tr with
    | (Ret a, tr') => k a env tr'
    | (Throw e, tr') => (Throw e, tr')
    | (Exit n, tr') => (Exit n, tr')
    end.

Definition throw {A} (e : Exn) : IO A := fun _ tr => (Throw e, tr).

(** [process.exit(code)] *)
Definition process_exit {A} (code : Z) : IO A := fun _ tr => (Exit code, tr).

Definition emit (e : Event) : IO unit := fun _ tr => (Ret tt, tr ++ [e]).

Definition asks {A} (f : Env -> A) : IO A := fun env tr => (Ret (f env), tr).

(** [await p] *)
Definition await {A} (p : Settled A) : IO A :=
  match p with
  | Fulfilled a => ret a
  | Rejected e => throw e
  end.

(** [try { body } catch (err) { handler }]; a process exit is not caught. *)
Definition try_catch {A} (body : IO A) (handler : Exn -> IO A) : IO A :=
  fun env tr =>
    match body env tr with
    | (Throw e, tr') => handler e env tr'
    | r => r
    end.

Definition log (level : LogLevel) (msg : jsstring) : IO unit :=
  emit (Log level msg).

End Effects.
Import Effects.

Declare Scope io_scope.
Delimit Scope io_scope with io.
Notation "x <- c ;; k" := (bind c (fun x => k))
  (at level 61, c at next level, right associativity) : io_scope.
Notation "c ;; k" := (bind c (fun _ => k))
  (at level 61, right associativity) : io_scope.
Open Scope io_scope.

(* ================================================================== *)
(** ** [src/core/config.ts]                                           *)
(* ================================================================== *)

Module Config.

(** [getStorageEndpoint]: an explicit endpoint wins; otherwise the
    provider decides, and two cases throw. *)
Definition getStorageEndpoint (st : StorageConfig) : Settled jsstring :=
  if truthy (endpoint st) then
    Fulfilled (match endpoint st with Some e => e | None => [] end)
  else
    match provider st with
    | r2 =>
        match accountId st with
        | Some acc =>
            if truthy_str acc then
              let jur := match jurisdiction st with
                         | Some j => if truthy_str j then lit "." ++ j else []
                         | None => []
                         end in
              Fulfilled (lit "https://" ++ acc ++ jur
                         ++ lit ".r2.cloudflarestorage.com")
            else Rejected (Error (lit "R2 requires an accountId"))
        | None => Rejected (Error (lit "R2 requires an accountId"))
        end
    | s3 =>
        Fulfilled (lit "https://s3."
                   ++ match region st with
                      | Some r => r
                      | None => lit "us-east-1"
                      end
                   ++ lit ".amazonaws.com")
    | b2 => Fulfilled (lit "https://s3.us-west-004.backblazeb2.com")
    | minio => Rejected (Error (lit "MinIO requires a custom endpoint"))
    end.

(** [getResticRepoUrl] *)
Definition getResticRepoUrl (st : StorageConfig) : Settled jsstring :=
  match getStorageEndpoint st with
  | Fulfilled e => Fulfilled (lit "s3:" ++ e ++ lit "/" ++ bucket st)
  | Rejected e => Rejected e
  end.

End Config.

(* ================================================================== *)
(** ** [src/core/s3.ts]                                               *)
(* ================================================================== *)

Module S3.

Section WithRuntime.
Context {RT : Runtime}.

(** [hmac(key, data)] *)
Definition hmac (key : hmac_key) (data : jsstring) : list N :=
  hmac_sha256 key data.

(** [sha256(data)] *)
Definition sha256 (data : jsstring) : jsstring := sha256_hex data.

(** [getSignatureKey]: the four-level derivation chain. *)
Definition getSignatureKey (secretKey date region service : jsstring)
  : list N :=
  let kDate := hmac (KeyString (lit "AWS4" ++ secretKey)) date in
  let kRegion := hmac (KeyBuffer kDate) region in
  let kService := hmac (KeyBuffer kRegion) service in
  hmac (KeyBuffer kService) (lit "aws4_request").

(** [buf.toString("hex")] / [digest("hex")] *)
Definition hex_digit (n : N) : N :=
  (if n <? 10 then 48 + n else 87 + n)%N.

Definition hex_of_bytes (b : list N) : jsstring :=
  flat_map (fun byte => [hex_digit (byte / 16); hex_digit (byte mod 16)]%N) b.

(** [String(n).padStart(w, "0")] for [0 <= n]. *)
Definition pad (w : nat) (n : Z) : jsstring :=
  let s := Number_toString n in
  repeat 48%N (w - List.length s) ++ s.

(** Proleptic Gregorian date of a day number counted from 1970-01-01. *)
Definition civil_from_days (day : Z) : Z * Z * Z :=
  let z := (day + 719468)%Z in
  let era := (z / 146097)%Z in
  let doe := (z - era * 146097)%Z in
  let yoe := ((doe - doe / 1460 + doe / 36524 - doe / 146096) / 365)%Z in
  let doy := (doe - (365 * yoe + yoe / 4 - yoe / 100))%Z in
  let mp := ((5 * doy + 2) / 153)%Z in
  let d := (doy - (153 * mp + 2) / 5 + 1)%Z in
  let m := (if mp <? 10 then mp + 3 else mp - 9)%Z in
  let y := (yoe + era * 400 + (if m <=? 2 then 1 else 0))%Z in
  (y, m, d).

(** [new Date(t).toISOString()] for a time value [t] in milliseconds. *)
Definition Date_toISOString (t : Z) : jsstring :=
  let '(y, m, d) := civil_from_days (t / 86400000) in
  let msInDay := (t mod 86400000)%Z in
  let year :=
    if ((0 <=? y) && (y <=? 9999))%Z then pad 4 y
    else (if (y <? 0)%Z then lit "-" else lit "+") ++ pad 6 (Z.abs y) in
  year ++ lit "-" ++ pad 2 m ++ lit "-" ++ pad 2 d ++ lit "T"
  ++ pad 2 (msInDay / 3600000) ++ lit ":"
  ++ pad 2 ((msInDay / 60000) mod 60) ++ lit ":"
  ++ pad 2 ((msInDay / 1000) mod 60) ++ lit "."
  ++ pad 3 (msInDay mod 1000) ++ lit "Z".

(** [s.replace(/[-:]/g, "")] *)
Definition remove_dashes_colons (s : jsstring) : jsstring :=
  filter (fun c => negb ((c =? 45) || (c =? 58))%N) s.

(** [s.replace(/\.\d+/, "")]: the first dot that is followed by a digit
    goes, together with the digits after it. *)
Fixpoint remove_fraction (s : jsstring) : jsstring :=
  match s with
  | [] => []
  | c :: s' =>
      if (c =? 46)%N && match s' with d :: _ => isDigit d | [] => false end
      then dropWhile isDigit s'
      else c :: remove_fraction s'
  end.

(** [s.replace(/^\?/, "")] *)
Definition remove_leading_question (s : jsstring) : jsstring :=
  match s with
  | c :: s' => if (c =? 63)%N then s' else s
  | [] => []
  end.

Record SignOpts := mkSignOpts {
  sr_method : jsstring;
  sr_endpoint : jsstring;
  sr_path : jsstring;
  sr_body : jsstring;
  sr_accessKeyId : jsstring;
  sr_secretAccessKey : jsstring;
  sr_region : jsstring
}.

Record SignedRequest := mkSigned {
  url : jsstring;
  headers : list (jsstring * jsstring)
}.

(** [signRequest]. The clock is read once ([new Date()]); an endpoint that
    is no URL makes [new URL] throw. *)
Definition signRequest (o : SignOpts) : IO SignedRequest :=
  match URL_new (sr_path o) (sr_endpoint o) with
  | None => throw (TypeError (lit "Invalid URL"))
  | Some u =>
      now <- asks Date_now ;;
      let host := url_host u in
      let amzDate :=
        remove_fraction (remove_dashes_colons (Date_toISOString now)) in
      let dateStamp := slice0 amzDate 8 in
      let payloadHash := sha256 (sr_body o) in
      let canonicalHeaders :=
        lit "host:" ++ host ++ [10%N]
        ++ lit "x-amz-content-sha256:" ++ payloadHash ++ [10%N]
        ++ lit "x-amz-date:" ++ amzDate ++ [10%N] in
      let signedHeaders := lit "host;x-amz-content-sha256;x-amz-date" in
      let canonicalRequest :=
        join [10%N]
          [sr_method o; url_pathname u;
           remove_leading_question (url_search u);
           canonicalHeaders; signedHeaders; payloadHash] in
      let credentialScope :=
        dateStamp ++ lit "/" ++ sr_region o ++ lit "/s3/aws4_request" in
      let stringToSign :=
        join [10%N]
          [lit "AWS4-HMAC-SHA256"; amzDate; credentialScope;
           sha256 canonicalRequest] in
      let signingKey :=
        getSignatureKey (sr_secretAccessKey o) dateStamp (sr_region o)
          (lit "s3") in
      let signature :=
        hex_of_bytes (hmac_sha256 (KeyBuffer signingKey) stringToSign) in
      let authorization :=
        lit "AWS4-HMAC-SHA256 Credential=" ++ sr_accessKeyId o ++ lit "/"
        ++ credentialScope ++ lit ", SignedHeaders=" ++ signedHeaders
        ++ lit ", Signature=" ++ signature in
      ret {| url := url_href u;
             headers := [(lit "Host", host);
                         (lit "x-amz-date", amzDate);
                         (lit "x-amz-content-sha256", payloadHash);
                         (lit "Authorization", authorization)] |}
  end.

(** [await fetch(url, init)] *)
Definition do_fetch (req : Request) : IO Response :=
  emit (Fetch req) ;;
  r <- asks (fun env => fetch env req) ;;
  await r.

(** [storage.region ?? "auto"] *)
Definition region_or_auto (st : StorageConfig) : jsstring :=
  match region st with Some r => r | None => lit "auto" end.

Definition bucket_request (verb : jsstring) (st : StorageConfig)
  : IO SignedRequest :=
  ep <- await (Config.getStorageEndpoint st) ;;
  signRequest {| sr_method := verb;
                 sr_endpoint := ep;
                 sr_path := lit "/" ++ bucket st;
                 sr_body := [];
                 sr_accessKeyId := accessKeyId st;
                 sr_secretAccessKey := secretAccessKey st;
                 sr_region := region_or_auto st |}.

(** [bucketExists]: only the [fetch] is inside the [try]. *)
Definition bucketExists (st : StorageConfig) : IO bool :=
  sr <- bucket_request (lit "HEAD") st ;;
  try_catch
    (res <- do_fetch (mkRequest (url sr) (lit "HEAD") (headers sr) None) ;;
     log LDebug (lit "HEAD /" ++ bucket st ++ lit ": "
                 ++ Number_toString (status res)) ;;
     ret (status res =? 200)%Z)
    (fun err =>
       log LDebug (lit "HEAD bucket failed: " ++ String_of_exn err) ;;
       ret false).

(** The provider's marker for a bucket the caller already owns. *)
Definition owned_marker : jsstring := lit "BucketAlreadyOwnedByYou".

(** The double quote and U+2014 EM DASH of the messages below. *)
Definition dquote : jsstring := [34%N].

Definition em_dash : jsstring := [8212%N].

(** [createBucket]: [true] is "created", [false] is "already exists". *)
Definition createBucket (st : StorageConfig) : IO bool :=
  sr <- bucket_request (lit "PUT") st ;;
  res <- do_fetch (mkRequest (url sr) (lit "PUT") (headers sr) None) ;;
  if ((status res =? 200) || (status res =? 201))%Z then
    log LDebug (lit "Bucket " ++ dquote ++ bucket st ++ dquote
                ++ lit " created") ;;
    ret true
  else if (status res =? 409)%Z then
    log LDebug (lit "Bucket " ++ dquote ++ bucket st ++ dquote
                ++ lit " already exists") ;;
    ret false
  else
    let body := text res in
    log LDebug (lit "CreateBucket response: " ++ Number_toString (status res)
                ++ lit " " ++ body) ;;
    if includes body owned_marker then ret false
    else
      throw (Error (lit "Failed to create bucket " ++ dquote ++ bucket st
                    ++ dquote ++ lit ": " ++ Number_toString (status res)
                    ++ lit " " ++ em_dash ++ lit " " ++ body)).

(** [ensureBucket] *)
Definition ensureBucket (st : StorageConfig) : IO unit :=
  present <- bucketExists st ;;
  if present then
    log LDebug (lit "Bucket " ++ dquote ++ bucket st ++ dquote
                ++ lit " already exists")
  else
    (_ <- createBucket st ;; ret tt).

(** The candidate list of [detectR2Jurisdiction]. *)
Definition jurisdictions : list jsstring := [lit ""; lit "eu"].

Definition r2_endpoint (account jur : jsstring) : jsstring :=
  if truthy_str jur
  then lit "https://" ++ account ++ lit "." ++ jur
       ++ lit ".r2.cloudflarestorage.com"
  else lit "https://" ++ account ++ lit ".r2.cloudflarestorage.com".

(** One turn of the loop of [detectR2Jurisdiction]: [Some jur] is the
    [return jur] of the loop body, [None] falls through to the next
    candidate. Signing and fetching are both inside the [try]. *)
Definition probe (account keyId secret jur : jsstring)
  : IO (option jsstring) :=
  let jurLabel := if truthy_str jur then jur else lit "default" in
  try_catch
    (sr <- signRequest {| sr_method := lit "GET";
                          sr_endpoint := r2_endpoint account jur;
                          sr_path := lit "/";
                          sr_body := [];
                          sr_accessKeyId := keyId;
                          sr_secretAccessKey := secret;
                          sr_region := lit "auto" |} ;;
     res <- do_fetch (mkRequest (url sr) (lit "GET") (headers sr)
                        (Some 8000%Z)) ;;
     log LDebug (lit "R2 " ++ jurLabel ++ lit " endpoint: "
                 ++ Number_toString (status res)) ;;
     ret (if (status res =? 200)%Z then Some jur else None))
    (fun err =>
       log LDebug (lit "R2 " ++ jurLabel ++ lit " endpoint failed: "
                   ++ String_of_exn err) ;;
       ret None).

Fixpoint probe_all (account keyId secret : jsstring)
  (candidates : list jsstring) : IO jsstring :=
  match candidates with
  | [] => ret (lit "")
  | jur :: rest =>
      found <- probe account keyId secret jur ;;
      match found with
      | Some j => ret j
      | None => probe_all account keyId secret rest
      end
  end.

(** [detectR2Jurisdiction] *)
Definition detectR2Jurisdiction (account keyId secret : jsstring)
  : IO jsstring :=
  probe_all account keyId secret jurisdictions.

End WithRuntime.

End S3.

(* ================================================================== *)
(** ** [src/core/openclaw.ts]                                         *)
(* ================================================================== *)

Module Openclaw.

(** [FileCategory] *)
Inductive FileCategory :=
| config | secrets | workspace | sessions | memory
| skills | agents | settings | other.

Definition all_categories : list FileCategory :=
  [config; secrets; workspace; sessions; memory;
   skills; agents; settings; other].

(** The string literal each member of the union type stands for. *)
Definition category_name (c : FileCategory) : jsstring :=
  match c with
  | config => lit "config"
  | secrets => lit "secrets"
  | workspace => lit "workspace"
  | sessions => lit "sessions"
  | memory => lit "memory"
  | skills => lit "skills"
  | agents => lit "agents"
  | settings => lit "settings"
  | other => lit "other"
  end.

(** [DEFAULT_EXCLUDES] *)
Definition DEFAULT_EXCLUDES : list jsstring :=
  map lit
    ["*.lock"; "gateway.lock"; "*.tmp"; "*.temp"; "*-wal"; "*-shm";
     "node_modules"; ".DS_Store"; "Thumbs.db"; "*.log"; "cache/";
     ".cache/"; "sandboxes/"; "*/qmd/xdg-cache/"]%string.

(** [relativePath.match(/^agents\/[^/]+\/agent\//)]: after ["agents/"]
    the class [[^/]+] takes every code unit up to the next slash, and at
    least one. *)
Definition matches_agent_dir (p : jsstring) : bool :=
  startsWith p (lit "agents/") &&
  let rest := skipn 7 p in
  let notSlash := fun c => negb (c =? 47)%N in
  truthy_str (takeWhile notSlash rest) &&
  startsWith (dropWhile notSlash rest) (lit "/agent/").

(** The conditions of [categorizeFile], one per rule, in source order. *)
Definition rule_config (p : jsstring) : bool :=
  str_eqb p (lit "openclaw.json") || str_eqb p (lit "openclaw.json5")
  || startsWith p (lit "openclaw.") && negb (includes p (lit "/")).

Definition rule_secrets (p : jsstring) : bool :=
  str_eqb p (lit ".env") || startsWith p (lit "credentials/")
  || startsWith p (lit "auth/").

Definition rule_workspace (p : jsstring) : bool :=
  startsWith p (lit "workspace/") || startsWith p (lit "workspace-").

Definition rule_skills (p : jsstring) : bool :=
  startsWith p (lit "skills/").

Definition rule_sessions (p : jsstring) : bool :=
  includes p (lit "/sessions/")
  && (endsWith p (lit ".jsonl") || endsWith p (lit "sessions.json")).

Definition rule_memory (p : jsstring) : bool :=
  endsWith p (lit ".sqlite")
  && (startsWith p (lit "memory/") || includes p (lit "memory")).

Definition rule_agents (p : jsstring) : bool := matches_agent_dir p.

Definition rule_settings (p : jsstring) : bool :=
  startsWith p (lit "settings/").

(** [categorizeFile] *)
Definition categorizeFile (relativePath : jsstring) : FileCategory :=
  if rule_config relativePath then config
  else if rule_secrets relativePath then secrets
  else if rule_workspace relativePath then workspace
  else if rule_skills relativePath then skills
  else if rule_sessions relativePath then sessions
  else if rule_memory relativePath then memory
  else if rule_agents relativePath then agents
  else if rule_settings relativePath then settings
  else other.

End Openclaw.

(* ================================================================== *)
(** ** [src/core/restic.ts]                                           *)
(* ================================================================== *)

Module Restic.

Section WithRuntime.
Context {RT : Runtime}.

(** [buildEnv]: the variables added to [process.env] for the engine. *)
Definition buildEnv (opts : ResticOptions)
  : Settled (list (jsstring * jsstring)) :=
  match Config.getResticRepoUrl (ro_storage opts) with
  | Rejected e => Rejected e
  | Fulfilled repo =>
      Fulfilled
        [(lit "RESTIC_REPOSITORY", repo);
         (lit "RESTIC_PASSWORD", ro_passphrase opts);
         (lit "AWS_ACCESS_KEY_ID", accessKeyId (ro_storage opts));
         (lit "AWS_SECRET_ACCESS_KEY", secretAccessKey (ro_storage opts));
         (lit "AWS_DEFAULT_REGION",
          match region (ro_storage opts) with
          | Some r => r
          | None => lit "auto"
          end)]
  end.

(** [buildExtraArgs] *)
Definition buildExtraArgs (st : StorageConfig) : list jsstring :=
  match provider st with
  | s3 => []
  | _ => [lit "-o"; lit "s3.bucket-lookup=path"]
  end.

(** [runResticRaw]: one engine process, its standard output returned. *)
Definition runResticRaw (args : list jsstring) (opts : ResticOptions)
  (timeout : Z) : IO jsstring :=
  binaryPath <- asks getResticBinaryPath ;;
  env <- await (buildEnv opts) ;;
  let fullArgs := buildExtraArgs (ro_storage opts) ++ args in
  log LDebug (lit "restic " ++ join (lit " ") fullArgs) ;;
  emit (Spawn binaryPath fullArgs env timeout) ;;
  r <- asks (fun w => execFile w binaryPath fullArgs env timeout) ;;
  out <- await r ;;
  (if truthy_str (snd out)
   then log LDebug (lit "restic stderr: " ++ snd out)
   else ret tt) ;;
  ret (fst out).

(** [parsed.message_type === "summary"]; [None] when reading the property
    throws (on [null]). *)
Definition message_type_is_summary (parsed : json) : option bool :=
  match parsed with
  | JNull => None
  | JObj fields =>
      Some match own_property fields (lit "message_type") with
           | Some (JStr s) => str_eqb s (lit "summary")
           | _ => false
           end
  | _ => Some false
  end.

(** The body of the loop of [backup] on one line: [Some parsed] is its
    [return parsed]; [None] is the next iteration, reached by falling out
    of the [if] or through the [catch]. *)
Definition summary_of_line (line : jsstring) : option json :=
  match JSON_parse line with
  | None => None
  | Some parsed =>
      match message_type_is_summary parsed with
      | Some true => Some parsed
      | _ => None
      end
  end.

(** The loop [for (let i = lines.length - 1; i >= 0; i--)], given the
    lines from the last one to the first. *)
Fixpoint scan_backwards (lines_from_last : list jsstring) : option json :=
  match lines_from_last with
  | [] => None
  | line :: earlier =>
      match summary_of_line line with
      | Some parsed => Some parsed
      | None => scan_backwards earlier
      end
  end.

Definition flag_each (flag : jsstring) (values : option (list jsstring))
  : list jsstring :=
  match values with
  | Some vs => flat_map (fun v => [flag; v]) vs
  | None => []
  end.

(** [backup]. The result is the parsed line itself ([parsed as
    ResticBackupSummary] checks nothing). *)
Definition backup (sourceDir : jsstring) (opts : ResticOptions)
  (options : option BackupCallOptions) : IO json :=
  includeArgs <-
    match options with
    | Some o =>
        match bo_includes o with
        | NoIncludes => ret []
        | Globs ps => ret (flat_map (fun v => [lit "--include"; v]) ps)
        | PrototypeMember _ =>
            throw (TypeError (lit "options.includes is not iterable"))
        end
    | None => ret []
    end ;;
  let args :=
    [lit "backup"; sourceDir; lit "--json"]
    ++ flag_each (lit "--tag")
         (match options with Some o => bo_tags o | None => None end)
    ++ flag_each (lit "--exclude")
         (match options with Some o => bo_excludes o | None => None end)
    ++ includeArgs
    ++ match options with
       | Some o => match bo_dryRun o with
                   | Some true => [lit "--dry-run"]
                   | _ => []
                   end
       | None => []
       end in
  output <- runResticRaw args opts 600000 ;;
  let lines := split 10 (trim output) in
  match scan_backwards (rev lines) with
  | Some parsed => ret parsed
  | None => throw (Error (lit "No backup summary found in restic output"))
  end.

End WithRuntime.

End Restic.

(* ================================================================== *)
(** ** [src/cli/backup.ts]                                            *)
(* ================================================================== *)

Module BackupCli.

(** [BackupOptions]: what commander passes to the command. *)
Record BackupOptions := mkBackupOptions {
  passphrase : option jsstring;
  only : option jsstring;
  dryRun : option bool;
  forget : option bool
}.

(** The value of a truthy [string | undefined]. *)
Definition the (s : option jsstring) : jsstring :=
  match s with Some v => v | None => [] end.

(** The four lines logged when no passphrase is found. *)
Definition remediation_lines : list jsstring :=
  [lit "Options:";
   lit "  1. Save to keychain:  clawstash setup";
   lit "  2. Set env var:       export CLAWSTASH_PASSPHRASE=...";
   lit "  3. Pass flag:         --passphrase ..."].

(** [resolvePassphrase] *)
Definition resolvePassphrase (opts : BackupOptions) : IO jsstring :=
  if truthy (passphrase opts) then ret (the (passphrase opts))
  else
    fromEnv <- asks (fun w => process_env w (lit "CLAWSTASH_PASSPHRASE")) ;;
    if truthy fromEnv then ret (the fromEnv)
    else
      emit KeychainRead ;;
      fromKeychain <- (r <- asks getKeychainPassphrase ;; await r) ;;
      if truthy fromKeychain then
        log LDebug (lit "Passphrase loaded from system keychain") ;;
        ret (the fromKeychain)
      else
        log LError (lit "No passphrase found.") ;;
        fold_right (fun line k => log LInfo line ;; k) (ret tt)
          remediation_lines ;;
        process_exit 1.

(** The table of [getCategoryIncludes] for the backup direction. *)
Definition map : list (jsstring * list jsstring) :=
  [(lit "config", [lit "openclaw.json"; lit "openclaw.json5"; lit ".env"]);
   (lit "secrets", [lit "credentials/**"; lit "auth/**"; lit ".env"]);
   (lit "workspace", [lit "workspace/**"; lit "workspace-*/**"]);
   (lit "sessions", [lit "agents/*/sessions/**"]);
   (lit "memory", [lit "memory/**"]);
   (lit "skills", [lit "skills/**"; lit "workspace/skills/**"]);
   (lit "agents", [lit "agents/*/agent/**"]);
   (lit "settings", [lit "settings/**"])].

(** The body of [getCategoryIncludes] over a given table; the two
    commands differ in the table only. *)
Definition lookup_includes (table : list (jsstring * list jsstring))
  (only : option jsstring) : IO IncludesValue :=
  if negb (truthy only) then ret NoIncludes
  else
    match get_property table (the only) with
    | Own includes => ret (Globs includes)
    | Inherited => ret (PrototypeMember (the only))
    | Undefined =>
        log LError (lit "Unknown category: " ++ the only) ;;
        log LInfo (lit "Valid categories: "
                   ++ join (lit ", ") (Object_keys table)) ;;
        process_exit 1
    end.

(** [getCategoryIncludes] *)
Definition getCategoryIncludes (only : option jsstring) : IO IncludesValue :=
  lookup_includes map only.

Section WithRuntime.
Context {RT : Runtime}.

(** The report printed after a successful engine run. *)
Definition report (opts : BackupOptions) (summary : ResticBackupSummary)
  : IO unit :=
  let totalFiles :=
    (files_new summary + files_changed summary
     + files_unmodified summary)%Z in
  let changedFiles := (files_new summary + files_changed summary)%Z in
  emit LogBlank ;;
  (if match dryRun opts with Some true => true | _ => false end
   then emit (LogHeader (lit "Dry run complete"))
   else emit (LogHeader (lit "Backup complete"))) ;;
  emit (LogKv (lit "Snapshot") (slice0 (snapshot_id summary) 8)
          (Some (lit "ok"))) ;;
  emit (LogKv (lit "Files")
          (Number_toString totalFiles ++ lit " total, "
           ++ Number_toString changedFiles ++ lit " changed") None) ;;
  emit (LogKv (lit "Data added") (formatBytes (data_added summary)) None) ;;
  emit (LogKv (lit "Processed")
          (formatBytes (total_bytes_processed summary)) None) ;;
  emit (LogKv (lit "Duration")
          (formatDuration (total_duration summary)) None).

(** [backupCommand]. [chalk.dim] only styles its argument and is left
    out of the logged text. *)
Definition backupCommand (opts : BackupOptions) : IO unit :=
  cfg <- (r <- asks requireConfig ;; await r) ;;
  pass <- resolvePassphrase opts ;;
  emit (CallEnsureRestic (resticVersion cfg)) ;;
  (r <- asks (fun w => ensureRestic w (resticVersion cfg)) ;; await r) ;;
  found <- (r <- asks (fun w => scanOpenClawDir_exists w (openclawDir cfg)) ;;
            await r) ;;
  if negb found then
    log LError (lit "OpenClaw directory not found: " ++ openclawDir cfg) ;;
    process_exit 1
  else
    running <- (r <- asks isOpenClawRunning ;; await r) ;;
    (if running then
       log LWarn
         (lit "OpenClaw gateway is running. SQLite files may be locked.") ;;
       log LInfo
         (lit "Backup will proceed but SQLite data may be inconsistent.") ;;
       log LInfo
         (lit "For best results, stop OpenClaw first: openclaw gateway stop") ;;
       emit LogBlank
     else ret tt) ;;
    let excludes := Openclaw.DEFAULT_EXCLUDES ++ exclude cfg in
    let tags :=
      [lit "clawstash"]
      ++ (if truthy (only opts) then [the (only opts)] else []) in
    includes <- getCategoryIncludes (only opts) ;;
    emit (Spinner SStart
            (if match dryRun opts with Some true => true | _ => false end
             then lit "Calculating backup (dry run)..."
             else lit "Backing up...")) ;;
    let ro := mkResticOptions (storage cfg) pass in
    let bo := mkBackupCallOptions (Some tags) (Some excludes) includes
                (dryRun opts) in
    try_catch
      (emit (CallBackup (openclawDir cfg) ro bo) ;;
       summary <- (r <- asks (fun w => restic_backup w (openclawDir cfg) ro bo) ;;
                   await r) ;;
       emit (Spinner SStop []) ;;
       report opts summary)
      (fun err =>
         emit (Spinner SFail (lit "Backup failed")) ;;
         log LError (String_of_exn err) ;;
         process_exit 1) ;;
    if negb (match dryRun opts with Some true => true | _ => false end)
       && negb (match forget opts with Some false => true | _ => false end)
    then
      emit (Spinner SStart (lit "Applying retention policy...")) ;;
      try_catch
        (emit (CallForget ro (retention cfg)) ;;
         (r <- asks (fun w => restic_forget w ro (retention cfg)) ;; await r) ;;
         emit (Spinner SSucceed (lit "Retention policy applied")))
        (fun err =>
           emit (Spinner SWarn
                   (lit "Retention policy failed (backup was successful)")) ;;
           log LDebug (String_of_exn err))
    else ret tt.

End WithRuntime.

End BackupCli.

(* ================================================================== *)
(** ** [src/cli/restore.ts]                                           *)
(* ================================================================== *)

Module RestoreCli.

(** The table of [getCategoryIncludes] for the restore direction. *)
Definition map : list (jsstring * list jsstring) :=
  [(lit "config", [lit "**/openclaw.json"; lit "**/.env"]);
   (lit "secrets", [lit "**/credentials/**"; lit "**/auth/**"]);
   (lit "workspace", [lit "**/workspace/**"]);
   (lit "sessions", [lit "**/agents/*/sessions/**"]);
   (lit "memory", [lit "**/agents/*/memory.sqlite";
                   lit "**/agents/*/memory.db"])].

(** [getCategoryIncludes] *)
Definition getCategoryIncludes (only : option jsstring) : IO IncludesValue :=
  BackupCli.lookup_includes map only.

(** A pattern letter under the [i] flag: itself or its capital. *)
Definition ci_eq (pattern c : N) : bool :=
  ((c =? pattern) || (c + 32 =? pattern) && (65 <=? c) && (c <=? 90))%N.

(** Match a lower-case word at the head of [s] without regard to case;
    the result is the matched text and what follows it. *)
Fixpoint match_word (word s : jsstring) : option (jsstring * jsstring) :=
  match word, s with
  | [], _ => Some ([], s)
  | p :: word', c :: s' =>
      if ci_eq p c then
        match match_word word' s' with
        | Some (m, rest) => Some (c :: m, rest)
        | None => None
        end
      else None
  | _ :: _, [] => None
  end.

(** The alternation [(minute|hour|day|week|month)], tried in order. *)
Definition unit_words : list jsstring :=
  [lit "minute"; lit "hour"; lit "day"; lit "week"; lit "month"].

Fixpoint match_unit (words : list jsstring) (s : jsstring)
  : option (jsstring * jsstring) :=
  match words with
  | [] => None
  | w :: ws =>
      match match_word w s with
      | Some r => Some r
      | None => match_unit ws s
      end
  end.

(** [timeStr.match(/^(\d+)\s+(minute|hour|day|week|month)s?\s+ago$/i)]:
    the two captures, or [None] for [null]. *)
Definition relativeMatch (timeStr : jsstring) : option (jsstring * jsstring) :=
  let digits := takeWhile isDigit timeStr in
  let r1 := dropWhile isDigit timeStr in
  let r2 := dropWhile isWhiteSpace r1 in
  if negb (truthy_str digits) then None
  else if negb (truthy_str (takeWhile isWhiteSpace r1)) then None
  else
    match match_unit unit_words r2 with
    | None => None
    | Some (unit, r3) =>
        let r4 := match match_word (lit "s") r3 with
                  | Some (_, r) => r
                  | None => r3
                  end in
        let r5 := dropWhile isWhiteSpace r4 in
        if negb (truthy_str (takeWhile isWhiteSpace r4)) then None
        else
          match match_word (lit "ago") r5 with
          | Some (_, []) => Some (digits, unit)
          | _ => None
          end
    end.

(** The table [multipliers], in milliseconds. *)
Definition multipliers : list (jsstring * Z) :=
  [(lit "minute", 60000); (lit "hour", 3600000); (lit "day", 86400000);
   (lit "week", 604800000); (lit "month", 2592000000)]%Z.

Section WithRuntime.
Context {RT : Runtime}.

(** A time value as a number: [Date.now()] and [getTime()] of a valid
    date are integers of at most 8.64e15 in magnitude, which are
    doubles. *)
Definition time_value (t : Z) : number := round_double t.

(** The first half of [findSnapshotByTime]: the target instant, computed
    in double precision. The captured unit, lower-cased, is always a key
    of [multipliers]. *)
Definition targetTime (timeStr : jsstring) : IO number :=
  match relativeMatch timeStr with
  | Some (digits, unit) =>
      let amount := parseInt digits in
      let factor := match own_property multipliers (toLowerCase unit) with
                    | Some m => m
                    | None => 0%Z
                    end in
      now <- asks Date_now ;;
      ret (num_sub (time_value now) (num_mul amount (Finite factor)))
  | None =>
      match Date_getTime timeStr with
      | Some t => ret (time_value t)
      | None =>
          log LError (lit "Cannot parse time: " ++ timeStr) ;;
          process_exit 1
      end
  end.

(** [new Date(snap.time).getTime()] *)
Definition snapTime (snap : ResticSnapshot) : number :=
  match Date_getTime (time snap) with
  | Some t => time_value t
  | None => NaN
  end.

(** The loop over the snapshots: the state is [(best, bestDiff)], and
    the body is [diff = Math.abs(snapTime - targetTime)] followed by
    [if (diff < bestDiff)]. *)
Definition closest_step (target : number)
  (state : option ResticSnapshot * number) (snap : ResticSnapshot)
  : option ResticSnapshot * number :=
  let diff := Math_abs (num_sub (snapTime snap) target) in
  if num_lt diff (snd state) then (Some snap, diff) else state.

Definition closest (snapshots : list ResticSnapshot) (target : number)
  : option ResticSnapshot :=
  fst (fold_left (closest_step target) snapshots (None, PosInfinity)).

(** [findSnapshotByTime] *)
Definition findSnapshotByTime (snapshots : list ResticSnapshot)
  (timeStr : jsstring) : IO (option ResticSnapshot) :=
  target <- targetTime timeStr ;;
  ret (closest snapshots target).

End WithRuntime.

End RestoreCli.

(* ================================================================== *)
(** ** Sample worlds, used where a statement is run on concrete input *)
(* ================================================================== *)

Module Samples.

(** A JSON string literal. *)
Definition quoted (s : string) : jsstring := S3.dquote ++ lit s ++ S3.dquote.

(** Two lines as the engine prints them: a progress record and a
    summary record. *)
Definition status_line : jsstring :=
  lit "{" ++ quoted "message_type" ++ lit ":" ++ quoted "status" ++ lit ","
  ++ quoted "percent_done" ++ lit ":1}".

Definition summary_line : jsstring :=
  lit "{" ++ quoted "message_type" ++ lit ":" ++ quoted "summary" ++ lit ","
  ++ quoted "snapshot_id" ++ lit ":" ++ quoted "abc12345" ++ lit "}".

Definition status_value : json :=
  JObj [(lit "message_type", JStr (lit "status"));
        (lit "percent_done", JNum (mkDecimal 1 0))].

Definition summary_value : json :=
  JObj [(lit "message_type", JStr (lit "summary"));
        (lit "snapshot_id", JStr (lit "abc12345"))].

(** A runtime whose library functions are simple stand-ins: digests of
    fixed shape, a URL constructor that accepts what starts with
    ["http"], a date parser that reads a string of digits as a time
    value (of at most 8.64e15, the last instant a date can hold), and a
    JSON parser that knows the two lines above and [null]. *)
Definition plain_runtime : Runtime :=
  {| sha256_hex := fun s => lit "sha256:" ++ s;
     hmac_sha256 := fun _ data => map (fun c => (c mod 256)%N) data;
     URL_new := fun path base =>
       if startsWith base (lit "http")
       then Some (mkURL (skipn 8 base) path [] (base ++ path))
       else None;
     Date_getTime := fun s =>
       if truthy_str s && forallb isDigit s
          && (decimal_value s <=? 8640000000000000)%Z
       then Some (decimal_value s) else None;
     JSON_parse := fun s =>
       if str_eqb s summary_line then Some summary_value
       else if str_eqb s status_line then Some status_value
       else if str_eqb s (lit "null") then Some JNull
       else None;
     formatBytes := fun n => Number_toString n ++ lit " B";
     formatDuration := fun d => Number_toString (significand d) |}.

Definition sample_storage : StorageConfig :=
  {| provider := r2; bucket := lit "clawstash-backup";
     accountId := Some (lit "abc"); accessKeyId := lit "key";
     secretAccessKey := lit "secret"; endpoint := None; region := None;
     jurisdiction := None |}.

Definition sample_config : ClawstashConfig :=
  {| openclawDir := lit "/home/user/.openclaw";
     storage := sample_storage;
     retention := mkRetention 7 30 12 6;
     exclude := [];
     resticVersion := lit "0.17.3" |}.

Definition sample_summary : ResticBackupSummary :=
  {| files_new := 5; files_changed := 3; files_unmodified := 100;
     data_added := 1024; total_bytes_processed := 2048;
     total_duration := mkDecimal 42 (-1);
     snapshot_id := lit "abc12345def67890" |}.

(** A storage target with no way to derive an endpoint. *)
Definition minio_without_endpoint : StorageConfig :=
  {| provider := minio; bucket := lit "clawstash-backup";
     accountId := None; accessKeyId := lit "key";
     secretAccessKey := lit "secret"; endpoint := None; region := None;
     jurisdiction := None |}.

(** A world with no network, no keychain entry and no environment
    variable, in which every engine call fails. *)
Definition offline_world : Env :=
  {| Date_now := 1709210096789;
     process_env := fun _ => None;
     getKeychainPassphrase := Fulfilled None;
     fetch := fun _ => Rejected (TypeError (lit "fetch failed"));
     getResticBinaryPath := lit "/usr/local/bin/restic";
     execFile := fun _ _ _ _ => Rejected (Error (lit "spawn ENOENT"));
     requireConfig := Fulfilled sample_config;
     ensureRestic := fun _ => Fulfilled tt;
     scanOpenClawDir_exists := fun _ => Fulfilled true;
     isOpenClawRunning := Fulfilled false;
     restic_backup := fun _ _ _ => Rejected (Error (lit "exit code 1"));
     restic_forget := fun _ _ => Rejected (Error (lit "exit code 1")) |}.

(** The offline world, except that every request is answered with the
    given response. *)
Definition answering (res : Response) : Env :=
  {| Date_now := Date_now offline_world;
     process_env := process_env offline_world;
     getKeychainPassphrase := getKeychainPassphrase offline_world;
     fetch := fun _ => Fulfilled res;
     getResticBinaryPath := getResticBinaryPath offline_world;
     execFile := execFile offline_world;
     requireConfig := requireConfig offline_world;
     ensureRestic := ensureRestic offline_world;
     scanOpenClawDir_exists := scanOpenClawDir_exists offline_world;
     isOpenClawRunning := isOpenClawRunning offline_world;
     restic_backup := restic_backup offline_world;
     restic_forget := restic_forget offline_world |}.

(** The offline world, except that every engine run ends well and
    prints the given standard output. *)
Definition printing (output : jsstring) : Env :=
  {| Date_now := Date_now offline_world;
     process_env := process_env offline_world;
     getKeychainPassphrase := getKeychainPassphrase offline_world;
     fetch := fetch offline_world;
     getResticBinaryPath := getResticBinaryPath offline_world;
     execFile := fun _ _ _ _ => Fulfilled (output, []);
     requireConfig := requireConfig offline_world;
     ensureRestic := ensureRestic offline_world;
     scanOpenClawDir_exists := scanOpenClawDir_exists offline_world;
     isOpenClawRunning := isOpenClawRunning offline_world;
     restic_backup := restic_backup offline_world;
     restic_forget := restic_forget offline_world |}.

(** Three snapshots, taken three days, one day and one hour before the
    clock reading of the sample worlds. *)
Definition snapshot_at (name : string) (t : Z) : ResticSnapshot :=
  {| id := lit name; short_id := slice0 (lit name) 8;
     time := Number_toString t; hostname := lit "test";
     tags := Some [lit "clawstash"]; paths := [lit "/home/user/.openclaw"] |}.

Definition three_snapshots : list ResticSnapshot :=
  [snapshot_at "snap1-full-id" (1709210096789 - 3 * 86400000);
   snapshot_at "snap2-full-id" (1709210096789 - 86400000);
   snapshot_at "snap3-full-id" (1709210096789 - 3600000)].


(** The offline world, except that the engine's backup run succeeds
    with the sample summary; the retention run still fails. *)
Definition retention_failing : Env :=
  {| Date_now := Date_now offline_world;
     process_env := process_env offline_world;
     getKeychainPassphrase := getKeychainPassphrase offline_world;
     fetch := fetch offline_world;
     getResticBinaryPath := getResticBinaryPath offline_world;
     execFile := execFile offline_world;
     requireConfig := requireConfig offline_world;
     ensureRestic := ensureRestic offline_world;
     scanOpenClawDir_exists := scanOpenClawDir_exists offline_world;
     isOpenClawRunning := isOpenClawRunning offline_world;
     restic_backup := fun _ _ _ => Fulfilled sample_summary;
     restic_forget := restic_forget offline_world |}.

(** The offline world, except that the endpoints of the EU jurisdiction
    answer 200 and all others 403. *)
Definition eu_account : Env :=
  {| Date_now := Date_now offline_world;
     process_env := process_env offline_world;
     getKeychainPassphrase := getKeychainPassphrase offline_world;
     fetch := fun req =>
       if includes (req_url req) (lit ".eu.r2.cloudflarestorage.com")
       then Fulfilled (mkResponse 200 (lit "<ListAllMyBucketsResult/>"))
       else Fulfilled (mkResponse 403 (lit "<Error/>"));
     getResticBinaryPath := getResticBinaryPath offline_world;
     execFile := execFile offline_world;
     requireConfig := requireConfig offline_world;
     ensureRestic := ensureRestic offline_world;
     scanOpenClawDir_exists := scanOpenClawDir_exists offline_world;
     isOpenClawRunning := isOpenClawRunning offline_world;
     restic_backup := restic_backup offline_world;
     restic_forget := restic_forget offline_world |}.

(** A 500 response whose body carries the provider's marker. *)
Definition owned_500 : Response :=
  {| status := 500;
     text := lit "<Error><Code>BucketAlreadyOwnedByYou</Code></Error>" |}.

End Samples.

(* ================================================================== *)
(** ** The specification's own words, to compare the code with        *)
(* ================================================================== *)

Module Spec.

(** A source of a passphrase is present when it holds a non-empty
    string. *)
Definition present (source : option jsstring) : bool := truthy source.

(** The value of the highest-priority present source of an ordered
    fallback chain. *)
Fixpoint highest_priority (chain : list (option jsstring))
  : option jsstring :=
  match chain with
  | [] => None
  | Some v :: lower => if present (Some v) then Some v
                       else highest_priority lower
  | None :: lower => highest_priority lower
  end.

(** The events of a trace that read the secret store. *)
Definition keychain_reads (tr : list Event) : nat :=
  List.length
    (filter (fun e => match e with KeychainRead => true | _ => false end) tr).

(** What the secret store holds: the passphrase its lookup answers
    with; nothing when it answers with none or does not answer. *)
Definition keychain_value (w : Env) : option jsstring :=
  match getKeychainPassphrase w with
  | Fulfilled answer => answer
  | Rejected _ => None
  end.

(** The lookup of the secret store answers, with a passphrase or with
    none. *)
Definition keychain_answers (w : Env) : Prop :=
  exists answer, getKeychainPassphrase w = Fulfilled answer.

(** The sources of [resolvePassphrase] in the order it consults them:
    the override, the environment variable [CLAWSTASH_PASSPHRASE], the
    secret store. *)
Definition passphrase_chain (opts : BackupCli.BackupOptions) (w : Env)
  : list (option jsstring) :=
  [BackupCli.passphrase opts;
   process_env w (lit "CLAWSTASH_PASSPHRASE");
   keychain_value w].

(** What a run of [resolvePassphrase] that finds no passphrase adds to
    the trace. *)
Definition no_passphrase_events : list Event :=
  [KeychainRead;
   Log LError (lit "No passphrase found.");
   Log LInfo (lit "Options:");
   Log LInfo (lit "  1. Save to keychain:  clawstash setup");
   Log LInfo (lit "  2. Set env var:       export CLAWSTASH_PASSPHRASE=...");
   Log LInfo (lit "  3. Pass flag:         --passphrase ...")].

(** The signed request of [signRequest] in a given world, if signing
    succeeds; signing leaves no trace, so the trace it runs on is
    immaterial. *)
Definition signed {RT : Runtime} (o : S3.SignOpts) (w : Env)
  : option S3.SignedRequest :=
  match fst (S3.signRequest o w []) with
  | Ret sr => Some sr
  | _ => None
  end.

(** The options [bucketExists] and [createBucket] sign with. *)
Definition bucket_opts (verb : jsstring) (st : StorageConfig)
  (ep : jsstring) : S3.SignOpts :=
  {| S3.sr_method := verb;
     S3.sr_endpoint := ep;
     S3.sr_path := lit "/" ++ bucket st;
     S3.sr_body := [];
     S3.sr_accessKeyId := accessKeyId st;
     S3.sr_secretAccessKey := secretAccessKey st;
     S3.sr_region := S3.region_or_auto st |}.

(** The request [detectR2Jurisdiction] sends to the endpoint of one
    jurisdiction, if it can be signed. *)
Definition probe_request {RT : Runtime} (account keyId secret : jsstring)
  (w : Env) (jur : jsstring) : option Request :=
  match signed {| S3.sr_method := lit "GET";
                  S3.sr_endpoint := S3.r2_endpoint account jur;
                  S3.sr_path := lit "/";
                  S3.sr_body := [];
                  S3.sr_accessKeyId := keyId;
                  S3.sr_secretAccessKey := secret;
                  S3.sr_region := lit "auto" |} w with
  | Some sr => Some (mkRequest (S3.url sr) (lit "GET") (S3.headers sr)
                       (Some 8000%Z))
  | None => None
  end.

(** Whether the signed [GET /] on the endpoint of a jurisdiction is
    answered with HTTP 200; a request that cannot be signed or fails on
    the network is not. *)
Definition answers_200 {RT : Runtime} (account keyId secret : jsstring)
  (w : Env) (jur : jsstring) : bool :=
  match probe_request account keyId secret w jur with
  | Some req =>
      match fetch w req with
      | Fulfilled res => (status res =? 200)%Z
      | Rejected _ => false
      end
  | None => false
  end.

(** The first candidate that is answered with 200, or the empty-string
    default. *)
Definition first_authoritative {RT : Runtime}
  (account keyId secret : jsstring) (w : Env) (candidates : list jsstring)
  : jsstring :=
  match find (answers_200 account keyId secret w) candidates with
  | Some jur => jur
  | None => lit ""
  end.

(** The requests a sequential, short-circuiting probe of the candidates
    sends: one per candidate that can be signed, up to and including the
    first that is answered with 200. *)
Fixpoint probes_sent {RT : Runtime} (account keyId secret : jsstring)
  (w : Env) (candidates : list jsstring) : list Request :=
  match candidates with
  | [] => []
  | jur :: rest =>
      match probe_request account keyId secret w jur with
      | Some req => [req]
      | None => []
      end
      ++ (if answers_200 account keyId secret w jur then []
          else probes_sent account keyId secret w rest)
  end.

(** A parsed line carries the summary discriminator when it is an
    object whose [message_type] is the string ["summary"]. *)
Definition is_summary (parsed : json) : Prop :=
  exists fields,
    parsed = JObj fields
    /\ own_property fields (lit "message_type") = Some (JStr (lit "summary")).

(** A line qualifies when it parses as JSON and the parsed value carries
    the summary discriminator. *)
Definition qualifies {RT : Runtime} (line : jsstring) : Prop :=
  exists parsed, JSON_parse line = Some parsed /\ is_summary parsed.

(** Engine output made of the given records, one per line, each line
    ended by a line feed. *)
Definition newline_delimited (records : list jsstring) : jsstring :=
  flat_map (fun r => r ++ [10%N]) records.

(** A gap is a non-empty run of white space. *)
Definition gap (s : jsstring) : Prop :=
  s <> [] /\ forallb isWhiteSpace s = true.

(** The relative time expression ["<integer> <unit> ago"]: digits, white
    space, a unit word with or without its plural [s], white space,
    ["ago"]. *)
Definition relative_phrase (digits gap1 unit : jsstring) (plural : bool)
  (gap2 : jsstring) : jsstring :=
  digits ++ gap1 ++ unit ++ (if plural then lit "s" else []) ++ gap2
  ++ lit "ago".

(** The length of a unit in seconds; a month is thirty days. *)
Definition unit_seconds (unit : jsstring) : Z :=
  if str_eqb unit (lit "minute") then 60
  else if str_eqb unit (lit "hour") then 60 * 60
  else if str_eqb unit (lit "day") then 24 * 60 * 60
  else if str_eqb unit (lit "week") then 7 * 24 * 60 * 60
  else if str_eqb unit (lit "month") then 30 * 24 * 60 * 60
  else 0.

(** The integer that decimal digits denote: each digit counts for its
    value times ten to the number of digits after it. *)
Fixpoint denoted (digits : jsstring) : Z :=
  match digits with
  | [] => 0
  | d :: rest =>
      (Z.of_N d - 48) * 10 ^ Z.of_nat (List.length rest) + denoted rest
  end.

(** A safe integer: at most [2^53 - 1] in magnitude
    ([Number.MAX_SAFE_INTEGER]); sums, differences and products of
    doubles are exact as long as they are safe integers. *)
Definition safe (z : Z) : Prop := (Z.abs z <= 9007199254740991)%Z.





(** What the command prints when the OpenClaw gateway is running. *)
Definition running_notice (running : bool) : list Event :=
  if running then
    [Log LWarn
       (lit "OpenClaw gateway is running. SQLite files may be locked.");
     Log LInfo
       (lit "Backup will proceed but SQLite data may be inconsistent.");
     Log LInfo
       (lit "For best results, stop OpenClaw first: openclaw gateway stop");
     LogBlank]
  else [].

(** The report of a finished backup, as events. *)
Definition report_events {RT : Runtime} (summary : ResticBackupSummary) : list Event :=
  [LogBlank;
   LogHeader (lit "Backup complete");
   LogKv (lit "Snapshot") (slice0 (snapshot_id summary) 8) (Some (lit "ok"));
   LogKv (lit "Files")
     (Number_toString (files_new summary + files_changed summary
                       + files_unmodified summary)
      ++ lit " total, "
      ++ Number_toString (files_new summary + files_changed summary)
      ++ lit " changed") None;
   LogKv (lit "Data added") (formatBytes (data_added summary)) None;
   LogKv (lit "Processed") (formatBytes (total_bytes_processed summary)) None;
   LogKv (lit "Duration") (formatDuration (total_duration summary)) None].

(** The requests of a trace, in the order they were sent. *)
Fixpoint requests (tr : list Event) : list Request :=
  match tr with
  | [] => []
  | Fetch req :: rest => req :: requests rest
  | _ :: rest => requests rest
  end.

End Spec.


(* ================================================================== *)
(** ** [src/core/restic.ts]: the other engine operations              *)
(* ================================================================== *)

Module ResticOps.

(** What [runRestic] hands back: the parsed standard output, or the raw
    text when it is not JSON ("some commands don't return JSON"). *)
Inductive Output := Parsed (v : json) | Raw (s : jsstring).

(** The [retention] argument of [forget]: every field is optional, and
    a field that is set is a number: a count however large, an infinity
    or [NaN]. *)
Record Retention := mkRetentionArg {
  r_keepLast : option number;
  r_keepDaily : option number;
  r_keepWeekly : option number;
  r_keepMonthly : option number
}.

(** A [RetentionConfig] passed where [forget] expects its argument: the
    counts of the configuration as the numbers they are read as. *)
Definition of_config (c : RetentionConfig) : Retention :=
  mkRetentionArg (Some (round_double (keepLast c)))
    (Some (round_double (keepDaily c)))
    (Some (round_double (keepWeekly c)))
    (Some (round_double (keepMonthly c))).

(** The [options] argument of [restore]. *)
Record RestoreCallOptions := mkRestoreCallOptions {
  rc_include : IncludesValue;
  rc_exclude : option (list jsstring)
}.

(** [if (retention.x) args.push(flag, String(retention.x))]: zero,
    [NaN] and [undefined] are falsy. *)
Definition keep_flag (flag : jsstring) (value : option number)
  : list jsstring :=
  match value with
  | Some n => if truthy_num n then [flag; String_of_number n] else []
  | None => []
  end.

Section WithRuntime.
Context {RT : Runtime}.

(** [runRestic]: the body of [runResticRaw], then [JSON.parse] with the
    raw text as fallback. *)
Definition runRestic (args : list jsstring) (opts : ResticOptions)
  (timeout : Z) : IO Output :=
  stdout <- Restic.runResticRaw args opts timeout ;;
  ret match JSON_parse stdout with
      | Some v => Parsed v
      | None => Raw stdout
      end.

(** [initRepo] *)
Definition initRepo (opts : ResticOptions) : IO unit :=
  _ <- Restic.runResticRaw [lit "init"; lit "--json"] opts 300000 ;;
  ret tt.

(** [checkRepo]: the whole run is inside the [try]. *)
Definition checkRepo (opts : ResticOptions) : IO bool :=
  try_catch
    (_ <- Restic.runResticRaw [lit "cat"; lit "config"; lit "--json"]
            opts 30000 ;;
     ret true)
    (fun _ => ret false).

(** [listSnapshots]; [tags] is [options?.tags]. *)
Definition listSnapshots (opts : ResticOptions)
  (tags : option (list jsstring)) : IO Output :=
  let args :=
    [lit "snapshots"; lit "--json"] ++ Restic.flag_each (lit "--tag") tags in
  result <- runRestic args opts 300000 ;;
  ret match result with
      | Parsed JNull => Parsed (JArr [])
      | other => other
      end.

(** [restore] *)
Definition restore (snapshotId targetDir : jsstring) (opts : ResticOptions)
  (options : option RestoreCallOptions) : IO unit :=
  includeArgs <-
    match options with
    | Some o =>
        match rc_include o with
        | NoIncludes => ret []
        | Globs ps => ret (flat_map (fun v => [lit "--include"; v]) ps)
        | PrototypeMember _ =>
            throw (TypeError (lit "options.include is not iterable"))
        end
    | None => ret []
    end ;;
  let args :=
    [lit "restore"; snapshotId; lit "--target"; targetDir]
    ++ includeArgs
    ++ Restic.flag_each (lit "--exclude")
         (match options with Some o => rc_exclude o | None => None end) in
  _ <- Restic.runResticRaw args opts 600000 ;;
  ret tt.

(** [forget] *)
Definition forget (opts : ResticOptions) (retention : Retention) : IO unit :=
  let args :=
    [lit "forget"; lit "--prune"; lit "--json"]
    ++ keep_flag (lit "--keep-last") (r_keepLast retention)
    ++ keep_flag (lit "--keep-daily") (r_keepDaily retention)
    ++ keep_flag (lit "--keep-weekly") (r_keepWeekly retention)
    ++ keep_flag (lit "--keep-monthly") (r_keepMonthly retention) in
  _ <- Restic.runResticRaw args opts 600000 ;;
  ret tt.

(** [stats] *)
Definition stats (opts : ResticOptions) : IO Output :=
  runRestic [lit "stats"; lit "--json"; lit "--mode"; lit "raw-data"]
    opts 300000.

(** [check] *)
Definition check (opts : ResticOptions) : IO bool :=
  try_catch
    (_ <- Restic.runResticRaw [lit "check"] opts 300000 ;; ret true)
    (fun _ => ret false).

End WithRuntime.

End ResticOps.

(* ================================================================== *)
(** ** [src/core/s3.ts]: [testEndpoint]                               *)
(* ================================================================== *)

Module S3Endpoint.

(** The request of [fetch(endpoint, { method: "HEAD", signal:
    AbortSignal.timeout(5000) })]: no headers. *)
Definition endpoint_request (ep : jsstring) : Request :=
  mkRequest ep (lit "HEAD") [] (Some 5000%Z).

(** [testEndpoint]: the endpoint is derived outside the [try]. *)
Definition testEndpoint (st : StorageConfig) : IO bool :=
  ep <- await (Config.getStorageEndpoint st) ;;
  try_catch
    (res <- S3.do_fetch (endpoint_request ep) ;;
     log LDebug (lit "Endpoint test: " ++ Number_toString (status res)) ;;
     ret true)
    (fun err =>
       log LDebug (lit "Endpoint test failed: " ++ String_of_exn err) ;;
       ret false).

End S3Endpoint.

(* ================================================================== *)
(** ** [src/utils/fs.ts]: [formatTimeAgo]                             *)
(* ================================================================== *)

Module Fs.

Definition RangeError (msg : jsstring) : Exn := mkExn (lit "RangeError") msg.

(** [n === 1 ? "" : "s"] *)
Definition plural (n : Z) : jsstring :=
  if (n =? 1)%Z then [] else lit "s".

(** [formatTimeAgo(date)]. [date] is the time value of the [Date]
    object, [None] for an invalid date: every comparison with [NaN] is
    false, and [toISOString] throws. Time values and their quotients
    are integers, which doubles represent exactly in the range of
    dates. *)
Definition formatTimeAgo (date : option Z) : IO jsstring :=
  now <- asks Date_now ;;
  match date with
  | None => throw (RangeError (lit "Invalid time value"))
  | Some t =>
      let diff := (now - t)%Z in
      let seconds := (diff / 1000)%Z in
      let minutes := (seconds / 60)%Z in
      let hours := (minutes / 60)%Z in
      let days := (hours / 24)%Z in
      if (seconds <? 60)%Z then ret (lit "just now")
      else if (minutes <? 60)%Z then
        ret (Number_toString minutes ++ lit " minute" ++ plural minutes
             ++ lit " ago")
      else if (hours <? 24)%Z then
        ret (Number_toString hours ++ lit " hour" ++ plural hours
             ++ lit " ago")
      else if (days <? 30)%Z then
        ret (Number_toString days ++ lit " day" ++ plural days
             ++ lit " ago")
      else ret (slice0 (S3.Date_toISOString t) 10)
  end.

End Fs.

(* ================================================================== *)
(** ** [src/cli/restore.ts]: [restoreCommand]                         *)
(* ================================================================== *)

Module RestoreCommand.

(** [RestoreOptions] *)
Record RestoreOptions := mkRestoreOptions {
  passphrase : option jsstring;
  only : option jsstring;
  at_ : option jsstring;
  target : option jsstring;
  dryRun : option bool
}.

(** What the command gets from outside this development:
    [snapshots_of] is what [listSnapshots] returns seen at its declared
    type [ResticSnapshot[]] (the [as T] of [runRestic]); [pathExists]
    never rejects; [confirmed] is the property of that name of the
    answer of [prompts] to the question with the given message, [None]
    when the prompt is aborted. *)
Record Collaborators := mkCollaborators {
  snapshots_of : ResticOps.Output -> list ResticSnapshot;
  pathExists : jsstring -> bool;
  confirmed : jsstring -> option bool
}.

(** [opts.dryRun] as a condition. *)
Definition dry (opts : RestoreOptions) : bool :=
  match dryRun opts with Some true => true | _ => false end.

Section WithRuntime.
Context {RT : Runtime}.

(** [resolvePassphrase] of [restore.ts] has the body of the function of
    the same name of [backup.ts]. *)
Definition resolvePassphrase (opts : RestoreOptions) : IO jsstring :=
  BackupCli.resolvePassphrase
    (BackupCli.mkBackupOptions (passphrase opts) None None None).

(** [formatTimeAgo(new Date(snap.time))] *)
Definition ago (snap : ResticSnapshot) : IO jsstring :=
  Fs.formatTimeAgo (Date_getTime (time snap)).

(** The selection of the snapshot; [snapshots] is not empty. *)
Definition select (opts : RestoreOptions) (snapshots : list ResticSnapshot)
  (latest : ResticSnapshot) : IO ResticSnapshot :=
  if truthy (at_ opts) then
    found <- RestoreCli.findSnapshotByTime snapshots (BackupCli.the (at_ opts)) ;;
    match found with
    | None =>
        log LError (lit "No snapshot found near that time.") ;;
        process_exit 1
    | Some snap =>
        when <- ago snap ;;
        log LInfo (lit "Closest snapshot: " ++ short_id snap ++ lit " ("
                   ++ when ++ lit ")") ;;
        ret snap
    end
  else
    when <- ago latest ;;
    log LInfo (lit "Latest snapshot: " ++ short_id latest ++ lit " ("
               ++ when ++ lit ")") ;;
    ret latest.

(** The confirmation step: [true] to go on, [false] for the [return]
    after "Restore cancelled.". *)
Definition confirm (deps : Collaborators) (opts : RestoreOptions)
  (selected : ResticSnapshot) (targetDir : jsstring) : IO bool :=
  if negb (dry opts) then
    if pathExists deps targetDir && negb (truthy (target opts)) then
      emit LogBlank ;;
      log LWarn (lit "This will overwrite files in " ++ targetDir) ;;
      match confirmed deps (lit "Restore snapshot " ++ short_id selected
                            ++ lit " to " ++ targetDir ++ lit "?") with
      | Some true => ret true
      | _ => log LInfo (lit "Restore cancelled.") ;; ret false
      end
    else ret true
  else ret true.

(** [await listSnapshots(resticOpts)]: the engine lists the
    repository. *)
Definition listSnapshots (deps : Collaborators) (ro : ResticOptions)
  : IO (list ResticSnapshot) :=
  listed <- ResticOps.listSnapshots ro None ;;
  ret (snapshots_of deps listed).

(** [restoreCommand]. [chalk.dim] only styles its argument. The
    processes that [ensureRestic] starts on its own ([restic version],
    and what an installation of the engine takes) are not part of the
    trace; none of them is a restore. *)
Definition restoreCommand (deps : Collaborators) (opts : RestoreOptions)
  : IO unit :=
  cfg <- (r <- asks requireConfig ;; await r) ;;
  pass <- resolvePassphrase opts ;;
  emit (CallEnsureRestic (resticVersion cfg)) ;;
  (r <- asks (fun w => ensureRestic w (resticVersion cfg)) ;; await r) ;;
  let ro := mkResticOptions (storage cfg) pass in
  emit (Spinner SStart (lit "Loading snapshots...")) ;;
  snapshots <- listSnapshots deps ro ;;
  emit (Spinner SStop []) ;;
  match rev snapshots with
  | [] =>
      log LError (lit "No snapshots found. Run `clawstash backup` first.") ;;
      process_exit 1
  | latest :: _ =>
      selected <- select opts snapshots latest ;;
      let targetDir := match target opts with
                       | Some t => t
                       | None => openclawDir cfg
                       end in
      proceed <- confirm deps opts selected targetDir ;;
      if negb proceed then ret tt
      else
        includes <- RestoreCli.getCategoryIncludes (only opts) ;;
        emit (Spinner SStart
                (if dry opts then lit "Calculating restore (dry run)..."
                 else lit "Restoring snapshot " ++ short_id selected
                      ++ lit "...")) ;;
        try_catch
          (ResticOps.restore (id selected) targetDir ro
             (Some (ResticOps.mkRestoreCallOptions includes None)) ;;
           emit (Spinner SStop []) ;;
           emit LogBlank ;;
           emit (LogHeader (if dry opts then lit "Dry run complete"
                            else lit "Restore complete")) ;;
           emit (LogKv (lit "Snapshot") (short_id selected)
                   (Some (lit "ok"))) ;;
           when <- ago selected ;;
           emit (LogKv (lit "From") when None) ;;
           emit (LogKv (lit "To") targetDir None) ;;
           (if truthy (only opts)
            then emit (LogKv (lit "Category") (BackupCli.the (only opts))
                         None)
            else ret tt) ;;
           (if negb (truthy (target opts)) then
              emit LogBlank ;;
              log LInfo (lit "Start OpenClaw: openclaw gateway")
            else ret tt))
          (fun err =>
             emit (Spinner SFail (lit "Restore failed")) ;;
             log LError (String_of_exn err) ;;
             process_exit 1)
  end.

End WithRuntime.

End RestoreCommand.

(* ================================================================== *)
(** ** [src/cli/forget.ts]                                            *)
(* ================================================================== *)

Module ForgetCli.

(** [ForgetOptions] *)
Record ForgetOptions := mkForgetOptions {
  passphrase : option jsstring
}.

(** [listSnapshots] stands for the import from [../core/restic.js],
    answering at its declared type; the command calls it twice, and the
    answer may depend on what has happened so far. *)
Record Collaborators := mkCollaborators {
  listSnapshots : list Event -> ResticOptions ->
                  Settled (list ResticSnapshot)
}.

(** [resolvePassphrase] of [forget.ts] *)
Definition resolvePassphrase (opts : ForgetOptions) : IO jsstring :=
  if truthy (passphrase opts) then ret (BackupCli.the (passphrase opts))
  else
    fromEnv <- asks (fun w => process_env w (lit "CLAWSTASH_PASSPHRASE")) ;;
    if truthy fromEnv then ret (BackupCli.the fromEnv)
    else
      emit KeychainRead ;;
      fromKeychain <- (r <- asks getKeychainPassphrase ;; await r) ;;
      if truthy fromKeychain then ret (BackupCli.the fromKeychain)
      else
        log LError (lit "No passphrase found.") ;;
        log LInfo (lit "Run `clawstash setup` to save it to keychain, or set CLAWSTASH_PASSPHRASE env var.") ;;
        process_exit 1.

(** [await listSnapshots(resticOpts)] *)
Definition list_now (deps : Collaborators) (ro : ResticOptions)
  : IO (list ResticSnapshot) :=
  fun w tr => await (listSnapshots deps tr ro) w tr.

(** [`${n} snapshots`] *)
Definition count (n : Z) : jsstring := Number_toString n ++ lit " snapshots".

(** [forgetCommand] *)
Definition forgetCommand (deps : Collaborators) (opts : ForgetOptions)
  : IO unit :=
  cfg <- (r <- asks requireConfig ;; await r) ;;
  pass <- resolvePassphrase opts ;;
  emit (CallEnsureRestic (resticVersion cfg)) ;;
  (r <- asks (fun w => ensureRestic w (resticVersion cfg)) ;; await r) ;;
  let ro := mkResticOptions (storage cfg) pass in
  before <- list_now deps ro ;;
  emit (Spinner SStart (lit "Applying retention policy and pruning...")) ;;
  try_catch
    (ResticOps.forget ro (ResticOps.of_config (retention cfg)) ;;
     emit (Spinner SStop []) ;;
     after <- list_now deps ro ;;
     let removed :=
       (Z.of_nat (List.length before) - Z.of_nat (List.length after))%Z in
     emit LogBlank ;;
     emit (LogHeader (lit "Retention applied")) ;;
     emit (LogKv (lit "Before") (count (Z.of_nat (List.length before)))
             None) ;;
     emit (LogKv (lit "After") (count (Z.of_nat (List.length after)))
             None) ;;
     emit (LogKv (lit "Removed") (count removed)
             (if (0 <? removed)%Z then Some (lit "ok") else None)))
    (fun err =>
       emit (Spinner SFail (lit "Failed to apply retention policy")) ;;
       log LError (String_of_exn err) ;;
       process_exit 1).

End ForgetCli.

(* ================================================================== *)
(** ** [src/utils/platform.ts]                                        *)
(* ================================================================== *)

Module Platform.

(** [getPlatform]; [p] is what [platform()] of [node:os] returns. *)
Definition getPlatform (p : jsstring) : Settled jsstring :=
  if str_eqb p (lit "darwin") || str_eqb p (lit "linux")
     || str_eqb p (lit "win32")
  then Fulfilled p
  else Rejected (Error (lit "Unsupported platform: " ++ p)).

(** [getArch]; [a] is what [arch()] of [node:os] returns. *)
Definition getArch (a : jsstring) : Settled jsstring :=
  if str_eqb a (lit "x64") || str_eqb a (lit "arm64")
  then Fulfilled a
  else Rejected (Error (lit "Unsupported architecture: " ++ a)).

Definition osMap : list (jsstring * jsstring) :=
  [(lit "darwin", lit "darwin"); (lit "linux", lit "linux");
   (lit "win32", lit "windows")].

Definition archMap : list (jsstring * jsstring) :=
  [(lit "x64", lit "amd64"); (lit "arm64", lit "arm64")].

(** [map[key]] inside a template literal. *)
Definition shown (map : list (jsstring * jsstring)) (key : jsstring)
  : jsstring :=
  match own_property map key with
  | Some v => v
  | None => lit "undefined"
  end.

(** [getResticAssetName] *)
Definition getResticAssetName (p a version : jsstring) : Settled jsstring :=
  match getPlatform p with
  | Rejected e => Rejected e
  | Fulfilled p' =>
      match getArch a with
      | Rejected e => Rejected e
      | Fulfilled a' =>
          let ext := if str_eqb p' (lit "win32") then lit "zip"
                     else lit "bz2" in
          Fulfilled (lit "restic_" ++ version ++ lit "_" ++ shown osMap p'
                     ++ lit "_" ++ shown archMap a' ++ lit "." ++ ext)
      end
  end.

End Platform.

(* ================================================================== *)
(** ** [src/core/keychain.ts]: [getPassphrase]                        *)
(* ================================================================== *)

Module Keychain.

(** What [getPassphrase] gets from the system: the platform name, the
    standard output of a command run with [execFileAsync], and the
    content of the passphrase file. *)
Record Collaborators := mkCollaborators {
  platform : jsstring;
  execFileAsync : jsstring -> list jsstring -> Settled jsstring;
  readFile : Settled jsstring
}.

Definition SERVICE_NAME : jsstring := lit "clawstash".
Definition ACCOUNT_NAME : jsstring := lit "backup-passphrase".

(** [readPassphraseFromFile]: [content.trim() || null]. *)
Definition readPassphraseFromFile (deps : Collaborators) : option jsstring :=
  match readFile deps with
  | Fulfilled content =>
      if truthy_str (trim content) then Some (trim content) else None
  | Rejected _ => None
  end.

(** The [try] block of [getPassphrase]: [Some p] is its [return p],
    [None] is falling out of it, at its end or through a [catch]. *)
Definition fromKeychain (deps : Collaborators) (platform : jsstring)
  : option jsstring :=
  let onDarwin :=
    if str_eqb platform (lit "darwin") then
      match execFileAsync deps (lit "security")
              [lit "find-generic-password"; lit "-s"; SERVICE_NAME;
               lit "-a"; ACCOUNT_NAME; lit "-w"] with
      | Fulfilled stdout =>
          if truthy_str (trim stdout) then Some (Some (trim stdout))
          else Some None
      | Rejected _ => None
      end
    else Some None in
  match onDarwin with
  | None => None
  | Some (Some passphrase) => Some passphrase
  | Some None =>
      if str_eqb platform (lit "linux") then
        match execFileAsync deps (lit "secret-tool")
                [lit "lookup"; lit "service"; SERVICE_NAME;
                 lit "account"; ACCOUNT_NAME] with
        | Fulfilled stdout =>
            if truthy_str (trim stdout) then Some (trim stdout) else None
        | Rejected _ => None
        end
      else None
  end.

(** [getPassphrase]: [getPlatform] is called before the [try]. *)
Definition getPassphrase (deps : Collaborators) : Settled (option jsstring) :=
  match Platform.getPlatform (platform deps) with
  | Rejected e => Rejected e
  | Fulfilled platform =>
      match fromKeychain deps platform with
      | Some passphrase => Fulfilled (Some passphrase)
      | None => Fulfilled (readPassphraseFromFile deps)
      end
  end.

End Keychain.

(* ================================================================== *)
(** ** [src/core/openclaw.ts]: the totals of [scanOpenClawDir]        *)
(* ================================================================== *)

Module Scan.

(** [OpenClawFile] *)
Record OpenClawFile := mkFile {
  path : jsstring;
  relativePath : jsstring;
  size : Z;
  category : Openclaw.FileCategory
}.

(** An entry [{ count, size }] of [categories]. *)
Record Totals := mkTotals {
  count : Z;
  bytes : Z
}.

(** [Record<FileCategory, { count: number; size: number }>] *)
Definition Categories : Type := Openclaw.FileCategory -> Totals.

(** [OpenClawScanResult] *)
Record OpenClawScanResult := mkScan {
  dir : jsstring;
  exists_ : bool;
  files : list OpenClawFile;
  totalSize : Z;
  categories : Categories
}.

(** What [scanOpenClawDir] gets from outside: the default directory,
    [pathExists], and the files [scanDir] collects below a directory. *)
Record Collaborators := mkCollaborators {
  getDefaultOpenClawDir : jsstring;
  pathExists : jsstring -> bool;
  scanDir : jsstring -> Settled (list OpenClawFile)
}.

Definition category_eqb (a b : Openclaw.FileCategory) : bool :=
  str_eqb (Openclaw.category_name a) (Openclaw.category_name b).

Definition emptyCategories : Categories := fun _ => mkTotals 0 0.

(** The body of the loop over the files: the state is
    [(categories, totalSize)]. *)
Definition tally (state : Categories * Z) (file : OpenClawFile)
  : Categories * Z :=
  let categories := fst state in
  (fun c =>
     if category_eqb c (category file)
     then mkTotals (count (categories c) + 1)
            (bytes (categories c) + size file)
     else categories c,
   (snd state + size file)%Z).

(** [scanOpenClawDir] *)
Definition scanOpenClawDir (deps : Collaborators)
  (openclawDir : option jsstring) : Settled OpenClawScanResult :=
  let dir := match openclawDir with
             | Some d => d
             | None => getDefaultOpenClawDir deps
             end in
  let exists_ := pathExists deps dir in
  if negb exists_ then
    Fulfilled (mkScan dir exists_ [] 0 emptyCategories)
  else
    match scanDir deps dir with
    | Rejected e => Rejected e
    | Fulfilled files =>
        let '(categories, totalSize) :=
          fold_left tally files (emptyCategories, 0%Z) in
        Fulfilled (mkScan dir exists_ files totalSize categories)
    end.

End Scan.

(* ================================================================== *)
(** ** [src/core/health.ts]                                           *)
(* ================================================================== *)

Module Health.

Inductive Status := ok | warn | error.

(** [HealthCheck] *)
Record HealthCheck := mkCheck {
  name : jsstring;
  status : Status;
  message : jsstring
}.

(** What [runHealthChecks] gets from outside this development, beside
    the world of [IO]: the two probes of the installer and [loadConfig],
    none of which rejects, the path of the configuration file, and the
    collaborators of [scanOpenClawDir]. *)
Record Collaborators := mkCollaborators {
  isResticInstalled : bool;
  getResticVersion : option jsstring;
  loadConfig : option ClawstashConfig;
  getClawstashConfigPath : jsstring;
  scanning : Scan.Collaborators
}.

(** [string | null] inside a template literal. *)
Definition shown (s : option jsstring) : jsstring :=
  match s with Some v => v | None => lit "null" end.

(** The fifth check, on the remote repository. *)
Definition repository_check (config : option ClawstashConfig)
  (passphrase : option jsstring) : IO (list HealthCheck) :=
  match config with
  | Some cfg =>
      if truthy passphrase then
        repoOk <- ResticOps.checkRepo
                    (mkResticOptions (storage cfg)
                       (BackupCli.the passphrase)) ;;
        if repoOk then
          url <- await (Config.getResticRepoUrl (storage cfg)) ;;
          ret [mkCheck (lit "Remote repository") ok url]
        else
          ret [mkCheck (lit "Remote repository") error
                 (lit "Cannot reach repository. Check credentials and network.")]
      else
        ret [mkCheck (lit "Remote repository") warn
               (lit "Skipped (no passphrase provided, use --passphrase or CLAWSTASH_PASSPHRASE)")]
  | None => ret []
  end.

(** [runHealthChecks]; the list is built by appending. *)
Definition runHealthChecks (deps : Collaborators)
  (passphrase : option jsstring) : IO (list HealthCheck) :=
  binaryPath <- asks getResticBinaryPath ;;
  let restic :=
    if isResticInstalled deps then
      mkCheck (lit "Restic binary") ok
        (lit "v" ++ shown (getResticVersion deps) ++ lit " ("
         ++ binaryPath ++ lit ")")
    else
      mkCheck (lit "Restic binary") error
        (lit "Not installed. Run `clawstash setup`") in
  let config := loadConfig deps in
  let configured :=
    match config with
    | Some _ => mkCheck (lit "Config") ok (getClawstashConfigPath deps)
    | None => mkCheck (lit "Config") error
                (lit "Not found. Run `clawstash setup`")
    end in
  scan <- await (Scan.scanOpenClawDir (scanning deps)
                   (option_map openclawDir config)) ;;
  let directory :=
    if Scan.exists_ scan then
      mkCheck (lit "OpenClaw directory") ok
        (Scan.dir scan ++ lit " ("
         ++ Number_toString (Z.of_nat (List.length (Scan.files scan)))
         ++ lit " files)")
    else
      mkCheck (lit "OpenClaw directory") error
        (lit "Not found at " ++ Scan.dir scan) in
  running <- (r <- asks isOpenClawRunning ;; await r) ;;
  let gateway :=
    mkCheck (lit "OpenClaw gateway") (if running then warn else ok)
      (if running then lit "Running (SQLite may be locked during backup)"
       else lit "Not running (safe to backup)") in
  repository <- repository_check config passphrase ;;
  ret ([restic; configured; directory; gateway] ++ repository).

End Health.

(* ================================================================== *)
(** ** More concrete worlds                                           *)
(* ================================================================== *)

Module Cases.

(** An R2 target in the EU jurisdiction. *)
Definition eu_storage : StorageConfig :=
  {| provider := r2; bucket := lit "clawstash-backup";
     accountId := Some (lit "abc"); accessKeyId := lit "key";
     secretAccessKey := lit "secret"; endpoint := None; region := None;
     jurisdiction := Some (lit "eu") |}.

(** The offline world with another reading of the clock. *)
Definition at_time (t : Z) : Env :=
  {| Date_now := t;
     process_env := process_env Samples.offline_world;
     getKeychainPassphrase := getKeychainPassphrase Samples.offline_world;
     fetch := fetch Samples.offline_world;
     getResticBinaryPath := getResticBinaryPath Samples.offline_world;
     execFile := execFile Samples.offline_world;
     requireConfig := requireConfig Samples.offline_world;
     ensureRestic := ensureRestic Samples.offline_world;
     scanOpenClawDir_exists := scanOpenClawDir_exists Samples.offline_world;
     isOpenClawRunning := isOpenClawRunning Samples.offline_world;
     restic_backup := restic_backup Samples.offline_world;
     restic_forget := restic_forget Samples.offline_world |}.

(** A retention policy with one count at zero and one not set. *)
Definition partial_retention : ResticOps.Retention :=
  ResticOps.mkRetentionArg (Some (Finite 7)) (Some (Finite 0)) None
    (Some (round_double (10 ^ 21))).

(** A listing read as the given snapshots unless it is the empty
    array, a target directory that exists or not, and one answer to
    every question. *)
Definition restoring (snapshots : list ResticSnapshot) (found : bool)
  (answer : option bool) : RestoreCommand.Collaborators :=
  RestoreCommand.mkCollaborators
    (fun listed => match listed with
                   | ResticOps.Parsed (JArr []) => []
                   | _ => snapshots
                   end)
    (fun _ => found) (fun _ => answer).

(** A platform without a keychain that the program knows of. *)
Definition on_freebsd : Keychain.Collaborators :=
  Keychain.mkCollaborators (lit "freebsd")
    (fun _ _ => Rejected (Error (lit "spawn ENOENT")))
    (Rejected (Error (lit "ENOENT: no such file or directory"))).

(** The offline world with the given lookup of the secret store and the
    given environment. *)
Definition with_secrets (lookup : Settled (option jsstring))
  (env : jsstring -> option jsstring) : Env :=
  {| Date_now := Date_now Samples.offline_world;
     process_env := env;
     getKeychainPassphrase := lookup;
     fetch := fetch Samples.offline_world;
     getResticBinaryPath := getResticBinaryPath Samples.offline_world;
     execFile := execFile Samples.offline_world;
     requireConfig := requireConfig Samples.offline_world;
     ensureRestic := ensureRestic Samples.offline_world;
     scanOpenClawDir_exists := scanOpenClawDir_exists Samples.offline_world;
     isOpenClawRunning := isOpenClawRunning Samples.offline_world;
     restic_backup := restic_backup Samples.offline_world;
     restic_forget := restic_forget Samples.offline_world |}.

(** An environment in which only [CLAWSTASH_PASSPHRASE] is set. *)
Definition env_passphrase (value : jsstring) (name : jsstring)
  : option jsstring :=
  if str_eqb name (lit "CLAWSTASH_PASSPHRASE") then Some value else None.

(** [--passphrase pw] with the other options as given. *)
Definition restore_options (only target : option jsstring)
  (dryRun : option bool) : RestoreCommand.RestoreOptions :=
  RestoreCommand.mkRestoreOptions (Some (lit "pw")) only None target dryRun.

(** A repository that always lists the three sample snapshots. *)
Definition listing : ForgetCli.Collaborators :=
  ForgetCli.mkCollaborators (fun _ _ => Fulfilled Samples.three_snapshots).

(** A data directory with a configuration file and a credential. *)
Definition two_files : Scan.Collaborators :=
  Scan.mkCollaborators (lit "/home/user/.openclaw") (fun _ => true)
    (fun dir =>
       Fulfilled
         [Scan.mkFile (dir ++ lit "/openclaw.json") (lit "openclaw.json")
            10 (Openclaw.categorizeFile (lit "openclaw.json"));
          Scan.mkFile (dir ++ lit "/credentials/token")
            (lit "credentials/token") 20
            (Openclaw.categorizeFile (lit "credentials/token"))]).

(** An installation with the engine, the sample configuration and the
    directory above. *)
Definition installed : Health.Collaborators :=
  Health.mkCollaborators true (Some (lit "0.17.3"))
    (Some Samples.sample_config)
    (lit "/home/user/.clawstash/config.json") two_files.

End Cases.

(* ================================================================== *)
(** ** Notions used to state the properties of the other operations   *)
(* ================================================================== *)

Module Props.

(** The argument vectors of the engine processes of a trace, in the
    order the processes were started. *)
Fixpoint spawned (tr : list Event) : list (list jsstring) :=
  match tr with
  | [] => []
  | Spawn _ args _ _ :: rest => args :: spawned rest
  | _ :: rest => spawned rest
  end.

(** Whether a run of the engine with the given arguments ends well: the
    environment can be built and the process exits with success. *)
Definition engine_succeeds (args : list jsstring)
  (opts : ResticOptions) (timeout : Z) (w : Env) : bool :=
  match Restic.buildEnv opts with
  | Fulfilled env =>
      match execFile w (getResticBinaryPath w)
              (Restic.buildExtraArgs (ro_storage opts) ++ args) env timeout
      with
      | Fulfilled _ => true
      | Rejected _ => false
      end
  | Rejected _ => false
  end.

(** The word that follows the first occurrence of [flag] in an argument
    vector. *)
Fixpoint flag_value (flag : jsstring) (argv : list jsstring)
  : option jsstring :=
  match argv with
  | [] => None
  | a :: rest =>
      if str_eqb a flag
      then match rest with v :: _ => Some v | [] => None end
      else flag_value flag rest
  end.

(** A count that is set and neither zero nor [NaN]. *)
Definition nonzero (v : option number) : option number :=
  match v with
  | Some n => if truthy_num n then Some n else None
  | None => None
  end.

(** Whether the arguments of an engine process ask for a restore. *)
Definition is_restore (args : list jsstring) : bool :=
  existsb (str_eqb (lit "restore")) args.

(** The argument vectors of the restore processes of a trace, in the
    order the processes were started. *)
Definition restores (tr : list Event) : list (list jsstring) :=
  filter is_restore (spawned tr).

(** Whether a request was answered with HTTP 200. *)
Definition answered_200 (r : Settled Response) : bool :=
  match r with
  | Fulfilled res => (status res =? 200)%Z
  | Rejected _ => false
  end.

(** Whether [createBucket] accepts the answer to its [PUT]. *)
Definition put_accepted (r : Settled Response) : bool :=
  match r with
  | Fulfilled res =>
      ((status res =? 200) || (status res =? 201) || (status res =? 409))%Z
      || includes (text res) S3.owned_marker
  | Rejected _ => false
  end.

(** The retention runs a trace asks the engine for. *)
Fixpoint forgets (tr : list Event) : list (ResticOptions * RetentionConfig) :=
  match tr with
  | [] => []
  | CallForget opts policy :: rest => (opts, policy) :: forgets rest
  | _ :: rest => forgets rest
  end.

(** [c], run in the world [w], only adds events to the trace; every
    event it adds satisfies [P], and a value it returns satisfies [R].
    With [R] nowhere true, [c] does not return. *)
Definition keeps {A} (w : Env) (P : Event -> Prop) (R : A -> Prop)
  (c : IO A) : Prop :=
  forall tr, exists o events,
    c w tr = (o, tr ++ events)
    /\ Forall P events
    /\ forall a, o = Ret a -> R a.

(** Events other than the start of a restore process. *)
Definition no_restore (e : Event) : Prop :=
  match e with
  | Spawn _ args _ _ => is_restore args = false
  | _ => True
  end.

(** The engine lists [snapshots] for the repository: in the world [w],
    some run of [listSnapshots] returns a value that is read as
    [snapshots]. *)
Definition lists {RT : Runtime} (deps : RestoreCommand.Collaborators)
  (w : Env) (ro : ResticOptions) (snapshots : list ResticSnapshot) : Prop :=
  exists tr listed tr',
    ResticOps.listSnapshots ro None w tr = (Ret listed, tr')
    /\ RestoreCommand.snapshots_of deps listed = snapshots.

(** Whatever the engine lists is read as the empty list. *)
Definition lists_nothing {RT : Runtime} (deps : RestoreCommand.Collaborators)
  (w : Env) : Prop :=
  forall ro snapshots, lists deps w ro snapshots -> snapshots = [].

(** Events other than a retention run. *)
Definition no_forget (e : Event) : Prop :=
  match e with CallForget _ _ => False | _ => True end.

(** One step of [decimal_value]: the next digit joins the number read so
    far. *)
Definition parse_step (acc : Z) (c : N) : Z :=
  (10 * acc + (Z.of_N c - 48))%Z.

(** The time value of a valid date: at most 8.64e15 milliseconds from
    the epoch. *)
Definition valid_date (t : Z) : Prop := (Z.abs t <= 8640000000000000)%Z.

(** A string without a full stop. *)
Definition no_dot (s : jsstring) : Prop :=
  forallb (fun c => negb (c =? 46)%N) s = true.

End Props.


Unset Implicit Arguments.

(* ================================================================== *)
(** ** Facts about strings                                            *)
(* ================================================================== *)

Lemma str_eqb_refl (a : jsstring) : str_eqb a a = true.
Proof.
  induction a as [|c a IH]; simpl; [reflexivity|].
  now rewrite N.eqb_refl, IH.
Qed.

Lemma str_eqb_eq (a b : jsstring) : str_eqb a b = true <-> a = b.
Proof.
  split.
  - revert b; induction a as [|c a IH]; intros [|d b] H; simpl in H;
      try discriminate; [reflexivity|].
    apply andb_true_iff in H as [Hc Hr].
    apply N.eqb_eq in Hc. apply IH in Hr. now subst.
  - intros ->. apply str_eqb_refl.
Qed.

Lemma str_eqb_neq (a b : jsstring) : str_eqb a b = false <-> a <> b.
Proof.
  rewrite <- str_eqb_eq. destruct (str_eqb a b); split; congruence.
Qed.

Lemma startsWith_app (s p : jsstring) :
  startsWith s p = true <-> exists r, s = p ++ r.
Proof.
  split.
  - revert s; induction p as [|c p IH]; intros s H.
    + now exists s.
    + destruct s as [|d s]; simpl in H; [discriminate|].
      apply andb_true_iff in H as [Hc Hr].
      apply N.eqb_eq in Hc. destruct (IH _ Hr) as [r ->].
      exists r. now subst.
  - intros [r ->]. induction p as [|c p IH]; simpl; [reflexivity|].
    now rewrite N.eqb_refl.
Qed.

Lemma own_property_In {A} (obj : list (jsstring * A)) key v :
  own_property obj key = Some v -> In (key, v) obj.
Proof.
  induction obj as [|[k x] obj IH]; simpl; [discriminate|].
  destruct (str_eqb k key) eqn:E.
  - intros [= ->]. apply str_eqb_eq in E. subst. now left.
  - intros H. right. auto.
Qed.

Lemma own_property_None {A} (obj : list (jsstring * A)) key :
  own_property obj key = None <-> ~ In key (Object_keys obj).
Proof.
  unfold Object_keys.
  induction obj as [|[k x] obj IH]; simpl; [tauto|].
  destruct (str_eqb k key) eqn:E.
  - apply str_eqb_eq in E. split; [discriminate|]. intros H. tauto.
  - apply str_eqb_neq in E. rewrite IH. tauto.
Qed.

Lemma existsb_str_eqb (keys : list jsstring) key :
  existsb (fun k => str_eqb k key) keys = true <-> In key keys.
Proof.
  rewrite existsb_exists. split.
  - intros [k [Hin Hk]]. apply str_eqb_eq in Hk. now subst.
  - intros H. exists key. split; [assumption | apply str_eqb_refl].
Qed.

(* ================================================================== *)
(** ** Category rules                                                 *)
(* ================================================================== *)

Section CategoryRules.
Import Openclaw.

Lemma all_categories_complete (c : FileCategory) : In c all_categories.
Proof. destruct c; simpl; tauto. Qed.

Lemma all_categories_NoDup : NoDup all_categories.
Proof.
  unfold all_categories.
  repeat (constructor; [simpl; intuition discriminate|]). constructor.
Qed.

Lemma workspace_rule_wins (p : jsstring) :
  rule_workspace p = true -> categorizeFile p = workspace.
Proof.
  unfold rule_workspace. intros H.
  assert (Hw : exists r, p = 119%N :: r).
  { apply orb_true_iff in H as [H|H]; apply startsWith_app in H as [r ->];
      eexists; reflexivity. }
  destruct Hw as [r ->].
  unfold categorizeFile.
  replace (rule_config (119%N :: r)) with false by reflexivity.
  replace (rule_secrets (119%N :: r)) with false by reflexivity.
  unfold rule_workspace. now rewrite H.
Qed.

Lemma skills_rule_wins (p : jsstring) :
  rule_skills p = true -> categorizeFile p = skills.
Proof.
  unfold rule_skills. intros H.
  apply startsWith_app in H as [r ->].
  reflexivity.
Qed.

(** C6. [categorizeFile] is total: every path is mapped to one of the
    nine categories, which are pairwise distinct, and a path on which no
    rule fires is [other]. A path under ["workspace/"] (or
    ["workspace-"]) is [workspace] whatever follows, so
    ["workspace/skills/x/SKILL.md"] is [workspace] while
    ["skills/x/SKILL.md"] is [skills]. *)
Theorem categorizeFile_total_workspace_first :
  (forall p, In (categorizeFile p) all_categories)
  /\ NoDup all_categories
  /\ List.length all_categories = 9%nat
  /\ (forall p,
        rule_config p = false -> rule_secrets p = false ->
        rule_workspace p = false -> rule_skills p = false ->
        rule_sessions p = false -> rule_memory p = false ->
        rule_agents p = false -> rule_settings p = false ->
        categorizeFile p = other)
  /\ (forall p, rule_workspace p = true -> categorizeFile p = workspace)
  /\ (forall rest, categorizeFile (lit "workspace/" ++ rest) = workspace)
  /\ (forall p, rule_skills p = true -> categorizeFile p = skills)
  /\ categorizeFile (lit "workspace/skills/x/SKILL.md") = workspace
  /\ categorizeFile (lit "skills/x/SKILL.md") = skills.
Proof.
  split; [intros p; apply all_categories_complete|].
  split; [exact all_categories_NoDup|].
  split; [reflexivity|].
  split.
  { intros p H1 H2 H3 H4 H5 H6 H7 H8. unfold categorizeFile.
    now rewrite H1, H2, H3, H4, H5, H6, H7, H8. }
  split; [exact workspace_rule_wins|].
  split; [intros rest; reflexivity|].
  split; [exact skills_rule_wins|].
  split; reflexivity.
Qed.

End CategoryRules.

(* ================================================================== *)
(** ** Category filters of the two commands                           *)
(* ================================================================== *)

Section CategoryIncludes.
Import Openclaw.

Lemma truthy_Some_nonempty (name : jsstring) :
  name <> [] -> truthy (Some name) = true.
Proof. destruct name; [congruence | reflexivity]. Qed.

(** A name that the table does not have and that no object inherits
    ends the process, after an error that lists the keys of the table. *)
Lemma lookup_includes_unknown table (name : jsstring) (w : Env) tr :
  name <> [] ->
  ~ In name (Object_keys table) ->
  ~ In name Object_prototype_keys ->
  BackupCli.lookup_includes table (Some name) w tr
  = (Exit 1,
     tr ++ [Log LError (lit "Unknown category: " ++ name);
            Log LInfo (lit "Valid categories: "
                       ++ join (lit ", ") (Object_keys table))]).
Proof.
  intros Hne Hown Hproto.
  unfold BackupCli.lookup_includes, get_property.
  rewrite (truthy_Some_nonempty name Hne). cbn [negb BackupCli.the].
  apply own_property_None in Hown. rewrite Hown.
  destruct (existsb (fun k => str_eqb k name) Object_prototype_keys) eqn:E.
  - apply existsb_str_eqb in E. contradiction.
  - unfold bind, log, emit, process_exit. now rewrite <- app_assoc.
Qed.

(** A name of the table yields the globs stored under it. *)
Lemma lookup_includes_known table (name : jsstring) globs (w : Env) tr :
  name <> [] ->
  own_property table name = Some globs ->
  BackupCli.lookup_includes table (Some name) w tr = (Ret (Globs globs), tr).
Proof.
  intros Hne Hown.
  unfold BackupCli.lookup_includes, get_property.
  rewrite (truthy_Some_nonempty name Hne). cbn [negb BackupCli.the].
  now rewrite Hown.
Qed.

Lemma category_name_nonempty (c : FileCategory) : category_name c <> [].
Proof. destruct c; discriminate. Qed.

(** C10, as stated, fails: the backup table has no entry for [other], and
    the restore table has none for [skills]; on these names of the
    enumeration the lookup ends the process instead of returning globs. *)
Lemma getCategoryIncludes_nine_categories_cex :
  fst (BackupCli.getCategoryIncludes (Some (category_name other))
         Samples.offline_world [])
  = Exit 1
  /\ fst (RestoreCli.getCategoryIncludes (Some (category_name skills))
            Samples.offline_world [])
     = Exit 1.
Proof. split; reflexivity. Qed.

(** C10, amended. In the backup direction [getCategoryIncludes] returns
    the fixed globs of its table for the eight categories other than
    [other]; in the restore direction for the five categories [config],
    [secrets], [workspace], [sessions], [memory]. An absent or empty name
    yields no filter. Every other name, unless it names a property that
    all objects inherit, ends the process with exit code 1 after an error
    naming the category and a line enumerating the names of that
    direction's table; a name of the table never fails. *)
Theorem getCategoryIncludes_per_direction (w : Env) (tr : list Event) :
  (forall c, c <> other ->
     exists globs,
       own_property BackupCli.map (category_name c) = Some globs
       /\ BackupCli.getCategoryIncludes (Some (category_name c)) w tr
          = (Ret (Globs globs), tr))
  /\ (forall c, In c [config; secrets; workspace; sessions; memory] ->
        exists globs,
          own_property RestoreCli.map (category_name c) = Some globs
          /\ RestoreCli.getCategoryIncludes (Some (category_name c)) w tr
             = (Ret (Globs globs), tr))
  /\ BackupCli.getCategoryIncludes None w tr = (Ret NoIncludes, tr)
  /\ BackupCli.getCategoryIncludes (Some []) w tr = (Ret NoIncludes, tr)
  /\ RestoreCli.getCategoryIncludes None w tr = (Ret NoIncludes, tr)
  /\ RestoreCli.getCategoryIncludes (Some []) w tr = (Ret NoIncludes, tr)
  /\ (forall name,
        name <> [] ->
        ~ In name Object_prototype_keys ->
        ~ In name (List.map category_name
                     [config; secrets; workspace; sessions; memory;
                      skills; agents; settings]) ->
        BackupCli.getCategoryIncludes (Some name) w tr
        = (Exit 1,
           tr ++ [Log LError (lit "Unknown category: " ++ name);
                  Log LInfo (lit "Valid categories: config, secrets, workspace, sessions, memory, skills, agents, settings")]))
  /\ (forall name,
        name <> [] ->
        ~ In name Object_prototype_keys ->
        ~ In name (List.map category_name
                     [config; secrets; workspace; sessions; memory]) ->
        RestoreCli.getCategoryIncludes (Some name) w tr
        = (Exit 1,
           tr ++ [Log LError (lit "Unknown category: " ++ name);
                  Log LInfo (lit "Valid categories: config, secrets, workspace, sessions, memory")]))
  /\ (forall name code,
        fst (BackupCli.getCategoryIncludes (Some name) w tr) = Exit code ->
        ~ In name (List.map category_name
                     [config; secrets; workspace; sessions; memory;
                      skills; agents; settings]))
  /\ (forall name code,
        fst (RestoreCli.getCategoryIncludes (Some name) w tr) = Exit code ->
        ~ In name (List.map category_name
                     [config; secrets; workspace; sessions; memory])).
Proof.
  split.
  { intros c Hc. destruct c; try congruence; eexists; split; reflexivity. }
  split.
  { intros c Hc. simpl in Hc.
    destruct Hc as [<-|[<-|[<-|[<-|[<-|[]]]]]]; eexists; split; reflexivity. }
  split; [reflexivity|]. split; [reflexivity|].
  split; [reflexivity|]. split; [reflexivity|].
  split.
  { intros name Hne Hproto Hown.
    exact (lookup_includes_unknown BackupCli.map name w tr Hne Hown Hproto). }
  split.
  { intros name Hne Hproto Hown.
    exact (lookup_includes_unknown RestoreCli.map name w tr Hne Hown Hproto). }
  split.
  { intros name code H Hin. simpl in Hin.
    repeat (destruct Hin as [<-|Hin]; [discriminate H|]). exact Hin. }
  { intros name code H Hin. simpl in Hin.
    repeat (destruct Hin as [<-|Hin]; [discriminate H|]). exact Hin. }
Qed.

End CategoryIncludes.

(* ================================================================== *)
(** ** Passphrase resolution                                          *)
(* ================================================================== *)

Section Passphrase.
Import BackupCli.

Lemma truthy_the (s : option jsstring) :
  truthy s = true -> s = Some (the s).
Proof. destruct s; [reflexivity | discriminate]. Qed.

Lemma highest_priority_cons (s : option jsstring) lower :
  Spec.highest_priority (s :: lower)
  = if truthy s then Some (the s) else Spec.highest_priority lower.
Proof.
  destruct s as [v|]; simpl; [|reflexivity].
  unfold Spec.present. now destruct (truthy (Some v)).
Qed.

(** What [resolvePassphrase] does, branch by branch. *)
Lemma resolvePassphrase_cases (opts : BackupOptions) (w : Env) tr :
  resolvePassphrase opts w tr =
  if truthy (passphrase opts) then (Ret (the (passphrase opts)), tr)
  else if truthy (process_env w (lit "CLAWSTASH_PASSPHRASE"))
       then (Ret (the (process_env w (lit "CLAWSTASH_PASSPHRASE"))), tr)
  else match getKeychainPassphrase w with
       | Rejected e => (Throw e, tr ++ [KeychainRead])
       | Fulfilled fromKeychain =>
           if truthy fromKeychain
           then (Ret (the fromKeychain),
                 tr ++ [KeychainRead;
                        Log LDebug
                          (lit "Passphrase loaded from system keychain")])
           else (Exit 1, tr ++ Spec.no_passphrase_events)
       end.
Proof.
  unfold resolvePassphrase.
  destruct (truthy (passphrase opts)); [reflexivity|].
  unfold bind at 1. unfold asks at 1.
  destruct (truthy (process_env w (lit "CLAWSTASH_PASSPHRASE")));
    [reflexivity|].
  unfold bind at 1. unfold emit at 1.
  unfold bind at 1. unfold bind at 1. unfold asks at 1.
  destruct (getKeychainPassphrase w) as [fromKeychain|e]; [|reflexivity].
  unfold await, ret.
  destruct (truthy fromKeychain).
  - unfold bind, log, emit, ret. now rewrite <- app_assoc.
  - unfold remediation_lines, fold_right, bind, log, emit, ret, process_exit.
    unfold Spec.no_passphrase_events.
    now rewrite <- !app_assoc.
Qed.

(** C4, as stated, fails: on a platform that [getPlatform] does not
    support, the lookup of the keychain raises before its [try], and
    with no override and no environment variable [resolvePassphrase]
    ends with that error instead of naming the three remedies and
    exiting. *)
Lemma resolvePassphrase_unsupported_platform_cex :
  Keychain.getPassphrase Cases.on_freebsd
  = Rejected (Error (lit "Unsupported platform: freebsd"))
  /\ Spec.highest_priority
       (Spec.passphrase_chain (mkBackupOptions None None None None)
          (Cases.with_secrets (Keychain.getPassphrase Cases.on_freebsd)
             (fun _ => None)))
     = None
  /\ resolvePassphrase (mkBackupOptions None None None None)
       (Cases.with_secrets (Keychain.getPassphrase Cases.on_freebsd)
          (fun _ => None)) []
     = (Throw (Error (lit "Unsupported platform: freebsd")), [KeychainRead])
  /\ resolvePassphrase (mkBackupOptions None None None None)
       (Cases.with_secrets (Keychain.getPassphrase Cases.on_freebsd)
          (fun _ => None)) []
     <> (Exit 1, [] ++ Spec.no_passphrase_events).
Proof.
  split; [reflexivity|]. split; [reflexivity|]. split; [reflexivity|].
  discriminate.
Qed.

(** C4, amended. [resolvePassphrase] returns the value of the
    highest-priority present source among the explicit override, the
    environment variable [CLAWSTASH_PASSPHRASE] and the keychain,
    whatever the lower-priority sources hold; the keychain is read at
    most once, and not at all when a higher source is present; when no
    source is present and the lookup of the keychain answers, the
    process exits with code 1 after messages that name the three
    remedies ([clawstash setup], the environment variable, the
    [--passphrase] flag). *)
Theorem resolvePassphrase_precedence (opts : BackupOptions) (w : Env) tr :
  (forall v, Spec.highest_priority (Spec.passphrase_chain opts w) = Some v ->
             fst (resolvePassphrase opts w tr) = Ret v)
  /\ (Spec.keychain_answers w ->
      Spec.highest_priority (Spec.passphrase_chain opts w) = None ->
      resolvePassphrase opts w tr = (Exit 1, tr ++ Spec.no_passphrase_events))
  /\ (Spec.present (passphrase opts) = true ->
      resolvePassphrase opts w tr = (Ret (the (passphrase opts)), tr))
  /\ (Spec.present (passphrase opts) = false ->
      Spec.present (process_env w (lit "CLAWSTASH_PASSPHRASE")) = true ->
      resolvePassphrase opts w tr
      = (Ret (the (process_env w (lit "CLAWSTASH_PASSPHRASE"))), tr))
  /\ (exists events,
        snd (resolvePassphrase opts w tr) = tr ++ events
        /\ (Spec.keychain_reads events <= 1)%nat
        /\ (Spec.keychain_reads events = 1%nat <->
            Spec.present (passphrase opts) = false
            /\ Spec.present (process_env w (lit "CLAWSTASH_PASSPHRASE"))
               = false))
  /\ (existsb (fun e => match e with
                        | Log LInfo m => includes m (lit "clawstash setup")
                        | _ => false
                        end) Spec.no_passphrase_events = true
      /\ existsb (fun e => match e with
                           | Log LInfo m =>
                               includes m (lit "CLAWSTASH_PASSPHRASE")
                           | _ => false
                           end) Spec.no_passphrase_events = true
      /\ existsb (fun e => match e with
                           | Log LInfo m => includes m (lit "--passphrase")
                           | _ => false
                           end) Spec.no_passphrase_events = true).
Proof.
  rewrite resolvePassphrase_cases.
  unfold Spec.passphrase_chain, Spec.present, Spec.keychain_answers,
    Spec.keychain_value.
  rewrite !highest_priority_cons. simpl Spec.highest_priority.
  assert (Hmsg : forall needle,
            In needle [lit "clawstash setup"; lit "CLAWSTASH_PASSPHRASE";
                       lit "--passphrase"] ->
            existsb (fun e => match e with
                              | Log LInfo m => includes m needle
                              | _ => false
                              end) Spec.no_passphrase_events = true).
  { intros needle [<-|[<-|[<-|[]]]]; reflexivity. }
  destruct (truthy (passphrase opts)) eqn:E1;
    [|destruct (truthy (process_env w (lit "CLAWSTASH_PASSPHRASE"))) eqn:E2;
      [|destruct (getKeychainPassphrase w) as [fromKeychain|e] eqn:E4;
        [destruct (truthy fromKeychain) eqn:E3|]]].
  - split; [intros v [= <-]; reflexivity|].
    split; [discriminate|]. split; [reflexivity|]. split; [discriminate|].
    split; [|repeat split; apply Hmsg; simpl; tauto].
    exists []. rewrite app_nil_r. unfold Spec.keychain_reads. simpl.
    split; [reflexivity|]. split; [lia|].
    split; [discriminate | intros [H _]; discriminate H].
  - split; [intros v [= <-]; reflexivity|].
    split; [discriminate|]. split; [discriminate|]. split; [reflexivity|].
    split; [|repeat split; apply Hmsg; simpl; tauto].
    exists []. rewrite app_nil_r. unfold Spec.keychain_reads. simpl.
    split; [reflexivity|]. split; [lia|].
    split; [discriminate | intros [_ H]; discriminate H].
  - split; [intros v [= <-]; reflexivity|].
    split; [discriminate|]. split; [discriminate|]. split; [discriminate|].
    split; [|repeat split; apply Hmsg; simpl; tauto].
    eexists. split; [reflexivity|]. unfold Spec.keychain_reads. simpl.
    split; [lia|]. tauto.
  - split; [discriminate|].
    split; [reflexivity|]. split; [discriminate|]. split; [discriminate|].
    split; [|repeat split; apply Hmsg; simpl; tauto].
    eexists. split; [reflexivity|]. unfold Spec.keychain_reads. simpl.
    split; [lia|]. tauto.
  - split; [discriminate|].
    split; [intros [answer H]; discriminate H|].
    split; [discriminate|]. split; [discriminate|].
    split; [|repeat split; apply Hmsg; simpl; tauto].
    eexists. split; [reflexivity|]. unfold Spec.keychain_reads. simpl.
    split; [lia|]. tauto.
Qed.

End Passphrase.

(* ================================================================== *)
(** ** Request signing                                                *)
(* ================================================================== *)

Section Signing.
Context {RT : Runtime}.
Import S3.

Lemma signRequest_trace (o : SignOpts) (w : Env) tr :
  snd (signRequest o w tr) = tr.
Proof.
  unfold signRequest. destruct (URL_new (sr_path o) (sr_endpoint o));
    reflexivity.
Qed.

Lemma signRequest_any_trace (o : SignOpts) (w : Env) tr tr' :
  fst (signRequest o w tr) = fst (signRequest o w tr').
Proof.
  unfold signRequest. destruct (URL_new (sr_path o) (sr_endpoint o));
    reflexivity.
Qed.

Lemma signRequest_never_exits (o : SignOpts) (w : Env) tr code :
  fst (signRequest o w tr) <> Exit code.
Proof.
  unfold signRequest. destruct (URL_new (sr_path o) (sr_endpoint o));
    discriminate.
Qed.

(** [signRequest] in terms of [Spec.signed]. *)
Lemma signRequest_signed (o : SignOpts) (w : Env) tr :
  signRequest o w tr =
  match Spec.signed o w with
  | Some sr => (Ret sr, tr)
  | None => (Throw (TypeError (lit "Invalid URL")), tr)
  end.
Proof.
  unfold Spec.signed, signRequest.
  destruct (URL_new (sr_path o) (sr_endpoint o)); reflexivity.
Qed.

Lemma signed_iff_URL (o : SignOpts) (w : Env) :
  (exists sr, Spec.signed o w = Some sr)
  <-> (exists u, URL_new (sr_path o) (sr_endpoint o) = Some u).
Proof.
  unfold Spec.signed, signRequest.
  destruct (URL_new (sr_path o) (sr_endpoint o)) as [u|]; simpl.
  - split; intros _; eexists; reflexivity.
  - split; intros [x H]; discriminate.
Qed.

(** C5. With the same options and the same clock reading, two runs of
    [signRequest] in worlds that may differ in everything else return
    the same result: the same URL and the same headers, or the same
    exception. A run that succeeds leaves no trace and returns the four
    headers [Host], [x-amz-date], [x-amz-content-sha256] and
    [Authorization], the last made of the access key, the credential
    scope, the signed-header list and the signature. *)
Theorem signRequest_deterministic (o : SignOpts) (w1 w2 : Env) tr1 tr2 :
  Date_now w1 = Date_now w2 ->
  fst (signRequest o w1 tr1) = fst (signRequest o w2 tr2)
  /\ snd (signRequest o w1 tr1) = tr1
  /\ snd (signRequest o w2 tr2) = tr2
  /\ (forall sr, fst (signRequest o w1 tr1) = Ret sr ->
        exists host amzDate payloadHash scope signature,
          headers sr
          = [(lit "Host", host); (lit "x-amz-date", amzDate);
             (lit "x-amz-content-sha256", payloadHash);
             (lit "Authorization",
              lit "AWS4-HMAC-SHA256 Credential=" ++ sr_accessKeyId o
              ++ lit "/" ++ scope
              ++ lit ", SignedHeaders=host;x-amz-content-sha256;x-amz-date"
              ++ lit ", Signature=" ++ signature)]
          /\ scope = slice0 amzDate 8 ++ lit "/" ++ sr_region o
                     ++ lit "/s3/aws4_request"
          /\ amzDate = remove_fraction
                         (remove_dashes_colons
                            (Date_toISOString (Date_now w2)))).
Proof.
  intros Hclock.
  split; [|split; [apply signRequest_trace|split; [apply signRequest_trace|]]].
  - unfold signRequest.
    destruct (URL_new (sr_path o) (sr_endpoint o)); [|reflexivity].
    unfold bind, asks, ret. simpl. now rewrite Hclock.
  - intros sr. unfold signRequest.
    destruct (URL_new (sr_path o) (sr_endpoint o)) as [u|]; [|discriminate].
    unfold bind, asks, ret. simpl. rewrite Hclock. intros [= <-]. simpl.
    do 5 eexists. split; [|split]; reflexivity.
Qed.

End Signing.

(** The statement above at concrete worlds: the offline world and one
    that answers every request, which share the clock. *)
Lemma signRequest_deterministic_witness :
  fst (@S3.signRequest Samples.plain_runtime
         (Spec.bucket_opts (lit "HEAD") Samples.sample_storage
            (lit "https://abc.r2.cloudflarestorage.com"))
         Samples.offline_world [])
  = fst (@S3.signRequest Samples.plain_runtime
           (Spec.bucket_opts (lit "HEAD") Samples.sample_storage
              (lit "https://abc.r2.cloudflarestorage.com"))
           (Samples.answering Samples.owned_500) [KeychainRead]).
Proof.
  exact (proj1 (@signRequest_deterministic Samples.plain_runtime
                  (Spec.bucket_opts (lit "HEAD") Samples.sample_storage
                     (lit "https://abc.r2.cloudflarestorage.com"))
                  Samples.offline_world
                  (Samples.answering Samples.owned_500) [] [KeychainRead]
                  eq_refl)).
Defined.


(* ================================================================== *)
(** ** Bucket operations                                              *)
(* ================================================================== *)

Section Buckets.
Context {RT : Runtime}.
Import S3.

Lemma requests_app (a b : list Event) :
  Spec.requests (a ++ b) = Spec.requests a ++ Spec.requests b.
Proof.
  induction a as [|e a IH]; simpl; [reflexivity|].
  destruct e; simpl; now rewrite ?IH.
Qed.

(** Deriving the endpoint and signing, the part of [bucketExists] and
    [createBucket] that runs before any request is sent. *)
Lemma bucket_request_cases verb (st : StorageConfig) (w : Env) tr :
  bucket_request verb st w tr =
  match Config.getStorageEndpoint st with
  | Rejected e => (Throw e, tr)
  | Fulfilled ep =>
      match Spec.signed (Spec.bucket_opts verb st ep) w with
      | Some sr => (Ret sr, tr)
      | None => (Throw (TypeError (lit "Invalid URL")), tr)
      end
  end.
Proof.
  unfold bucket_request, bind, await.
  destruct (Config.getStorageEndpoint st) as [ep|e]; [|reflexivity].
  unfold ret at 1. apply signRequest_signed.
Qed.

(** [bucketExists] once the request is signed. *)
Lemma bucketExists_signed (st : StorageConfig) (w : Env) tr ep sr :
  Config.getStorageEndpoint st = Fulfilled ep ->
  Spec.signed (Spec.bucket_opts (lit "HEAD") st ep) w = Some sr ->
  bucketExists st w tr =
  match fetch w (mkRequest (url sr) (lit "HEAD") (headers sr) None) with
  | Fulfilled res =>
      (Ret (status res =? 200)%Z,
       tr ++ [Fetch (mkRequest (url sr) (lit "HEAD") (headers sr) None);
              Log LDebug (lit "HEAD /" ++ bucket st ++ lit ": "
                          ++ Number_toString (status res))])
  | Rejected e =>
      (Ret false,
       tr ++ [Fetch (mkRequest (url sr) (lit "HEAD") (headers sr) None);
              Log LDebug (lit "HEAD bucket failed: " ++ String_of_exn e)])
  end.
Proof.
  intros Hep Hsr. unfold bucketExists.
  unfold bind at 1. rewrite bucket_request_cases, Hep, Hsr.
  unfold try_catch, do_fetch, bind, emit, asks, await, log, ret, throw.
  destruct (fetch w _) as [res|e]; simpl; now rewrite <- app_assoc.
Qed.

(** C7, as stated, fails: on a target for which no endpoint can be
    derived (MinIO without a custom endpoint) the call raises. *)
Lemma bucketExists_never_raises_cex :
  @bucketExists Samples.plain_runtime Samples.minio_without_endpoint
    Samples.offline_world []
  = (Throw (Error (lit "MinIO requires a custom endpoint")), []).
Proof. reflexivity. Qed.

(** C7, amended. When the endpoint of the target can be derived and the
    request signed, [bucketExists] sends one signed [HEAD /{bucket}] and
    returns without raising: [true] exactly when the answer has status
    200, [false] for every other status and for every failure of the
    request itself. *)
Theorem bucketExists_true_iff_200 (st : StorageConfig) (w : Env) tr ep sr :
  Config.getStorageEndpoint st = Fulfilled ep ->
  Spec.signed (Spec.bucket_opts (lit "HEAD") st ep) w = Some sr ->
  exists b line,
    bucketExists st w tr
    = (Ret b,
       tr ++ [Fetch (mkRequest (url sr) (lit "HEAD") (headers sr) None);
              Log LDebug line])
    /\ (b = true <->
        exists res,
          fetch w (mkRequest (url sr) (lit "HEAD") (headers sr) None)
          = Fulfilled res
          /\ status res = 200%Z)
    /\ (forall res,
          fetch w (mkRequest (url sr) (lit "HEAD") (headers sr) None)
          = Fulfilled res ->
          status res <> 200%Z -> b = false)
    /\ (forall e,
          fetch w (mkRequest (url sr) (lit "HEAD") (headers sr) None)
          = Rejected e ->
          b = false).
Proof.
  intros Hep Hsr. rewrite (bucketExists_signed st w tr ep sr Hep Hsr).
  destruct (fetch w _) as [res|e]; do 2 eexists;
    (split; [reflexivity|]).
  - split; [|split].
    + rewrite Z.eqb_eq. split.
      * intros H. now exists res.
      * intros [res' [[= <-] H]]. exact H.
    + intros res' [= <-] Hne. now apply Z.eqb_neq.
    + discriminate.
  - split; [|split].
    + split; [discriminate | intros [res [H _]]; discriminate H].
    + discriminate.
    + reflexivity.
Qed.

(** What is left out of the amended C7: without an endpoint, or with an
    endpoint that is no URL, the call raises before any request. *)
Lemma bucketExists_raises_unsigned (st : StorageConfig) (w : Env) tr :
  (forall e, Config.getStorageEndpoint st = Rejected e ->
             bucketExists st w tr = (Throw e, tr))
  /\ (forall ep, Config.getStorageEndpoint st = Fulfilled ep ->
                 Spec.signed (Spec.bucket_opts (lit "HEAD") st ep) w = None ->
                 bucketExists st w tr
                 = (Throw (TypeError (lit "Invalid URL")), tr)).
Proof.
  split.
  - intros e He. unfold bucketExists, bind at 1.
    now rewrite bucket_request_cases, He.
  - intros ep Hep Hsr. unfold bucketExists, bind at 1.
    now rewrite bucket_request_cases, Hep, Hsr.
Qed.

(** [createBucket] once the request is signed and answered. *)
Lemma createBucket_answered (st : StorageConfig) (w : Env) tr ep sr res :
  Config.getStorageEndpoint st = Fulfilled ep ->
  Spec.signed (Spec.bucket_opts (lit "PUT") st ep) w = Some sr ->
  fetch w (mkRequest (url sr) (lit "PUT") (headers sr) None)
  = Fulfilled res ->
  exists line,
    createBucket st w tr
    = (if ((status res =? 200) || (status res =? 201))%Z then Ret true
       else if (status res =? 409)%Z then Ret false
       else if includes (text res) owned_marker then Ret false
       else Throw (Error (lit "Failed to create bucket " ++ dquote
                          ++ bucket st ++ dquote ++ lit ": "
                          ++ Number_toString (status res)
                          ++ lit " " ++ em_dash ++ lit " " ++ text res)),
       tr ++ [Fetch (mkRequest (url sr) (lit "PUT") (headers sr) None);
              Log LDebug line]).
Proof.
  intros Hep Hsr Hres. unfold createBucket.
  unfold bind at 1. rewrite bucket_request_cases, Hep, Hsr.
  unfold bind at 1. unfold do_fetch.
  unfold bind at 1. unfold emit at 1. unfold bind at 1. unfold asks at 1.
  rewrite Hres. unfold await, ret at 1.
  destruct ((status res =? 200) || (status res =? 201))%Z.
  { eexists. unfold bind, log, emit, ret. now rewrite <- app_assoc. }
  destruct (status res =? 409)%Z.
  { eexists. unfold bind, log, emit, ret. now rewrite <- app_assoc. }
  unfold bind, log, emit.
  destruct (includes (text res) owned_marker); eexists;
    unfold ret, throw; now rewrite <- app_assoc.
Qed.

(** C3, as stated, fails: a response that is not a 4xx (here a 500)
    whose body carries the marker is classified as "already owned", not
    as an error. *)
Lemma createBucket_other_status_cex :
  fst (@createBucket Samples.plain_runtime Samples.sample_storage
         (Samples.answering Samples.owned_500) [])
  = Ret false.
Proof. reflexivity. Qed.

(** C3, amended. When the signed [PUT /{bucket}] is answered,
    [createBucket] returns [true] ("created") exactly when the status is
    200 or 201; it returns [false] ("already owned") when the status is
    409, or when the status is none of 200, 201, 409 and the body
    contains [BucketAlreadyOwnedByYou], whatever the status class; in
    every remaining case it throws an error whose message carries the
    status code and the body. *)
Theorem createBucket_classification
  (st : StorageConfig) (w : Env) tr ep sr res :
  Config.getStorageEndpoint st = Fulfilled ep ->
  Spec.signed (Spec.bucket_opts (lit "PUT") st ep) w = Some sr ->
  fetch w (mkRequest (url sr) (lit "PUT") (headers sr) None)
  = Fulfilled res ->
  (fst (createBucket st w tr) = Ret true
   <-> status res = 200%Z \/ status res = 201%Z)
  /\ (status res = 409%Z -> fst (createBucket st w tr) = Ret false)
  /\ (status res <> 200%Z -> status res <> 201%Z -> status res <> 409%Z ->
      includes (text res) owned_marker = true ->
      fst (createBucket st w tr) = Ret false)
  /\ (status res <> 200%Z -> status res <> 201%Z -> status res <> 409%Z ->
      includes (text res) owned_marker = false ->
      fst (createBucket st w tr)
      = Throw (Error (lit "Failed to create bucket " ++ dquote
                      ++ bucket st ++ dquote ++ lit ": "
                      ++ Number_toString (status res)
                      ++ lit " " ++ em_dash ++ lit " " ++ text res)))
  /\ Spec.requests (snd (createBucket st w tr))
     = Spec.requests tr
       ++ [mkRequest (url sr) (lit "PUT") (headers sr) None].
Proof.
  intros Hep Hsr Hres.
  destruct (createBucket_answered st w tr ep sr res Hep Hsr Hres) as [line ->].
  cbn [fst snd]. rewrite requests_app. cbn [Spec.requests].
  destruct (status res =? 200)%Z eqn:E200;
    [apply Z.eqb_eq in E200 | apply Z.eqb_neq in E200];
  (destruct (status res =? 201)%Z eqn:E201;
    [apply Z.eqb_eq in E201 | apply Z.eqb_neq in E201]);
  (destruct (status res =? 409)%Z eqn:E409;
    [apply Z.eqb_eq in E409 | apply Z.eqb_neq in E409]);
  cbn [orb]; try lia.
  all: destruct (includes (text res) owned_marker) eqn:Einc.
  all: repeat split; intros; try reflexivity; try congruence;
    try tauto; try lia; try discriminate.
  all: try (destruct H; congruence).
Qed.

End Buckets.

(** The amended C7 at a concrete target and world: the sample R2 target
    in the offline world, where the request is signed and then fails on
    the network. *)
Lemma bucketExists_true_iff_200_witness :
  exists sr,
    Config.getStorageEndpoint Samples.sample_storage
    = Fulfilled (lit "https://abc.r2.cloudflarestorage.com")
    /\ @Spec.signed Samples.plain_runtime
         (Spec.bucket_opts (lit "HEAD") Samples.sample_storage
            (lit "https://abc.r2.cloudflarestorage.com"))
         Samples.offline_world
       = Some sr
    /\ exists b line,
         @S3.bucketExists Samples.plain_runtime Samples.sample_storage
           Samples.offline_world []
         = (Ret b,
            [] ++ [Fetch (mkRequest (S3.url sr) (lit "HEAD")
                            (S3.headers sr) None);
                   Log LDebug line]).
Proof.
  eexists. split; [reflexivity|]. split; [vm_compute; reflexivity|].
  destruct (@bucketExists_true_iff_200 Samples.plain_runtime
              Samples.sample_storage Samples.offline_world [] _ _
              eq_refl eq_refl) as [b [line [H _]]].
  exists b, line. exact H.
Defined.

(** The amended C3 at a concrete target and world: the sample R2 target
    where every request is answered with a 500 that carries the marker. *)
Lemma createBucket_classification_witness :
  exists sr,
    @Spec.signed Samples.plain_runtime
      (Spec.bucket_opts (lit "PUT") Samples.sample_storage
         (lit "https://abc.r2.cloudflarestorage.com"))
      (Samples.answering Samples.owned_500)
    = Some sr
    /\ fetch (Samples.answering Samples.owned_500)
         (mkRequest (S3.url sr) (lit "PUT") (S3.headers sr) None)
       = Fulfilled Samples.owned_500
    /\ (fst (@S3.createBucket Samples.plain_runtime Samples.sample_storage
               (Samples.answering Samples.owned_500) [])
        = Ret true
        <-> status Samples.owned_500 = 200%Z
            \/ status Samples.owned_500 = 201%Z).
Proof.
  eexists. split; [vm_compute; reflexivity|]. split; [reflexivity|].
  exact (proj1 (@createBucket_classification Samples.plain_runtime
                  Samples.sample_storage
                  (Samples.answering Samples.owned_500) []
                  (lit "https://abc.r2.cloudflarestorage.com") _
                  Samples.owned_500 eq_refl eq_refl eq_refl)).
Defined.

(* ================================================================== *)
(** ** Jurisdiction detection                                         *)
(* ================================================================== *)

Section Jurisdiction.
Context {RT : Runtime}.
Import S3.

(** One probe: it never raises, it reports its candidate exactly when
    the candidate is answered with 200, and it sends at most the one
    request of its candidate. *)
Lemma probe_spec (account keyId secret jur : jsstring) (w : Env) tr :
  exists events,
    probe account keyId secret jur w tr
    = (Ret (if Spec.answers_200 account keyId secret w jur
            then Some jur else None),
       tr ++ events)
    /\ Spec.requests events
       = match Spec.probe_request account keyId secret w jur with
         | Some req => [req]
         | None => []
         end.
Proof.
  unfold probe, Spec.answers_200, Spec.probe_request.
  unfold try_catch. unfold bind at 1. rewrite signRequest_signed.
  destruct (Spec.signed _ w) as [sr|].
  - unfold do_fetch, bind, emit, asks, await, log, ret, throw.
    destruct (fetch w _) as [res|e]; simpl.
    + eexists. rewrite <- app_assoc. split; reflexivity.
    + eexists. rewrite <- app_assoc. split; reflexivity.
  - unfold bind, log, emit, ret. eexists. split; reflexivity.
Qed.

(** The loop over any candidate list. *)
Lemma probe_all_spec (account keyId secret : jsstring) (w : Env)
  (candidates : list jsstring) :
  forall tr,
  exists events,
    probe_all account keyId secret candidates w tr
    = (Ret (Spec.first_authoritative account keyId secret w candidates),
       tr ++ events)
    /\ Spec.requests events
       = Spec.probes_sent account keyId secret w candidates.
Proof.
  induction candidates as [|jur rest IH]; intros tr.
  - exists []. rewrite app_nil_r. split; reflexivity.
  - cbn [probe_all]. unfold bind.
    destruct (probe_spec account keyId secret jur w tr) as [ev [-> Hev]].
    unfold Spec.first_authoritative. cbn [find Spec.probes_sent].
    destruct (Spec.answers_200 account keyId secret w jur).
    + exists ev. rewrite app_nil_r. split; [reflexivity | exact Hev].
    + destruct (IH (tr ++ ev)) as [ev' [-> Hev']].
      exists (ev ++ ev'). rewrite app_assoc. split; [reflexivity|].
      now rewrite requests_app, Hev, Hev'.
Qed.

(** C9. [detectR2Jurisdiction] probes the candidates [""] and ["eu"] in
    this order with a signed [GET /], stops at the first one answered
    with HTTP 200 and returns its jurisdiction; when none is, whether
    for another status, a network failure or a request that cannot be
    signed, it returns the empty string. It always returns. *)
Theorem detectR2Jurisdiction_first_200
  (account keyId secret : jsstring) (w : Env) tr :
  jurisdictions = [lit ""; lit "eu"]
  /\ exists r events,
       detectR2Jurisdiction account keyId secret w tr
       = (Ret r, tr ++ events)
       /\ r = Spec.first_authoritative account keyId secret w
                [lit ""; lit "eu"]
       /\ Spec.requests events
          = Spec.probes_sent account keyId secret w [lit ""; lit "eu"]
       /\ (Spec.answers_200 account keyId secret w (lit "") = true ->
           r = lit ""
           /\ Spec.requests events
              = match Spec.probe_request account keyId secret w (lit "")
                with Some req => [req] | None => [] end)
       /\ (Spec.answers_200 account keyId secret w (lit "") = false ->
           Spec.requests events
           = match Spec.probe_request account keyId secret w (lit "")
             with Some req => [req] | None => [] end
             ++ match Spec.probe_request account keyId secret w (lit "eu")
                with Some req => [req] | None => [] end)
       /\ (Spec.answers_200 account keyId secret w (lit "") = false ->
           Spec.answers_200 account keyId secret w (lit "eu") = true ->
           r = lit "eu")
       /\ (Spec.answers_200 account keyId secret w (lit "") = false ->
           Spec.answers_200 account keyId secret w (lit "eu") = false ->
           r = lit "").
Proof.
  split; [reflexivity|].
  destruct (probe_all_spec account keyId secret w jurisdictions tr)
    as [events [H Hreq]].
  exists (Spec.first_authoritative account keyId secret w jurisdictions),
         events.
  split; [exact H|]. split; [reflexivity|]. split; [exact Hreq|].
  rewrite Hreq.
  unfold Spec.first_authoritative, jurisdictions.
  cbn [find Spec.probes_sent].
  split; [|split; [|split]].
  - intros ->. split; [reflexivity | now rewrite app_nil_r].
  - intros ->.
    destruct (Spec.answers_200 account keyId secret w (lit "eu"));
      now rewrite app_nil_r.
  - intros -> ->. reflexivity.
  - intros -> ->. reflexivity.
Qed.

End Jurisdiction.

(* ================================================================== *)
(** ** Parsing the output of a backup run                             *)
(* ================================================================== *)

Section BackupOutput.
Context {RT : Runtime}.
Import Restic.

Lemma message_type_is_summary_iff (parsed : json) :
  message_type_is_summary parsed = Some true <-> Spec.is_summary parsed.
Proof.
  unfold Spec.is_summary. split.
  - destruct parsed as [| | | | |fields]; simpl; try discriminate.
    destruct (own_property fields (lit "message_type")) as [[| | |s| |]|] eqn:E;
      try discriminate.
    intros [= H]. apply str_eqb_eq in H. subst s. now exists fields.
  - intros [fields [-> H]]. simpl. rewrite H. now rewrite str_eqb_refl.
Qed.

Lemma summary_of_line_Some (line : jsstring) (parsed : json) :
  summary_of_line line = Some parsed
  <-> JSON_parse line = Some parsed /\ Spec.is_summary parsed.
Proof.
  unfold summary_of_line. rewrite <- message_type_is_summary_iff.
  destruct (JSON_parse line) as [v|]; [|split; [discriminate|intros [H _]; discriminate H]].
  destruct (message_type_is_summary v) as [[|]|] eqn:E.
  - split.
    + intros [= <-]. now split.
    + intros [[= <-] _]. reflexivity.
  - split; [discriminate|]. intros [[= <-] H]. congruence.
  - split; [discriminate|]. intros [[= <-] H]. congruence.
Qed.

Lemma summary_of_line_None (line : jsstring) :
  summary_of_line line = None <-> ~ Spec.qualifies line.
Proof.
  unfold Spec.qualifies. split.
  - intros H [parsed Hp]. apply summary_of_line_Some in Hp. congruence.
  - intros H. destruct (summary_of_line line) as [parsed|] eqn:E;
      [|reflexivity].
    exfalso. apply H. exists parsed. now apply summary_of_line_Some.
Qed.

(** Lines that do not qualify are passed over. *)
Lemma scan_backwards_skip (skipped rest : list jsstring) :
  Forall (fun l => ~ Spec.qualifies l) skipped ->
  scan_backwards (skipped ++ rest) = scan_backwards rest.
Proof.
  induction 1 as [|l skipped Hl _ IH]; [reflexivity|].
  simpl. apply summary_of_line_None in Hl. now rewrite Hl.
Qed.

Lemma scan_backwards_none (lines : list jsstring) :
  Forall (fun l => ~ Spec.qualifies l) lines ->
  scan_backwards lines = None.
Proof.
  intros H. rewrite <- (app_nil_r lines). now rewrite scan_backwards_skip.
Qed.

(** The loop returns the parse of the last qualifying line. *)
Lemma scan_backwards_last (before after : list jsstring) line parsed :
  JSON_parse line = Some parsed ->
  Spec.is_summary parsed ->
  Forall (fun l => ~ Spec.qualifies l) after ->
  scan_backwards (rev (before ++ line :: after)) = Some parsed.
Proof.
  intros Hp Hs Hafter.
  rewrite rev_app_distr. simpl. rewrite <- app_assoc.
  rewrite scan_backwards_skip by now apply Forall_rev.
  simpl. assert (H : summary_of_line line = Some parsed)
    by now apply summary_of_line_Some.
  now rewrite H.
Qed.

(** One engine run that ends well hands its standard output on. *)
Lemma runResticRaw_ok (args : list jsstring) (opts : ResticOptions)
  (timeout : Z) (w : Env) tr ep output stderr :
  Config.getStorageEndpoint (ro_storage opts) = Fulfilled ep ->
  (forall a e, execFile w (getResticBinaryPath w) a e timeout
               = Fulfilled (output, stderr)) ->
  exists events, runResticRaw args opts timeout w tr = (Ret output, tr ++ events).
Proof.
  intros Hep Hrun. unfold runResticRaw, buildEnv, Config.getResticRepoUrl.
  rewrite Hep.
  unfold bind, asks, await, ret, log, emit. rewrite Hrun. simpl.
  destruct (truthy_str stderr); eexists; rewrite <- !app_assoc; reflexivity.
Qed.

(** [backup] after a run of the engine that ends well. *)
Lemma backup_after_run (sourceDir : jsstring) (opts : ResticOptions)
  (options : option BackupCallOptions) (w : Env) tr ep output stderr :
  (forall o name, options = Some o -> bo_includes o <> PrototypeMember name) ->
  Config.getStorageEndpoint (ro_storage opts) = Fulfilled ep ->
  (forall a e, execFile w (getResticBinaryPath w) a e 600000
               = Fulfilled (output, stderr)) ->
  fst (backup sourceDir opts options w tr)
  = match scan_backwards (rev (split 10 (trim output))) with
    | Some parsed => Ret parsed
    | None => Throw (Error (lit "No backup summary found in restic output"))
    end.
Proof.
  intros Hinc Hep Hrun. unfold backup.
  set (includeArgs := match options with Some _ => _ | None => _ end).
  assert (Hargs : exists l, forall tr0, includeArgs w tr0 = (Ret l, tr0)).
  { subst includeArgs. destruct options as [o|]; [|now eexists].
    destruct (bo_includes o) eqn:E; try (now eexists).
    exfalso. now apply (Hinc o name). }
  destruct Hargs as [l Hl]. unfold bind at 1. rewrite Hl.
  unfold bind at 1.
  match goal with
  | |- context [runResticRaw ?a opts 600000 w tr] =>
      destruct (runResticRaw_ok a opts 600000 w tr ep output stderr Hep Hrun)
        as [events ->]
  end.
  destruct (scan_backwards _); reflexivity.
Qed.

(** C1. When the engine run ends well with standard output [output],
    [backup] splits the trimmed output at line feeds and returns the
    parsed value of the last line that parses as JSON and carries
    [message_type === "summary"]: the lines after it do not qualify,
    and the lines before it, progress lines or not, are not looked at.
    When no line qualifies it throws the error "No backup summary found
    in restic output" and returns nothing. *)
Theorem backup_returns_last_summary (sourceDir : jsstring)
  (opts : ResticOptions) (options : option BackupCallOptions)
  (w : Env) tr ep output stderr :
  (forall o name, options = Some o -> bo_includes o <> PrototypeMember name) ->
  Config.getStorageEndpoint (ro_storage opts) = Fulfilled ep ->
  (forall a e, execFile w (getResticBinaryPath w) a e 600000
               = Fulfilled (output, stderr)) ->
  (forall before line after parsed,
     split 10 (trim output) = before ++ line :: after ->
     JSON_parse line = Some parsed ->
     Spec.is_summary parsed ->
     Forall (fun l => ~ Spec.qualifies l) after ->
     fst (backup sourceDir opts options w tr) = Ret parsed)
  /\ (Forall (fun l => ~ Spec.qualifies l) (split 10 (trim output)) ->
      fst (backup sourceDir opts options w tr)
      = Throw (Error (lit "No backup summary found in restic output")))
  /\ (forall parsed,
        fst (backup sourceDir opts options w tr) = Ret parsed ->
        exists before line after,
          split 10 (trim output) = before ++ line :: after
          /\ JSON_parse line = Some parsed
          /\ Spec.is_summary parsed
          /\ Forall (fun l => ~ Spec.qualifies l) after).
Proof.
  intros Hinc Hep Hrun.
  rewrite (backup_after_run sourceDir opts options w tr ep output stderr
             Hinc Hep Hrun).
  split; [|split].
  - intros before line after parsed Hlines Hp Hs Hafter.
    rewrite Hlines.
    now rewrite (scan_backwards_last before after line parsed Hp Hs Hafter).
  - intros Hnone. rewrite scan_backwards_none; [reflexivity|].
    now apply Forall_rev.
  - intros parsed.
    generalize (split 10 (trim output)). intros lines.
    induction lines as [|l lines IH] using rev_ind.
    + simpl. discriminate.
    + rewrite rev_app_distr. simpl.
      destruct (summary_of_line l) as [v|] eqn:E.
      * intros [= <-]. apply summary_of_line_Some in E as [Hp Hs].
        exists lines, l, []. repeat split; trivial.
      * intros H. destruct (IH H) as [before [line [after [-> [Hp [Hs Ha]]]]]].
        exists before, line, (after ++ [l]).
        rewrite <- app_assoc. repeat split; trivial.
        apply Forall_app. split; [exact Ha|].
        constructor; [|constructor]. now apply summary_of_line_None.
Qed.

End BackupOutput.

(** C1 at a concrete run: the engine prints a progress record, a summary
    record and a line that is not JSON; the summary record is the
    result. *)
Lemma backup_returns_last_summary_witness :
  fst (@Restic.backup Samples.plain_runtime (lit "/home/user/.openclaw")
         (mkResticOptions Samples.sample_storage (lit "pass")) None
         (Samples.printing
            (Spec.newline_delimited
               [Samples.status_line; Samples.summary_line; lit "not json"]))
         [])
  = Ret Samples.summary_value.
Proof.
  refine (proj1 (@backup_returns_last_summary Samples.plain_runtime
                   (lit "/home/user/.openclaw")
                   (mkResticOptions Samples.sample_storage (lit "pass")) None
                   (Samples.printing
                      (Spec.newline_delimited
                         [Samples.status_line; Samples.summary_line;
                          lit "not json"]))
                   [] (lit "https://abc.r2.cloudflarestorage.com")
                   (Spec.newline_delimited
                      [Samples.status_line; Samples.summary_line;
                       lit "not json"])
                   [] _ eq_refl _)
            [Samples.status_line] Samples.summary_line [lit "not json"]
            Samples.summary_value _ eq_refl _ _).
  - intros o name H. discriminate H.
  - intros a e. reflexivity.
  - vm_compute. reflexivity.
  - eexists. split; reflexivity.
  - constructor; [|constructor].
    intros [parsed [H _]]. vm_compute in H. discriminate H.
Defined.

Section Records.
Context {RT : Runtime}.

Lemma split_without_separator (sep : N) (r : jsstring) :
  ~ In sep r -> split sep r = [r].
Proof.
  induction r as [|c r IH]; intros H; [reflexivity|].
  simpl. destruct (N.eqb_spec c sep) as [->|Hne].
  - exfalso. apply H. now left.
  - rewrite IH; [reflexivity|]. intros Hin. apply H. now right.
Qed.

Lemma split_at_separator (sep : N) (r s : jsstring) :
  ~ In sep r -> split sep (r ++ sep :: s) = r :: split sep s.
Proof.
  induction r as [|c r IH]; intros H.
  - simpl. now rewrite N.eqb_refl.
  - simpl. destruct (N.eqb_spec c sep) as [->|Hne].
    + exfalso. apply H. now left.
    + rewrite IH; [reflexivity|]. intros Hin. apply H. now right.
Qed.

Lemma split_join (records : list jsstring) :
  records <> [] ->
  Forall (fun r => ~ In 10%N r) records ->
  split 10 (join [10%N] records) = records.
Proof.
  induction records as [|r rest IH]; intros Hne Hall; [congruence|].
  inversion Hall as [|? ? Hr Hrest]; subst.
  destruct rest as [|r2 rest].
  - simpl. now apply split_without_separator.
  - change (join [10%N] (r :: r2 :: rest))
      with (r ++ 10%N :: join [10%N] (r2 :: rest)).
    rewrite split_at_separator by assumption.
    f_equal. apply IH; [discriminate | assumption].
Qed.

Lemma newline_delimited_join (records : list jsstring) :
  records <> [] ->
  Spec.newline_delimited records = join [10%N] records ++ [10%N].
Proof.
  induction records as [|r rest IH]; intros Hne; [congruence|].
  destruct rest as [|r2 rest].
  - simpl. now rewrite app_nil_r.
  - change (Spec.newline_delimited (r :: r2 :: rest))
      with ((r ++ [10%N]) ++ Spec.newline_delimited (r2 :: rest)).
    rewrite IH by discriminate.
    change (join [10%N] (r :: r2 :: rest))
      with (r ++ [10%N] ++ join [10%N] (r2 :: rest)).
    now rewrite <- !app_assoc.
Qed.

Lemma join_starts (sep : jsstring) (r : jsstring) (rest : list jsstring) :
  exists t, join sep (r :: rest) = r ++ t.
Proof.
  destruct rest; [exists []; simpl; now rewrite app_nil_r|].
  eexists. reflexivity.
Qed.

Lemma join_ends (sep : jsstring) (records : list jsstring) :
  records <> [] ->
  exists t, join sep records = t ++ last records [].
Proof.
  induction records as [|r rest IH]; intros Hne; [congruence|].
  destruct rest as [|r2 rest].
  - now exists [].
  - destruct IH as [t Ht]; [discriminate|].
    exists (r ++ sep ++ t).
    change (join sep (r :: r2 :: rest))
      with (r ++ sep ++ join sep (r2 :: rest)).
    rewrite Ht.
    change (last (r :: r2 :: rest) []) with (last (r2 :: rest) []).
    now rewrite <- !app_assoc.
Qed.

Lemma trim_line_feed (body : jsstring) c b d b' :
  body = c :: b -> isWhiteSpace c = false ->
  body = b' ++ [d] -> isWhiteSpace d = false ->
  trim (body ++ [10%N]) = body.
Proof.
  intros Hc Hcw Hd Hdw. unfold trim.
  assert (H1 : dropWhile isWhiteSpace (body ++ [10%N]) = body ++ [10%N]).
  { rewrite Hc. simpl. now rewrite Hcw. }
  rewrite H1. rewrite rev_app_distr. simpl.
  rewrite Hd at 1. rewrite rev_app_distr. simpl. rewrite Hdw.
  change (d :: rev b') with (rev [d] ++ rev b').
  rewrite <- rev_app_distr, rev_involutive. now rewrite Hd.
Qed.

(** The lines [backup] works on are the records of the output, when the
    records hold no line feed and the output neither begins nor ends
    (before its final line feed) with white space. *)
Lemma lines_of_newline_delimited (records : list jsstring) first c r d r' :
  hd_error records = Some first ->
  first = c :: r -> isWhiteSpace c = false ->
  last records [] = r' ++ [d] -> isWhiteSpace d = false ->
  Forall (fun l => ~ In 10%N l) records ->
  split 10 (trim (Spec.newline_delimited records)) = records.
Proof.
  intros Hhd Hfirst Hc Hlast Hd Hall.
  assert (Hne : records <> []) by (destruct records; discriminate).
  rewrite newline_delimited_join by assumption.
  destruct records as [|r0 rest]; [congruence|].
  injection Hhd as ->.
  destruct (join_starts [10%N] first rest) as [t Ht].
  destruct (join_ends [10%N] (first :: rest) Hne) as [t' Ht'].
  rewrite (trim_line_feed (join [10%N] (first :: rest)) c (r ++ t) d
             (t' ++ r')).
  - now apply split_join.
  - rewrite Ht, Hfirst. reflexivity.
  - assumption.
  - rewrite Ht', Hlast. now rewrite app_assoc.
  - assumption.
Qed.

(** [backup] on newline-delimited records: the parse of the last
    qualifying record is returned. *)
Lemma backup_on_records (sourceDir : jsstring) (opts : ResticOptions)
  (options : option BackupCallOptions) (w : Env) tr ep stderr
  (before after : list jsstring) (line : jsstring) (parsed : json)
  first c r d r' :
  (forall o name, options = Some o -> bo_includes o <> PrototypeMember name) ->
  Config.getStorageEndpoint (ro_storage opts) = Fulfilled ep ->
  (forall a e, execFile w (getResticBinaryPath w) a e 600000
               = Fulfilled (Spec.newline_delimited (before ++ line :: after),
                            stderr)) ->
  hd_error (before ++ line :: after) = Some first ->
  first = c :: r -> isWhiteSpace c = false ->
  last (before ++ line :: after) [] = r' ++ [d] -> isWhiteSpace d = false ->
  Forall (fun l => ~ In 10%N l) (before ++ line :: after) ->
  JSON_parse line = Some parsed ->
  Spec.is_summary parsed ->
  Forall (fun l => ~ Spec.qualifies l) after ->
  fst (Restic.backup sourceDir opts options w tr) = Ret parsed.
Proof.
  intros Hinc Hep Hrun Hhd Hfirst Hc Hlast Hd Hlf Hp Hs Hafter.
  rewrite (backup_after_run sourceDir opts options w tr ep _ stderr
             Hinc Hep Hrun).
  rewrite (lines_of_newline_delimited _ first c r d r'
             Hhd Hfirst Hc Hlast Hd Hlf).
  now rewrite (scan_backwards_last before after line parsed Hp Hs Hafter).
Qed.

End Records.

(* ================================================================== *)
(** ** Resolving a point in time to a snapshot                        *)
(* ================================================================== *)

Section TimeExpression.
Import RestoreCli.

Lemma takeWhile_app (f : N -> bool) (xs : jsstring) y ys :
  forallb f xs = true -> f y = false ->
  takeWhile f (xs ++ y :: ys) = xs.
Proof.
  intros Hxs Hy. induction xs as [|x xs IH]; simpl in *.
  - now rewrite Hy.
  - apply andb_true_iff in Hxs as [Hx Hxs]. rewrite Hx. now rewrite IH.
Qed.

Lemma dropWhile_app (f : N -> bool) (xs : jsstring) y ys :
  forallb f xs = true -> f y = false ->
  dropWhile f (xs ++ y :: ys) = y :: ys.
Proof.
  intros Hxs Hy. induction xs as [|x xs IH]; simpl in *.
  - now rewrite Hy.
  - apply andb_true_iff in Hxs as [Hx Hxs]. rewrite Hx. now rewrite IH.
Qed.

Lemma whitespace_cases (c : N) :
  isWhiteSpace c = true ->
  (c <= 32 \/ 160 <= c)%N.
Proof.
  unfold isWhiteSpace.
  rewrite !orb_true_iff, !andb_true_iff, !N.leb_le, !N.eqb_eq. lia.
Qed.

Lemma whitespace_not_digit (c : N) :
  isWhiteSpace c = true -> isDigit c = false.
Proof.
  intros H. apply whitespace_cases in H. unfold isDigit.
  apply andb_false_iff. rewrite !N.leb_gt. lia.
Qed.

Lemma whitespace_not_letter (p c : N) :
  (97 <= p <= 122)%N -> isWhiteSpace c = true -> ci_eq p c = false.
Proof.
  intros Hp H. apply whitespace_cases in H. unfold ci_eq.
  rewrite orb_false_iff, !andb_false_iff, !N.eqb_neq, !N.leb_gt. lia.
Qed.

Lemma gap_head (s : jsstring) :
  Spec.gap s -> exists c s', s = c :: s' /\ isWhiteSpace c = true
                        /\ forallb isWhiteSpace s = true.
Proof.
  intros [Hne Hall]. destruct s as [|c s']; [congruence|].
  exists c, s'. pose proof Hall as Hc. simpl in Hc.
  apply andb_true_iff in Hc as [Hc _]. now repeat split.
Qed.

(** After a gap, white space is taken and the text behind it is left,
    provided that text starts with something else. *)
Lemma gap_then (s : jsstring) y ys :
  Spec.gap s -> isWhiteSpace y = false ->
  truthy_str (takeWhile isWhiteSpace (s ++ y :: ys)) = true
  /\ dropWhile isWhiteSpace (s ++ y :: ys) = y :: ys.
Proof.
  intros Hs Hy. destruct (gap_head s Hs) as [c [s' [-> [Hc Hall]]]].
  rewrite takeWhile_app, dropWhile_app by assumption. now split.
Qed.

(** The regular expression accepts every relative phrase and captures
    its digits and its unit. *)
Lemma relativeMatch_phrase (digits gap1 unit : jsstring) (plural : bool)
  (gap2 : jsstring) :
  digits <> [] -> forallb isDigit digits = true ->
  Spec.gap gap1 -> Spec.gap gap2 -> In unit unit_words ->
  relativeMatch (Spec.relative_phrase digits gap1 unit plural gap2)
  = Some (digits, unit).
Proof.
  intros Hd Hdigits Hg1 Hg2 Hunit.
  unfold relativeMatch, Spec.relative_phrase.
  destruct (gap_head gap1 Hg1) as [c1 [g1 [E1 [Hc1 _]]]].
  assert (Htake : takeWhile isDigit
                    (digits ++ gap1 ++ unit
                     ++ (if plural then lit "s" else []) ++ gap2 ++ lit "ago")
                  = digits).
  { rewrite E1. cbn [app]. apply takeWhile_app; [assumption|].
    now apply whitespace_not_digit. }
  assert (Hdrop : dropWhile isDigit
                    (digits ++ gap1 ++ unit
                     ++ (if plural then lit "s" else []) ++ gap2 ++ lit "ago")
                  = gap1 ++ unit
                    ++ (if plural then lit "s" else []) ++ gap2 ++ lit "ago").
  { rewrite E1. cbn [app]. apply dropWhile_app; [assumption|].
    now apply whitespace_not_digit. }
  rewrite Htake, Hdrop.
  assert (Htd : truthy_str digits = true)
    by (destruct digits; [congruence | reflexivity]).
  rewrite Htd. cbn [negb].
  assert (Htail : forall rest,
            match match_word (lit "s")
                    ((if plural then lit "s" else []) ++ gap2 ++ lit "ago")
            with
            | Some (_, r) => r
            | None => (if plural then lit "s" else []) ++ gap2 ++ lit "ago"
            end = rest ->
            rest = gap2 ++ lit "ago").
  { intros rest <-. destruct plural; [reflexivity|].
    destruct (gap_head gap2 Hg2) as [c2 [g2 [E2 [Hc2 _]]]].
    rewrite E2. change (lit "s") with [115%N]. cbn [app match_word].
    assert (Hs : ci_eq 115 c2 = false)
      by (apply whitespace_not_letter; [lia | assumption]).
    rewrite Hs. reflexivity. }
  destruct (gap_then gap2 97%N (lit "go") Hg2 eq_refl) as [Ht2 Hd2].
  change (97%N :: lit "go") with (lit "ago") in Ht2, Hd2.
  simpl in Hunit.
  destruct Hunit as [<-|[<-|[<-|[<-|[<-|[]]]]]];
    (match goal with
     | |- context [gap1 ++ lit ?u ++ ?rest] =>
         let y := eval vm_compute in (hd 0%N (lit u)) in
         let ys := eval vm_compute in (tl (lit u)) in
         destruct (gap_then gap1 y (ys ++ rest) Hg1 eq_refl) as [Ht1 Hd1];
         change (y :: ys ++ rest) with (lit u ++ rest) in Ht1, Hd1;
         rewrite Ht1, Hd1;
         cbn [negb];
         change (match_unit unit_words (lit u ++ rest))
           with (Some (lit u, rest))
     end);
    cbv beta iota;
    rewrite (Htail _ eq_refl), Ht2, Hd2; reflexivity.
Qed.

End TimeExpression.

Section Numbers.

Lemma two53_below_overflow : (2 ^ 53 < 2 ^ 1024)%Z.
Proof. apply Z.pow_lt_mono_r; lia. Qed.

(** Safe integers are doubles. *)
Lemma round_double_safe (z : Z) : Spec.safe z -> round_double z = Finite z.
Proof.
  unfold Spec.safe, round_double, nearest_double. intros Hz.
  pose proof two53_below_overflow as Hlt.
  change (2 ^ 53)%Z with 9007199254740992%Z in *.
  destruct (Z.ltb_spec (Z.abs z) 9007199254740992) as [_|H]; [|lia].
  destruct (Z.leb_spec (2 ^ 1024) (Z.abs z)) as [H|_]; [lia|].
  f_equal. lia.
Qed.

(** Reading digits from the left gives the integer they denote. *)
Lemma decimal_value_acc (digits : jsstring) (acc : Z) :
  fold_left (fun acc c => (10 * acc + (Z.of_N c - 48))%Z) digits acc
  = (acc * 10 ^ Z.of_nat (List.length digits) + Spec.denoted digits)%Z.
Proof.
  revert acc. induction digits as [|d rest IH]; intros acc.
  - cbn. lia.
  - cbn [fold_left Spec.denoted List.length]. rewrite IH.
    rewrite Nat2Z.inj_succ, Z.pow_succ_r by lia. ring.
Qed.

Lemma decimal_value_denoted (digits : jsstring) :
  decimal_value digits = Spec.denoted digits.
Proof. unfold decimal_value. rewrite decimal_value_acc. lia. Qed.

Lemma denoted_nonneg (digits : jsstring) :
  forallb isDigit digits = true -> (0 <= Spec.denoted digits)%Z.
Proof.
  induction digits as [|d rest IH]; [cbn; lia|].
  cbn [forallb Spec.denoted]. intros H.
  apply andb_prop in H as [Hd Hrest]. specialize (IH Hrest).
  unfold isDigit in Hd. apply andb_prop in Hd as [Hlo _].
  apply N.leb_le in Hlo.
  assert (0 <= 10 ^ Z.of_nat (List.length rest))%Z
    by (apply Z.pow_nonneg; lia).
  nia.
Qed.

Lemma takeWhile_all (f : N -> bool) (s : jsstring) :
  forallb f s = true -> takeWhile f s = s.
Proof.
  induction s as [|c s IH]; [reflexivity|]. cbn [forallb takeWhile].
  intros H. apply andb_prop in H as [Hc Hs]. now rewrite Hc, IH.
Qed.

(** On a run of digits, [parseInt] is the number value of the integer
    the digits denote. *)
Lemma parseInt_digits (digits : jsstring) :
  digits <> [] -> forallb isDigit digits = true ->
  parseInt digits = round_double (Spec.denoted digits).
Proof.
  intros Hne Hd. destruct digits as [|d rest]; [congruence|].
  pose proof Hd as Hall. cbn [forallb] in Hd.
  apply andb_prop in Hd as [Hd _].
  assert (Hws : isWhiteSpace d = false).
  { unfold isDigit in Hd. apply andb_prop in Hd as [Hlo Hhi].
    apply N.leb_le in Hlo. apply N.leb_le in Hhi. unfold isWhiteSpace.
    repeat match goal with
           | |- context [(?a <=? d)%N] =>
               destruct (N.leb_spec a d); try lia
           | |- context [(d <=? ?a)%N] =>
               destruct (N.leb_spec d a); try lia
           | |- context [(d =? ?a)%N] =>
               destruct (N.eqb_spec d a); try lia
           end; reflexivity. }
  unfold parseInt. cbn [dropWhile]. rewrite Hws.
  assert (Hsign : (d =? 45)%N = false /\ (d =? 43)%N = false).
  { unfold isDigit in Hd. apply andb_prop in Hd as [Hlo _].
    apply N.leb_le in Hlo. split; apply N.eqb_neq; lia. }
  destruct Hsign as [E E']. rewrite E, E'. cbn [orb].
  rewrite (takeWhile_all _ _ Hall).
  now rewrite decimal_value_denoted.
Qed.

End Numbers.

Section ClosestSnapshot.
Context {RT : Runtime}.
Import RestoreCli.

(** The target instant of a relative phrase, as long as the numbers
    stay safe integers. *)
Lemma targetTime_phrase (digits gap1 unit : jsstring) (plural : bool)
  (gap2 : jsstring) (w : Env) tr :
  digits <> [] -> forallb isDigit digits = true ->
  Spec.gap gap1 -> Spec.gap gap2 -> In unit unit_words ->
  Spec.safe (Date_now w) ->
  Spec.safe (Spec.denoted digits * (1000 * Spec.unit_seconds unit)) ->
  Spec.safe (Date_now w
             - Spec.denoted digits * (1000 * Spec.unit_seconds unit)) ->
  targetTime (Spec.relative_phrase digits gap1 unit plural gap2) w tr
  = (Ret (Finite (Date_now w
                  - Spec.denoted digits
                    * (1000 * Spec.unit_seconds unit))%Z),
     tr).
Proof.
  intros Hd Hdigits Hg1 Hg2 Hunit Hnow Hprod Htarget. unfold targetTime.
  rewrite (relativeMatch_phrase digits gap1 unit plural gap2
             Hd Hdigits Hg1 Hg2 Hunit).
  rewrite (parseInt_digits digits Hd Hdigits).
  pose proof (denoted_nonneg digits Hdigits) as Hpos.
  unfold bind, asks, ret, time_value. rewrite (round_double_safe _ Hnow).
  assert (Hgen : forall m : Z,
            (1 <= m)%Z ->
            Spec.safe (Spec.denoted digits * m) ->
            Spec.safe (Date_now w - Spec.denoted digits * m) ->
            num_sub (Finite (Date_now w))
              (num_mul (round_double (Spec.denoted digits)) (Finite m))
            = Finite (Date_now w - Spec.denoted digits * m)).
  { intros m Hm Hp Ht.
    assert (Ha : Spec.safe (Spec.denoted digits))
      by (unfold Spec.safe in *; nia).
    rewrite (round_double_safe _ Ha). cbn [num_mul].
    rewrite (round_double_safe _ Hp). cbn [num_sub num_neg num_add].
    rewrite Z.add_opp_r. now apply round_double_safe. }
  simpl in Hunit.
  destruct Hunit as [<-|[<-|[<-|[<-|[<-|[]]]]]];
    (match goal with
     | |- context [Spec.unit_seconds ?u] =>
         let v := eval vm_compute in (1000 * Spec.unit_seconds u)%Z in
         change (1000 * Spec.unit_seconds u)%Z with v in *;
         match goal with
         | |- context [own_property multipliers ?k] =>
             change (own_property multipliers k) with (Some v)
         end
     end);
    cbv beta iota; rewrite Hgen; trivial; lia.
Qed.






(** Whatever the target, what the scan returns is one of the
    snapshots. *)
Lemma closest_In (snapshots : list ResticSnapshot) (target : number) snap :
  closest snapshots target = Some snap -> In snap snapshots.
Proof.
  unfold closest.
  assert (H : forall rest state,
            fst (fold_left (closest_step target) rest state) = Some snap ->
            fst state = Some snap \/ In snap rest).
  { induction rest as [|x rest IH]; intros state Hs; [now left|].
    cbn [fold_left] in Hs. apply IH in Hs as [Hs|Hs]; [|right; now right].
    unfold closest_step in Hs.
    destruct (num_lt _ _); [|now left].
    cbn [fst] in Hs. injection Hs as <-. right. now left. }
  intros Hs. apply H in Hs as [Hs|Hs]; [discriminate | exact Hs].
Qed.

End ClosestSnapshot.

Section FindSnapshot.
Context {RT : Runtime}.
Import RestoreCli.


End FindSnapshot.


(** The resolver on the spec's example: snapshots three days, one day
    and one hour old, asked for "2 hours ago", give the one-hour-old
    snapshot; two snapshots equally far from the target give the one
    listed first, in either order. *)
Example findSnapshotByTime_two_hours_ago :
  fst (@RestoreCli.findSnapshotByTime Samples.plain_runtime
         Samples.three_snapshots (lit "2 hours ago")
         Samples.offline_world [])
  = Ret (Some (Samples.snapshot_at "snap3-full-id"
                 (1709210096789 - 3600000)))
  /\ fst (@RestoreCli.findSnapshotByTime Samples.plain_runtime
            [Samples.snapshot_at "older" (1709210096789 - 3 * 3600000);
             Samples.snapshot_at "newer" (1709210096789 - 3600000)]
            (lit "2 HOURS  AGO") Samples.offline_world [])
     = Ret (Some (Samples.snapshot_at "older"
                    (1709210096789 - 3 * 3600000)))
  /\ fst (@RestoreCli.findSnapshotByTime Samples.plain_runtime
            [Samples.snapshot_at "newer" (1709210096789 - 3600000);
             Samples.snapshot_at "older" (1709210096789 - 3 * 3600000)]
            (lit "2 hour ago") Samples.offline_world [])
     = Ret (Some (Samples.snapshot_at "newer" (1709210096789 - 3600000))).
Proof. repeat split; vm_compute; reflexivity. Qed.

(* ================================================================== *)
(** ** The backup command                                             *)
(* ================================================================== *)

Section BackupCommand.
Context {RT : Runtime}.
Import BackupCli.

Lemma bind_Ret {A B} (c : IO A) (k : A -> IO B) (w : Env) tr a tr' :
  c w tr = (Ret a, tr') -> bind c k w tr = k a w tr'.
Proof. intros H. unfold bind. now rewrite H. Qed.

Lemma asks_await {A} (f : Env -> Settled A) (w : Env) tr a :
  f w = Fulfilled a ->
  bind (asks f) (fun r => await r) w tr = (Ret a, tr).
Proof. intros H. unfold bind, asks, await. now rewrite H. Qed.

(** A resolvable passphrase is returned after at most a keychain read and
    a debug line. *)
Lemma resolvePassphrase_resolves (opts : BackupOptions) (w : Env) tr pass :
  Spec.highest_priority (Spec.passphrase_chain opts w) = Some pass ->
  exists events,
    resolvePassphrase opts w tr = (Ret pass, tr ++ events)
    /\ (events = []
        \/ events = [KeychainRead;
                     Log LDebug (lit "Passphrase loaded from system keychain")]).
Proof.
  rewrite resolvePassphrase_cases.
  unfold Spec.passphrase_chain, Spec.keychain_value.
  rewrite !highest_priority_cons. simpl Spec.highest_priority.
  destruct (truthy (passphrase opts));
    [|destruct (truthy (process_env w (lit "CLAWSTASH_PASSPHRASE")));
      [|destruct (getKeychainPassphrase w) as [fromKeychain|e];
        [destruct (truthy fromKeychain)|]]].
  - intros [= <-]. exists []. rewrite app_nil_r. now split; [|left].
  - intros [= <-]. exists []. rewrite app_nil_r. now split; [|left].
  - intros [= <-]. eexists. split; [reflexivity | now right].
  - discriminate.
  - discriminate.
Qed.

(** C8. When every step up to and including the engine's backup run
    succeeds and the retention run that follows fails, [backupCommand]
    returns normally: the report of the backup is printed under the
    header "Backup complete", the retention failure appears as the
    spinner warning "Retention policy failed (backup was successful)"
    and a debug line, no error is logged and the process does not
    exit. *)
Theorem backupCommand_retention_failure_is_warning
  (opts : BackupOptions) (w : Env) tr
  (cfg : ClawstashConfig) (pass : jsstring) (running : bool)
  (inc : IncludesValue) (summary : ResticBackupSummary) (e : Exn) :
  requireConfig w = Fulfilled cfg ->
  Spec.highest_priority (Spec.passphrase_chain opts w) = Some pass ->
  ensureRestic w (resticVersion cfg) = Fulfilled tt ->
  scanOpenClawDir_exists w (openclawDir cfg) = Fulfilled true ->
  isOpenClawRunning w = Fulfilled running ->
  (forall tr0, getCategoryIncludes (only opts) w tr0 = (Ret inc, tr0)) ->
  dryRun opts <> Some true ->
  forget opts <> Some false ->
  (forall dir ro bo, restic_backup w dir ro bo = Fulfilled summary) ->
  (forall ro policy, restic_forget w ro policy = Rejected e) ->
  exists prelude bo,
    backupCommand opts w tr
    = (Ret tt,
       tr ++ prelude
       ++ [Spinner SStart (lit "Backing up...");
           CallBackup (openclawDir cfg)
             (mkResticOptions (storage cfg) pass) bo;
           Spinner SStop []]
       ++ Spec.report_events summary
       ++ [Spinner SStart (lit "Applying retention policy...");
           CallForget (mkResticOptions (storage cfg) pass) (retention cfg);
           Spinner SWarn
             (lit "Retention policy failed (backup was successful)");
           Log LDebug (String_of_exn e)])
    /\ (forall m, ~ In (Log LError m) prelude)
    /\ (forall m, ~ In (Spinner SFail m) prelude)
    /\ bo_includes bo = inc.
Proof.
  intros Hcfg Hpass Hensure Hscan Hrun Hinc Hdry Hforget Hbackup Hretain.
  destruct (resolvePassphrase_resolves opts w tr pass Hpass)
    as [ev1 [Hresolve Hev1]].
  exists (ev1 ++ [CallEnsureRestic (resticVersion cfg)]
          ++ Spec.running_notice running).
  eexists.
  split; [|split; [|split]].
  - unfold backupCommand.
    rewrite (bind_Ret _ _ w tr cfg tr) by now apply asks_await.
    rewrite (bind_Ret _ _ w tr pass (tr ++ ev1) Hresolve).
    rewrite (bind_Ret _ _ w _ tt
               ((tr ++ ev1) ++ [CallEnsureRestic (resticVersion cfg)]))
      by reflexivity.
    rewrite (bind_Ret _ _ w _ tt
               ((tr ++ ev1) ++ [CallEnsureRestic (resticVersion cfg)]))
      by (apply (asks_await (fun w => ensureRestic w (resticVersion cfg)));
          assumption).
    rewrite (bind_Ret _ _ w _ true
               ((tr ++ ev1) ++ [CallEnsureRestic (resticVersion cfg)]))
      by (apply (asks_await
                   (fun w => scanOpenClawDir_exists w (openclawDir cfg)));
          assumption).
    cbn [negb].
    rewrite (bind_Ret _ _ w _ running
               ((tr ++ ev1) ++ [CallEnsureRestic (resticVersion cfg)]))
      by now apply asks_await.
    rewrite (bind_Ret _ _ w _ tt
               (((tr ++ ev1) ++ [CallEnsureRestic (resticVersion cfg)])
                ++ Spec.running_notice running)).
    2:{ destruct running; unfold Spec.running_notice.
        - unfold bind, log, emit. now rewrite <- !app_assoc.
        - unfold ret. now rewrite app_nil_r. }
    rewrite (bind_Ret _ _ w _ inc _ (Hinc _)).
    assert (Hd : match dryRun opts with Some true => true | _ => false end
                 = false)
      by (destruct (dryRun opts) as [[|]|]; congruence).
    assert (Hf : match forget opts with Some false => true | _ => false end
                 = false)
      by (destruct (forget opts) as [[|]|]; congruence).
    rewrite Hd, Hf. cbn [negb andb].
    unfold try_catch, report.
    repeat (progress (unfold bind, emit, asks, await, log, ret, throw;
                      rewrite ?Hbackup, ?Hretain, ?Hd;
                      cbv beta iota zeta)).
    unfold Spec.report_events.
    repeat rewrite <- app_assoc. cbn [app]. reflexivity.
  - intros m Hin.
    apply in_app_or in Hin as [Hin|Hin].
    + destruct Hev1 as [->| ->]; simpl in Hin; intuition discriminate.
    + destruct running; simpl in Hin; intuition discriminate.
  - intros m Hin.
    apply in_app_or in Hin as [Hin|Hin].
    + destruct Hev1 as [->| ->]; simpl in Hin; intuition discriminate.
    + destruct running; simpl in Hin; intuition discriminate.
  - reflexivity.
Qed.

End BackupCommand.

(** C8 at a concrete run: an explicit passphrase, no category filter,
    the engine's backup run succeeding and its retention run failing. *)
Lemma backupCommand_retention_failure_is_warning_witness :
  fst (@BackupCli.backupCommand Samples.plain_runtime
         (BackupCli.mkBackupOptions (Some (lit "pass")) None None None)
         Samples.retention_failing [])
  = Ret tt.
Proof.
  destruct (@backupCommand_retention_failure_is_warning
              Samples.plain_runtime
              (BackupCli.mkBackupOptions (Some (lit "pass")) None None None)
              Samples.retention_failing []
              Samples.sample_config (lit "pass") false NoIncludes
              Samples.sample_summary (Error (lit "exit code 1"))
              eq_refl eq_refl eq_refl eq_refl eq_refl
              (fun tr0 => eq_refl)
              (fun H => match H in (_ = o)
                              return match o with
                                     | Some _ => False
                                     | None => True
                                     end
                        with eq_refl => I end)
              (fun H => match H in (_ = o)
                              return match o with
                                     | Some _ => False
                                     | None => True
                                     end
                        with eq_refl => I end)
              (fun _ _ _ => eq_refl) (fun _ _ => eq_refl))
    as [prelude [bo [H _]]].
  rewrite H. reflexivity.
Defined.

(** The probe on three worlds: offline, every request fails and the
    default is returned after both candidates were tried; an account
    whose EU endpoint alone answers 200 is detected as ["eu"]; an
    account that answers 200 everywhere is found at the first candidate,
    with one request. *)
Example detectR2Jurisdiction_runs :
  fst (@S3.detectR2Jurisdiction Samples.plain_runtime (lit "abc")
         (lit "key") (lit "secret") Samples.offline_world [])
  = Ret (lit "")
  /\ List.length
       (Spec.requests
          (snd (@S3.detectR2Jurisdiction Samples.plain_runtime (lit "abc")
                  (lit "key") (lit "secret") Samples.offline_world [])))
     = 2%nat
  /\ fst (@S3.detectR2Jurisdiction Samples.plain_runtime (lit "abc")
            (lit "key") (lit "secret") Samples.eu_account [])
     = Ret (lit "eu")
  /\ List.map req_url
       (Spec.requests
          (snd (@S3.detectR2Jurisdiction Samples.plain_runtime (lit "abc")
                  (lit "key") (lit "secret")
                  (Samples.answering (mkResponse 200 [])) [])))
     = [lit "https://abc.r2.cloudflarestorage.com/"].
Proof. repeat split; vm_compute; reflexivity. Qed.

(* ================================================================== *)
(** ** The statements above on concrete inputs                        *)
(* ================================================================== *)


(** C4 on conflicting sources: an explicit passphrase wins over the
    environment variable and the keychain, the environment variable
    [CLAWSTASH_PASSPHRASE] wins over the keychain, the keychain is used
    when it alone holds a passphrase, and without any source the
    process exits after the three remedies. *)
Lemma resolvePassphrase_precedence_witness :
  fst (BackupCli.resolvePassphrase
         (BackupCli.mkBackupOptions (Some (lit "flag-pass")) None None None)
         (Cases.with_secrets (Fulfilled (Some (lit "keychain-pass")))
            (Cases.env_passphrase (lit "env-pass")))
         [])
  = Ret (lit "flag-pass")
  /\ fst (BackupCli.resolvePassphrase
            (BackupCli.mkBackupOptions None None None None)
            (Cases.with_secrets (Fulfilled (Some (lit "keychain-pass")))
               (Cases.env_passphrase (lit "env-pass")))
            [])
     = Ret (lit "env-pass")
  /\ fst (BackupCli.resolvePassphrase
            (BackupCli.mkBackupOptions None None None None)
            (Cases.with_secrets (Fulfilled (Some (lit "keychain-pass")))
               (fun _ => None))
            [])
     = Ret (lit "keychain-pass")
  /\ BackupCli.resolvePassphrase
       (BackupCli.mkBackupOptions None None None None)
       Samples.offline_world []
     = (Exit 1, [] ++ Spec.no_passphrase_events).
Proof.
  split; [|split; [|split]].
  - apply (proj1 (resolvePassphrase_precedence _ _ [])). reflexivity.
  - apply (proj1 (resolvePassphrase_precedence _ _ [])). reflexivity.
  - apply (proj1 (resolvePassphrase_precedence _ _ [])). reflexivity.
  - apply (proj1 (proj2 (resolvePassphrase_precedence _ _ []))).
    + exists None. reflexivity.
    + reflexivity.
Defined.

(** C10 on a name outside both tables: ["bogus"] ends the process in the
    backup direction. *)
Lemma getCategoryIncludes_per_direction_witness :
  BackupCli.getCategoryIncludes (Some (lit "bogus")) Samples.offline_world []
  = (Exit 1,
     [] ++ [Log LError (lit "Unknown category: " ++ lit "bogus");
            Log LInfo (lit "Valid categories: config, secrets, workspace, sessions, memory, skills, agents, settings")]).
Proof.
  pose proof (getCategoryIncludes_per_direction Samples.offline_world [])
    as [_ [_ [_ [_ [_ [_ [Hunknown _]]]]]]].
  apply Hunknown.
  - discriminate.
  - vm_compute. intuition discriminate.
  - vm_compute. intuition discriminate.
Defined.

(** C9 on an account whose EU endpoint alone answers 200. *)
Lemma detectR2Jurisdiction_first_200_witness :
  fst (@S3.detectR2Jurisdiction Samples.plain_runtime (lit "abc")
         (lit "key") (lit "secret") Samples.eu_account [])
  = Ret (lit "eu").
Proof.
  destruct (@detectR2Jurisdiction_first_200 Samples.plain_runtime
              (lit "abc") (lit "key") (lit "secret") Samples.eu_account [])
    as [_ [r [events [Hrun [_ [_ [_ [_ [Heu _]]]]]]]]].
  rewrite Hrun. cbn [fst]. f_equal.
  apply Heu; vm_compute; reflexivity.
Defined.

(** C6 on a path on which no rule fires. *)
Lemma categorizeFile_total_workspace_first_witness :
  Openclaw.categorizeFile (lit "tools/some-binary") = Openclaw.other.
Proof.
  pose proof categorizeFile_total_workspace_first
    as [_ [_ [_ [Hother _]]]].
  apply Hother; reflexivity.
Defined.

(* ================================================================== *)
(** ** Decimal notation of integers                                   *)
(* ================================================================== *)

Section DecimalNotation.

(** The characters of an unsigned decimal are digits. *)
Lemma uint_digits (d : Decimal.uint) :
  forallb isDigit (lit (NilEmpty.string_of_uint d)) = true.
Proof. induction d; simpl; trivial. Qed.

Lemma uint_nonempty (d : Decimal.uint) :
  d <> Decimal.Nil -> lit (NilEmpty.string_of_uint d) <> [].
Proof. destruct d; intros H; [congruence | discriminate ..]. Qed.

Lemma NilZero_uint (d : Decimal.uint) :
  d <> Decimal.Nil ->
  NilZero.string_of_uint d = NilEmpty.string_of_uint d.
Proof. destruct d; simpl; congruence. Qed.

(** [String(n)] for a natural number [n] is a non-empty string of
    digits. *)
Lemma Number_toString_digits (n : Z) :
  (0 <= n)%Z ->
  Number_toString n <> []
  /\ forallb isDigit (Number_toString n) = true.
Proof.
  intros Hn. unfold Number_toString.
  destruct n as [|p|p]; [split; [discriminate | reflexivity]| |lia].
  simpl Z.to_int. simpl NilZero.string_of_int.
  rewrite NilZero_uint by apply DecimalPos.Unsigned.to_uint_nonnil.
  split; [apply uint_nonempty, DecimalPos.Unsigned.to_uint_nonnil
         | apply uint_digits].
Qed.

(** [String(n)] for a negative [n] is a minus sign and digits. *)
Lemma Number_toString_negative (p : positive) :
  exists ds, Number_toString (Zneg p) = 45%N :: ds
             /\ ds <> [] /\ forallb isDigit ds = true.
Proof.
  unfold Number_toString. simpl Z.to_int. simpl NilZero.string_of_int.
  rewrite NilZero_uint by apply DecimalPos.Unsigned.to_uint_nonnil.
  eexists. split; [reflexivity|].
  split; [apply uint_nonempty, DecimalPos.Unsigned.to_uint_nonnil
         | apply uint_digits].
Qed.

(** Reading digits left to right, as [decimal_value] does, computes
    [Pos.of_uint_acc]. *)
Lemma parse_uint_acc (d : Decimal.uint) (acc : positive) :
  fold_left Props.parse_step (lit (NilEmpty.string_of_uint d)) (Zpos acc)
  = Zpos (Pos.of_uint_acc d acc).
Proof.
  revert acc.
  induction d; intros acc; [reflexivity | ..];
    cbn [NilEmpty.string_of_uint Pos.of_uint_acc];
    unfold lit; cbn [list_ascii_of_string map fold_left]; fold lit;
    (match goal with
     | |- fold_left _ _ ?a = Zpos (Pos.of_uint_acc _ ?b) =>
         replace a with (Zpos b)
           by (unfold Props.parse_step; cbn [N_of_ascii N_of_digits]; lia)
     end);
    apply IHd.
Qed.

Lemma parse_uint (d : Decimal.uint) :
  fold_left Props.parse_step (lit (NilEmpty.string_of_uint d)) 0%Z
  = Z.of_N (Pos.of_uint d).
Proof.
  induction d; [reflexivity | ..];
    cbn [NilEmpty.string_of_uint Pos.of_uint];
    unfold lit; cbn [list_ascii_of_string map fold_left]; fold lit;
    [exact IHd | ..];
    (match goal with
     | |- fold_left _ _ ?a = Z.of_N (Npos (Pos.of_uint_acc _ ?b)) =>
         change a with (Zpos b)
     end);
    apply parse_uint_acc.
Qed.

(** The decimal notation of a natural number [n] denotes [n]. *)
Lemma decimal_value_Number_toString (n : Z) :
  (0 <= n)%Z -> decimal_value (Number_toString n) = n.
Proof.
  intros Hn. unfold decimal_value, Number_toString.
  destruct n as [|p|p]; [reflexivity| |lia].
  simpl Z.to_int. simpl NilZero.string_of_int.
  rewrite NilZero_uint by apply DecimalPos.Unsigned.to_uint_nonnil.
  change (fun acc c => (10 * acc + (Z.of_N c - 48))%Z) with Props.parse_step.
  rewrite parse_uint. now rewrite DecimalPos.Unsigned.of_to.
Qed.

End DecimalNotation.

(* ================================================================== *)
(** ** [String] of a number                                           *)
(* ================================================================== *)

Section DecimalZeros.

(** The digits of ten times a number are its digits and a zero. *)
Lemma to_uint_tenfold (p : positive) :
  Pos.to_uint (10 * p) = Decimal.app (Pos.to_uint p) (Decimal.D0 Decimal.Nil).
Proof.
  unfold Pos.to_uint, Decimal.app. rewrite DecimalFacts.rev_rev.
  pose proof (DecimalPos.Unsigned.to_ldec_tenfold p) as H.
  change (10 * N.pos p)%N with (N.pos (10 * p)) in H.
  unfold DecimalPos.Unsigned.to_lu in H. rewrite H. reflexivity.
Qed.

Lemma string_of_uint_revapp (a b : Decimal.uint) :
  lit (NilEmpty.string_of_uint (Decimal.revapp a b))
  = rev (lit (NilEmpty.string_of_uint a)) ++ lit (NilEmpty.string_of_uint b).
Proof.
  revert b. induction a; intros b; [reflexivity | ..];
    cbn [Decimal.revapp]; rewrite IHa;
    cbn [NilEmpty.string_of_uint];
    unfold lit; cbn [list_ascii_of_string map rev]; fold lit;
    rewrite <- app_assoc; reflexivity.
Qed.

Lemma string_of_uint_app (a b : Decimal.uint) :
  lit (NilEmpty.string_of_uint (Decimal.app a b))
  = lit (NilEmpty.string_of_uint a) ++ lit (NilEmpty.string_of_uint b).
Proof.
  unfold Decimal.app. rewrite string_of_uint_revapp. f_equal.
  unfold Decimal.rev. rewrite string_of_uint_revapp.
  rewrite List.app_nil_r. apply rev_involutive.
Qed.

Lemma Number_toString_tenfold (c : Z) :
  (0 < c)%Z -> Number_toString (10 * c) = Number_toString c ++ [48%N].
Proof.
  intros Hc. destruct c as [|p|p]; try lia.
  change (10 * Z.pos p)%Z with (Z.pos (10 * p)).
  unfold Number_toString. cbn [Z.to_int NilZero.string_of_int].
  rewrite !NilZero_uint by apply DecimalPos.Unsigned.to_uint_nonnil.
  rewrite to_uint_tenfold, string_of_uint_app. reflexivity.
Qed.

(** The digits of a number followed by zeros are the digits of that
    number times a power of ten. *)
Lemma Number_toString_zeros (c : Z) (j : nat) :
  (0 < c)%Z ->
  Number_toString c ++ repeat 48%N j = Number_toString (c * 10 ^ Z.of_nat j).
Proof.
  intros Hc. induction j as [|j IH].
  - cbn [repeat]. rewrite List.app_nil_r. f_equal. cbn. lia.
  - rewrite Nat2Z.inj_succ, Z.pow_succ_r by lia.
    replace (c * (10 * 10 ^ Z.of_nat j))%Z with (10 * (c * 10 ^ Z.of_nat j))%Z
      by ring.
    rewrite Number_toString_tenfold
      by (apply Z.mul_pos_pos; [exact Hc | apply Z.pow_pos_nonneg; lia]).
    rewrite <- IH, <- app_assoc. f_equal.
    change [48%N] with (repeat 48%N 1). rewrite <- repeat_app.
    f_equal. lia.
Qed.

(** From [2^53] on, the nearest double is at least [2^53]. *)
Lemma nearest_double_large (x : Z) :
  (2 ^ 53 <= x)%Z -> (2 ^ 53 <= nearest_double x)%Z.
Proof.
  intros Hx. unfold nearest_double.
  destruct (Z.ltb_spec x (2 ^ 53)) as [H|_]; [lia|].
  cbv zeta.
  assert (Hpos : (0 < x)%Z) by (change (2 ^ 53)%Z with 9007199254740992%Z in Hx; lia).
  pose proof (Z.log2_spec x Hpos) as [Hlo _].
  assert (Hlog : (53 <= Z.log2 x)%Z) by (apply Z.log2_le_pow2; assumption).
  set (e := (Z.log2 x - 52)%Z) in *.
  assert (He : (1 <= e)%Z) by (subst e; lia).
  assert (Hp : (0 < 2 ^ e)%Z) by (apply Z.pow_pos_nonneg; lia).
  assert (Hq : (2 ^ 52 <= x / 2 ^ e)%Z).
  { apply Z.div_le_lower_bound; [exact Hp|].
    rewrite <- Z.pow_add_r by lia.
    replace (e + 52)%Z with (Z.log2 x) by (subst e; lia). exact Hlo. }
  assert (H2 : (2 <= 2 ^ e)%Z).
  { change 2%Z with (2 ^ 1)%Z at 1. apply Z.pow_le_mono_r; lia. }
  change (2 ^ 53)%Z with (2 ^ 52 * 2)%Z.
  change (2 ^ 52)%Z with 4503599627370496%Z in *.
  destruct (_ || _); nia.
Qed.

(** Below [2^53], the fewest digits that read back as a number are its
    decimal notation without the zeros it ends with. *)
Lemma shortest_safe (a n : Z) (fuel : nat) :
  (0 <= a < 2 ^ 53)%Z ->
  forall k, let (c, j) := shortest a n k fuel in
            (c * 10 ^ j = a /\ 0 <= j /\ 0 <= c)%Z.
Proof.
  intros Ha. induction fuel as [|fuel IH]; intros k.
  - cbn. lia.
  - cbn [shortest]. cbv zeta.
    destruct (n - k <=? 0)%Z eqn:Ej; [cbn; lia|].
    apply Z.leb_gt in Ej. set (j := (n - k)%Z) in *.
    assert (Hp : (0 < 10 ^ j)%Z) by (apply Z.pow_pos_nonneg; lia).
    pose proof (Z.div_mod a (10 ^ j) ltac:(lia)) as Hdm.
    pose proof (Z.mod_pos_bound a (10 ^ j) Hp) as Hm.
    set (lo := (a / 10 ^ j)%Z) in *.
    assert (Hlo : (0 <= lo)%Z) by (apply Z.div_pos; lia).
    assert (Hlow : (lo * 10 ^ j <= a)%Z) by lia.
    assert (Hhigh : (a < (lo + 1) * 10 ^ j)%Z) by lia.
    assert (Eback : round_double (lo * 10 ^ j) = Finite (lo * 10 ^ j)).
    { apply round_double_safe. unfold Spec.safe.
      change (2 ^ 53)%Z with 9007199254740992%Z in Ha. nia. }
    rewrite Eback.
    assert (Ehi : match round_double ((lo + 1) * 10 ^ j) with
                  | Finite b => (b =? a)%Z
                  | _ => false
                  end = false).
    { unfold round_double.
      assert (Habs : Z.abs ((lo + 1) * 10 ^ j) = ((lo + 1) * 10 ^ j)%Z)
        by (apply Z.abs_eq; nia).
      rewrite Habs.
      destruct (2 ^ 1024 <=? _)%Z;
        [destruct (_ <? 0)%Z; reflexivity|].
      apply Z.eqb_neq.
      assert (Hs : Z.sgn ((lo + 1) * 10 ^ j) = 1%Z)
        by (apply Z.sgn_pos; nia).
      rewrite Hs, Z.mul_1_l.
      destruct (Z.lt_ge_cases ((lo + 1) * 10 ^ j) (2 ^ 53)) as [Hsmall|Hbig].
      - unfold nearest_double.
        destruct (Z.ltb_spec ((lo + 1) * 10 ^ j) (2 ^ 53)); lia.
      - pose proof (nearest_double_large _ Hbig). lia. }
    rewrite Ehi.
    destruct (lo * 10 ^ j =? a)%Z eqn:E.
    + apply Z.eqb_eq in E. lia.
    + apply IH.
Qed.

(** [String] prints a safe integer in decimal. *)
Lemma String_of_number_safe (n : Z) :
  Spec.safe n -> String_of_number (Finite n) = Number_toString n.
Proof.
  assert (Hmag : forall a, (0 <= a <= 9007199254740991)%Z ->
                           String_of_magnitude a = Number_toString a).
  { intros a Ha. destruct (Z.eq_dec a 0) as [->|Hnz]; [reflexivity|].
    unfold String_of_magnitude.
    pose proof (shortest_safe a
                  (Z.of_nat (List.length (Number_toString a))) 17
                  ltac:(change (2 ^ 53)%Z with 9007199254740992%Z; lia) 1)
      as H.
    destruct (shortest a _ 1 17) as [c j]. destruct H as (E & Hj & Hc).
    rewrite E.
    destruct (Z.ltb_spec a (10 ^ 21)) as [_|Hbig];
      [|change (10 ^ 21)%Z with 1000000000000000000000%Z in Hbig; lia].
    rewrite <- E. rewrite <- (Z2Nat.id j Hj) at 2.
    apply Number_toString_zeros. nia. }
  intros Hn. unfold Spec.safe in Hn. unfold String_of_number.
  destruct (Z.ltb_spec n 0) as [Hneg|Hpos].
  - rewrite Hmag by lia. destruct n as [|p|p]; try lia.
    cbn [Z.opp]. unfold Number_toString.
    cbn [Z.to_int NilZero.string_of_int].
    rewrite !NilZero_uint by apply DecimalPos.Unsigned.to_uint_nonnil.
    reflexivity.
  - apply Hmag. lia.
Qed.


End DecimalZeros.

(* ================================================================== *)
(** ** [src/core/config.ts]: endpoints                                *)
(* ================================================================== *)

Section Endpoints.

Lemma truthy_false_cases (s : option jsstring) :
  truthy s = false <-> s = None \/ s = Some [].
Proof.
  destruct s as [[|c s]|]; simpl; split; intros H; auto;
    try discriminate; destruct H; congruence.
Qed.

(** X1. A storage configuration has no endpoint, and hence no repository
    URL, exactly when no endpoint is set and the provider is MinIO, or
    R2 without an account id; the empty string counts as not set. *)
Theorem getStorageEndpoint_rejects_iff (st : StorageConfig) :
  let underivable :=
    truthy (endpoint st) = false
    /\ (provider st = minio
        \/ (provider st = r2 /\ truthy (accountId st) = false)) in
  ((exists e, Config.getStorageEndpoint st = Rejected e) <-> underivable)
  /\ ((exists e, Config.getResticRepoUrl st = Rejected e) <-> underivable).
Proof.
  intros underivable.
  assert (H : (exists e, Config.getStorageEndpoint st = Rejected e)
              <-> underivable).
  { subst underivable. unfold Config.getStorageEndpoint.
    destruct (truthy (endpoint st)).
    - split; [intros [e He]; discriminate | intros [H _]; discriminate].
    - destruct (provider st) eqn:Hp.
      + destruct (accountId st) as [[|c acc]|]; simpl.
        * split; [intros _; split; [reflexivity | right; now split]
                 | intros _; now eexists].
        * split; [intros [e He]; discriminate
                 | intros [_ [Hm | [_ Hm]]]; discriminate].
        * split; [intros _; split; [reflexivity | right; now split]
                 | intros _; now eexists].
      + split; [intros [e He]; discriminate
               | intros [_ [Hm | [Hm _]]]; discriminate].
      + split; [intros [e He]; discriminate
               | intros [_ [Hm | [Hm _]]]; discriminate].
      + split; [intros _; split; [reflexivity | now left]
               | intros _; now eexists]. }
  split; [exact H|].
  rewrite <- H. unfold Config.getResticRepoUrl.
  destruct (Config.getStorageEndpoint st);
    split; intros [e0 He]; try discriminate; now eexists.
Qed.

(** X2. For an R2 account without an explicit endpoint, the endpoint of
    a configuration is the endpoint that jurisdiction detection probes
    for the configured jurisdiction. *)
Theorem r2_endpoint_agrees (st : StorageConfig) (acc : jsstring) :
  provider st = r2 ->
  truthy (endpoint st) = false ->
  accountId st = Some acc ->
  acc <> [] ->
  Config.getStorageEndpoint st
  = Fulfilled (S3.r2_endpoint acc
                 (match jurisdiction st with Some j => j | None => [] end)).
Proof.
  intros Hp He Ha Hne. unfold Config.getStorageEndpoint, S3.r2_endpoint.
  rewrite He, Hp, Ha.
  destruct acc as [|c acc]; [congruence|]. cbn [truthy_str].
  destruct (jurisdiction st) as [[|d j]|]; reflexivity.
Qed.

End Endpoints.

(* ================================================================== *)
(** ** [src/core/restic.ts]: the engine operations                    *)
(* ================================================================== *)

Section EngineOperations.
Context {RT : Runtime}.

Import ResticOps.

(** Every way a run of the engine can go. *)
Lemma runResticRaw_cases (args : list jsstring) (opts : ResticOptions)
  (timeout : Z) (w : Env) tr :
  Restic.runResticRaw args opts timeout w tr =
  match Restic.buildEnv opts with
  | Rejected e => (Throw e, tr)
  | Fulfilled env =>
      let full := Restic.buildExtraArgs (ro_storage opts) ++ args in
      let started :=
        tr ++ [Log LDebug (lit "restic " ++ join (lit " ") full);
               Spawn (getResticBinaryPath w) full env timeout] in
      match execFile w (getResticBinaryPath w) full env timeout with
      | Rejected e => (Throw e, started)
      | Fulfilled out =>
          (Ret (fst out),
           started ++ (if truthy_str (snd out)
                       then [Log LDebug (lit "restic stderr: " ++ snd out)]
                       else []))
      end
  end.
Proof.
  unfold Restic.runResticRaw, bind, asks, await, ret, throw, log, emit.
  destruct (Restic.buildEnv opts) as [env|e]; [|reflexivity].
  cbv zeta. rewrite <- !app_assoc. cbn [app].
  destruct (execFile w _ _ env timeout) as [[out err]|e]; [|reflexivity].
  cbn [fst snd]. destruct (truthy_str err); [reflexivity|].
  now rewrite app_nil_r.
Qed.

Lemma buildEnv_rejected (opts : ResticOptions) e :
  Config.getStorageEndpoint (ro_storage opts) = Rejected e ->
  Restic.buildEnv opts = Rejected e.
Proof.
  intros H. unfold Restic.buildEnv, Config.getResticRepoUrl. now rewrite H.
Qed.

Lemma spawned_app (a b : list Event) :
  Props.spawned (a ++ b) = Props.spawned a ++ Props.spawned b.
Proof.
  induction a as [|e a IH]; [reflexivity|].
  destruct e; cbn [app Props.spawned]; rewrite IH; reflexivity.
Qed.

(** What one run of the engine adds to the processes of a trace. *)
Lemma runResticRaw_spawned (args : list jsstring) (opts : ResticOptions)
  (timeout : Z) (w : Env) tr :
  Props.spawned (snd (Restic.runResticRaw args opts timeout w tr))
  = Props.spawned tr
    ++ match Restic.buildEnv opts with
       | Fulfilled _ => [Restic.buildExtraArgs (ro_storage opts) ++ args]
       | Rejected _ => []
       end.
Proof.
  rewrite runResticRaw_cases.
  destruct (Restic.buildEnv opts) as [env|e];
    [|cbn [snd]; now rewrite app_nil_r].
  cbv zeta.
  destruct (execFile w _ _ env timeout) as [[out err]|e]; cbn [snd fst];
    rewrite ?spawned_app; [destruct (truthy_str err)|];
    cbn [Props.spawned]; rewrite ?app_nil_r; reflexivity.
Qed.

(** A [try] around one run of the engine that maps the outcome to a
    boolean. *)
Lemma try_run_bool (args : list jsstring) (opts : ResticOptions)
  (timeout : Z) (w : Env) tr :
  fst (try_catch
         (_ <- Restic.runResticRaw args opts timeout ;; ret true)
         (fun _ => ret false) w tr)
  = Ret (Props.engine_succeeds args opts timeout w).
Proof.
  unfold try_catch, bind, Props.engine_succeeds.
  rewrite runResticRaw_cases.
  destruct (Restic.buildEnv opts) as [env|e]; [|reflexivity].
  cbv zeta.
  destruct (execFile w _ _ env timeout) as [[out err]|e]; reflexivity.
Qed.

(** X3. [checkRepo] and [check] never raise and never end the process:
    each returns [true] when its run of the engine ends well and
    [false] otherwise, also when the storage configuration has no
    endpoint. *)
Theorem checkRepo_check_never_raise (opts : ResticOptions) (w : Env) tr :
  fst (checkRepo opts w tr)
  = Ret (Props.engine_succeeds [lit "cat"; lit "config"; lit "--json"]
           opts 30000 w)
  /\ fst (check opts w tr)
     = Ret (Props.engine_succeeds [lit "check"] opts 300000 w).
Proof.
  split; [unfold checkRepo | unfold check]; apply try_run_bool.
Qed.

(** The digits [Number::toString] chooses for a natural number are
    those of a natural number. *)
Lemma shortest_nonneg (a n : Z) (fuel : nat) :
  (0 <= a)%Z -> forall k, (0 <= fst (shortest a n k fuel))%Z.
Proof.
  intros Ha. induction fuel as [|fuel IH]; intros k; [exact Ha|].
  cbn [shortest]. cbv zeta.
  destruct (n - k <=? 0)%Z eqn:Ej; [exact Ha|].
  apply Z.leb_gt in Ej.
  assert (Hlo : (0 <= a / 10 ^ (n - k))%Z)
    by (apply Z.div_pos; [exact Ha | apply Z.pow_pos_nonneg; lia]).
  repeat match goal with
         | |- context [match ?x with _ => _ end] =>
             match x with
             | context [shortest] => fail 1
             | _ => destruct x
             end
         end; cbn [fst]; try lia; apply IH.
Qed.

Lemma strip_zeros_suffix (l : jsstring) :
  exists zeros, l = zeros ++ strip_zeros l.
Proof.
  induction l as [|c l [zeros IH]]; [now exists []|].
  cbn [strip_zeros].
  destruct (N.eq_dec c 48) as [->|Hc].
  - exists (48%N :: zeros). cbn [app]. now rewrite <- IH.
  - exists []. cbn [app].
    destruct c as [|p]; [reflexivity|].
    repeat (destruct p as [p|p|]; try reflexivity); congruence.
Qed.

(** [String] of a natural number starts with a digit. *)
Lemma String_of_magnitude_head (a : Z) :
  (0 <= a)%Z ->
  exists c s, String_of_magnitude a = c :: s /\ isDigit c = true.
Proof.
  intros Ha. unfold String_of_magnitude.
  pose proof (shortest_nonneg a
                (Z.of_nat (List.length (Number_toString a))) 17 Ha 1) as Hc.
  destruct (shortest a _ 1 17) as [c j]. cbn [fst] in Hc.
  destruct (Number_toString_digits c Hc) as [Hne Hd].
  destruct (Number_toString c) as [|d ds] eqn:Ed; [congruence|].
  cbn [forallb] in Hd. apply andb_prop in Hd as [Hd _].
  destruct (c * 10 ^ j <? 10 ^ 21)%Z; [now exists d, (ds ++ repeat 48%N (Z.to_nat j))|].
  destruct (strip_zeros_suffix (rev (d :: ds))) as [zeros Hz].
  apply (f_equal (@rev N)) in Hz. rewrite rev_involutive, rev_app_distr in Hz.
  destruct (rev (strip_zeros (rev (d :: ds)))) as [|m [|m' rest]].
  - now exists d, ds.
  - cbn [app] in Hz. injection Hz as <- _. now eexists _, _.
  - cbn [app] in Hz. injection Hz as <- _. now eexists _, _.
Qed.

(** [String] of a number is no flag. *)
Lemma String_of_number_not_flag (v : number) (flag : jsstring) :
  str_eqb (String_of_number v) (45%N :: 45%N :: flag) = false.
Proof.
  destruct v as [z| | |]; try reflexivity.
  unfold String_of_number. destruct (Z.ltb_spec z 0) as [Hz|Hz].
  - destruct (String_of_magnitude_head (- z)) as (c & s & -> & Hc); [lia|].
    cbn [str_eqb]. rewrite N.eqb_refl. cbn [andb].
    destruct (N.eqb_spec c 45); [|reflexivity]. subst c. discriminate.
  - destruct (String_of_magnitude_head z Hz) as (c & s & -> & Hc).
    cbn [str_eqb].
    destruct (N.eqb_spec c 45); [|reflexivity]. subst c. discriminate.
Qed.

(** Looking a flag up past the words of another count. *)
Lemma flag_value_keep_flag (f g : jsstring) (v : option number)
  (rest : list jsstring) :
  Props.flag_value (45%N :: 45%N :: f)
    (keep_flag (45%N :: 45%N :: g) v ++ rest)
  = if str_eqb g f
    then match Props.nonzero v with
         | Some n => Some (String_of_number n)
         | None => Props.flag_value (45%N :: 45%N :: f) rest
         end
    else Props.flag_value (45%N :: 45%N :: f) rest.
Proof.
  unfold keep_flag, Props.nonzero.
  destruct v as [n|]; [|now destruct (str_eqb g f)].
  destruct (truthy_num n); [|now destruct (str_eqb g f)].
  cbn [app Props.flag_value str_eqb]. rewrite !N.eqb_refl. cbn [andb].
  destruct (str_eqb g f); [reflexivity|].
  now rewrite String_of_number_not_flag.
Qed.

(** X4. [forget] starts one engine process, or none when the
    environment of the engine cannot be built. The arguments of the
    process are [forget --prune --json] followed by the retention
    counts: each count that is set and truthy (neither zero nor [NaN])
    appears, as [String] prints it, after its own flag, and a count
    that is zero, [NaN] or not set contributes no word at all. [String]
    prints a safe integer in decimal, and 10^21 as [1e+21]. *)
Theorem forget_argv (opts : ResticOptions) (retention : Retention)
  (w : Env) tr :
  exists keep,
    Props.spawned (snd (forget opts retention w tr))
    = Props.spawned tr
      ++ match Restic.buildEnv opts with
         | Fulfilled _ =>
             [Restic.buildExtraArgs (ro_storage opts)
              ++ [lit "forget"; lit "--prune"; lit "--json"] ++ keep]
         | Rejected _ => []
         end
    /\ Props.flag_value (lit "--keep-last") keep
       = option_map String_of_number (Props.nonzero (r_keepLast retention))
    /\ Props.flag_value (lit "--keep-daily") keep
       = option_map String_of_number (Props.nonzero (r_keepDaily retention))
    /\ Props.flag_value (lit "--keep-weekly") keep
       = option_map String_of_number
           (Props.nonzero (r_keepWeekly retention))
    /\ Props.flag_value (lit "--keep-monthly") keep
       = option_map String_of_number
           (Props.nonzero (r_keepMonthly retention))
    /\ List.length keep
       = (2 * List.length
                (flat_map (fun v => match Props.nonzero v with
                                    | Some n => [n]
                                    | None => []
                                    end)
                   [r_keepLast retention; r_keepDaily retention;
                    r_keepWeekly retention; r_keepMonthly retention]))%nat
    /\ (forall n, Spec.safe n ->
                  String_of_number (Finite n) = Number_toString n)
    /\ String_of_number (round_double (10 ^ 21)) = lit "1e+21".
Proof.
  exists (keep_flag (lit "--keep-last") (r_keepLast retention)
          ++ keep_flag (lit "--keep-daily") (r_keepDaily retention)
          ++ keep_flag (lit "--keep-weekly") (r_keepWeekly retention)
          ++ keep_flag (lit "--keep-monthly") (r_keepMonthly retention)).
  split.
  { unfold forget, bind.
    match goal with
    | |- context [Restic.runResticRaw ?a opts 600000 w tr] =>
        generalize (runResticRaw_spawned a opts 600000 w tr);
        destruct (Restic.runResticRaw a opts 600000 w tr) as [[u|e|c] tr']
    end; unfold ret; cbn [snd]; intros ->; reflexivity. }
  change (lit "--keep-last") with (45%N :: 45%N :: lit "keep-last").
  change (lit "--keep-daily") with (45%N :: 45%N :: lit "keep-daily").
  change (lit "--keep-weekly") with (45%N :: 45%N :: lit "keep-weekly").
  change (lit "--keep-monthly") with (45%N :: 45%N :: lit "keep-monthly").
  assert (Hnil : forall f g v,
             Props.flag_value (45%N :: 45%N :: f)
               (keep_flag (45%N :: 45%N :: g) v)
             = if str_eqb g f
               then option_map String_of_number (Props.nonzero v)
               else None).
  { intros f g v.
    rewrite <- (app_nil_r (keep_flag _ v)), flag_value_keep_flag.
    destruct (str_eqb g f); [|reflexivity].
    now destruct (Props.nonzero v). }
  assert (Hlen : List.length
                   (keep_flag (45%N :: 45%N :: lit "keep-last")
                      (r_keepLast retention)
                    ++ keep_flag (45%N :: 45%N :: lit "keep-daily")
                         (r_keepDaily retention)
                    ++ keep_flag (45%N :: 45%N :: lit "keep-weekly")
                         (r_keepWeekly retention)
                    ++ keep_flag (45%N :: 45%N :: lit "keep-monthly")
                         (r_keepMonthly retention))
                 = (2 * List.length
                          (flat_map (fun v => match Props.nonzero v with
                                              | Some n => [n]
                                              | None => []
                                              end)
                             [r_keepLast retention; r_keepDaily retention;
                              r_keepWeekly retention;
                              r_keepMonthly retention]))%nat).
  { rewrite !length_app. cbn [flat_map]. rewrite !length_app.
    unfold keep_flag, Props.nonzero.
    destruct (r_keepLast retention) as [a|]; [destruct (truthy_num a)|];
      (destruct (r_keepDaily retention) as [b|]; [destruct (truthy_num b)|]);
      (destruct (r_keepWeekly retention) as [c|]; [destruct (truthy_num c)|]);
      (destruct (r_keepMonthly retention) as [d|];
       [destruct (truthy_num d)|]);
      reflexivity. }
  split; [|split; [|split; [|split; [|split; [exact Hlen|]]]]];
    [| | | |split; [exact String_of_number_safe | vm_compute; reflexivity]];
    rewrite ?flag_value_keep_flag, ?Hnil;
    repeat match goal with
           | |- context [str_eqb (lit ?a) (lit ?b)] =>
               let r := eval vm_compute in (str_eqb (lit a) (lit b)) in
               change (str_eqb (lit a) (lit b)) with r
           end;
    cbv iota;
    repeat match goal with
           | |- context [Props.nonzero ?v] => destruct (Props.nonzero v)
           end;
    reflexivity.
Qed.

(** X5. With a storage configuration that has no endpoint, no engine
    operation starts a process or leaves any other trace: [checkRepo]
    and [check] return [false], and every other operation raises. *)
Theorem no_endpoint_no_process (opts : ResticOptions) (w : Env) tr e :
  Config.getStorageEndpoint (ro_storage opts) = Rejected e ->
  checkRepo opts w tr = (Ret false, tr)
  /\ check opts w tr = (Ret false, tr)
  /\ initRepo opts w tr = (Throw e, tr)
  /\ (forall tags, listSnapshots opts tags w tr = (Throw e, tr))
  /\ stats opts w tr = (Throw e, tr)
  /\ (forall retention, forget opts retention w tr = (Throw e, tr))
  /\ (forall id dir options,
        exists e', restore id dir opts options w tr = (Throw e', tr))
  /\ (forall dir options,
        exists e', Restic.backup dir opts options w tr = (Throw e', tr)).
Proof.
  intros H. apply buildEnv_rejected in H.
  assert (Hrun : forall a t, Restic.runResticRaw a opts t w tr = (Throw e, tr)).
  { intros a t. rewrite runResticRaw_cases. now rewrite H. }
  split; [unfold checkRepo, try_catch, bind; now rewrite Hrun|].
  split; [unfold check, try_catch, bind; now rewrite Hrun|].
  split; [unfold initRepo, bind; now rewrite Hrun|].
  split; [intros tags; unfold listSnapshots, runRestic, bind;
          now rewrite Hrun|].
  split; [unfold stats, runRestic, bind; now rewrite Hrun|].
  split; [intros retention; unfold forget, bind; now rewrite Hrun|].
  split.
  - intros id dir options. unfold restore, bind.
    destruct options as [o|];
      [destruct (rc_include o)|]; unfold ret, throw; rewrite ?Hrun;
      eexists; reflexivity.
  - intros dir options. unfold Restic.backup, bind.
    destruct options as [o|];
      [destruct (bo_includes o)|]; unfold ret, throw; rewrite ?Hrun;
      eexists; reflexivity.
Qed.

(** X6. [listSnapshots] returns what the engine printed, parsed; the
    JSON value [null] is returned as the empty array, so the result is
    never [null]; output that is not JSON is returned as text. *)
Theorem listSnapshots_null_is_empty (opts : ResticOptions)
  (tags : option (list jsstring)) (w : Env) tr v :
  fst (listSnapshots opts tags w tr) = Ret v ->
  v <> Parsed JNull
  /\ exists env stdout stderr,
       Restic.buildEnv opts = Fulfilled env
       /\ execFile w (getResticBinaryPath w)
            (Restic.buildExtraArgs (ro_storage opts)
             ++ [lit "snapshots"; lit "--json"]
             ++ Restic.flag_each (lit "--tag") tags) env 300000
          = Fulfilled (stdout, stderr)
       /\ v = match JSON_parse stdout with
              | Some JNull => Parsed (JArr [])
              | Some parsed => Parsed parsed
              | None => Raw stdout
              end.
Proof.
  unfold listSnapshots, runRestic, bind. rewrite runResticRaw_cases.
  destruct (Restic.buildEnv opts) as [env|e]; [|discriminate].
  cbv zeta.
  destruct (execFile w _ _ env 300000) as [[out err]|e] eqn:Hrun;
    [|discriminate].
  unfold ret. cbn [fst snd]. intros Hv. injection Hv as <-.
  split.
  - destruct (JSON_parse out) as [[]|]; discriminate.
  - exists env, out, err. split; [reflexivity|]. split; [exact Hrun|].
    destruct (JSON_parse out) as [[]|]; reflexivity.
Qed.

End EngineOperations.

(* ================================================================== *)
(** ** [src/core/s3.ts]: buckets, reachability, signing time          *)
(* ================================================================== *)

Section BucketProvisioning.
Context {RT : Runtime}.

Import S3.

(** [ensureBucket] once the endpoint is derived and both requests are
    signed. *)
Lemma ensureBucket_signed (st : StorageConfig) (w : Env) tr ep head put :
  Config.getStorageEndpoint st = Fulfilled ep ->
  Spec.signed (Spec.bucket_opts (lit "HEAD") st ep) w = Some head ->
  Spec.signed (Spec.bucket_opts (lit "PUT") st ep) w = Some put ->
  let headReq := mkRequest (url head) (lit "HEAD") (headers head) None in
  let putReq := mkRequest (url put) (lit "PUT") (headers put) None in
  Spec.requests (snd (ensureBucket st w tr))
  = Spec.requests tr
    ++ (if Props.answered_200 (fetch w headReq)
        then [headReq] else [headReq; putReq])
  /\ (fst (ensureBucket st w tr) = Ret tt
      <-> Props.answered_200 (fetch w headReq) = true
          \/ Props.put_accepted (fetch w putReq) = true).
Proof.
  intros Hep Hhead Hput headReq putReq.
  assert (Hcreate : forall tr0,
             Spec.requests
               (snd (bind (createBucket st) (fun _ => ret tt) w tr0))
             = Spec.requests tr0 ++ [putReq]
             /\ (fst (bind (createBucket st) (fun _ => ret tt) w tr0) = Ret tt
                 <-> Props.put_accepted (fetch w putReq) = true)).
  { intros tr0. unfold createBucket, bind.
    rewrite bucket_request_cases, Hep, Hput.
    unfold do_fetch, log, bind, emit, asks, await, ret, throw.
    fold putReq. unfold Props.put_accepted.
    destruct (fetch w putReq) as [res|e]; cbn [fst snd].
    - destruct (status res =? 200)%Z; [|destruct (status res =? 201)%Z];
        [| |destruct (status res =? 409)%Z;
            [|destruct (includes (text res) owned_marker)]];
        cbn [orb fst snd]; rewrite !requests_app; cbn [Spec.requests];
        rewrite app_nil_r; (split; [reflexivity|]);
        split; (reflexivity || discriminate).
    - rewrite requests_app. cbn [Spec.requests].
      split; [reflexivity | split; discriminate]. }
  unfold ensureBucket.
  pose proof (bucketExists_signed st w tr ep head Hep Hhead) as Hb.
  fold headReq in Hb. unfold Props.answered_200.
  revert Hb. destruct (fetch w headReq) as [res|e]; intros Hb;
    rewrite (bind_Ret _ _ _ _ _ _ Hb).
  - destruct (status res =? 200)%Z.
    + unfold log, emit. cbn [fst snd].
      rewrite !requests_app. cbn [Spec.requests]. rewrite app_nil_r.
      split; [reflexivity | split; [now left | reflexivity]].
    + destruct (Hcreate
                  (tr ++ [Fetch headReq;
                          Log LDebug (lit "HEAD /" ++ bucket st ++ lit ": "
                                      ++ Number_toString (status res))]))
        as [Hreq Hret].
      split.
      * rewrite Hreq, requests_app. cbn [Spec.requests].
        now rewrite <- app_assoc.
      * rewrite Hret.
        split; [now right | intros [H|H]; [discriminate | exact H]].
  - destruct (Hcreate
                (tr ++ [Fetch headReq;
                        Log LDebug (lit "HEAD bucket failed: "
                                    ++ String_of_exn e)]))
      as [Hreq Hret].
    split.
    + rewrite Hreq, requests_app. cbn [Spec.requests].
      now rewrite <- app_assoc.
    + rewrite Hret.
      split; [now right | intros [H|H]; [discriminate | exact H]].
Qed.

(** X7. [ensureBucket] first derives the endpoint and signs: when no
    endpoint can be derived, or the URL cannot be built, it raises and
    sends nothing. Otherwise it asks with a signed [HEAD] first. When
    that is answered with 200 nothing else is sent; in every other
    case, a network failure of the [HEAD] included, exactly one signed
    [PUT] follows. The call returns exactly when the [HEAD] is answered
    with 200 or the answer to the [PUT] is accepted by
    [createBucket]. *)
Theorem ensureBucket_requests (st : StorageConfig) (w : Env) tr :
  match Config.getStorageEndpoint st with
  | Rejected e => ensureBucket st w tr = (Throw e, tr)
  | Fulfilled ep =>
      match Spec.signed (Spec.bucket_opts (lit "HEAD") st ep) w with
      | None =>
          ensureBucket st w tr = (Throw (TypeError (lit "Invalid URL")), tr)
      | Some head =>
          exists put,
            Spec.signed (Spec.bucket_opts (lit "PUT") st ep) w = Some put
            /\ Spec.requests (snd (ensureBucket st w tr))
               = Spec.requests tr
                 ++ (if Props.answered_200
                          (fetch w (mkRequest (url head) (lit "HEAD")
                                      (headers head) None))
                     then [mkRequest (url head) (lit "HEAD") (headers head)
                             None]
                     else [mkRequest (url head) (lit "HEAD") (headers head)
                             None;
                           mkRequest (url put) (lit "PUT") (headers put)
                             None])
            /\ (fst (ensureBucket st w tr) = Ret tt
                <-> Props.answered_200
                      (fetch w (mkRequest (url head) (lit "HEAD")
                                  (headers head) None)) = true
                    \/ Props.put_accepted
                         (fetch w (mkRequest (url put) (lit "PUT")
                                     (headers put) None)) = true)
      end
  end.
Proof.
  destruct (Config.getStorageEndpoint st) as [ep|e] eqn:Hep.
  - destruct (Spec.signed (Spec.bucket_opts (lit "HEAD") st ep) w)
      as [head|] eqn:Hhead.
    + assert (Hput : exists put,
                 Spec.signed (Spec.bucket_opts (lit "PUT") st ep) w
                 = Some put).
      { apply signed_iff_URL.
        apply (signed_iff_URL (Spec.bucket_opts (lit "HEAD") st ep) w).
        now exists head. }
      destruct Hput as [put Hput]. exists put. split; [exact Hput|].
      exact (ensureBucket_signed st w tr ep head put Hep Hhead Hput).
    + unfold ensureBucket, bind at 1.
      now rewrite (proj2 (bucketExists_raises_unsigned st w tr) ep Hep Hhead).
  - unfold ensureBucket, bind at 1.
    now rewrite (proj1 (bucketExists_raises_unsigned st w tr) e Hep).
Qed.

(** X8. [testEndpoint] first derives the endpoint: when none can be
    derived it raises and sends nothing. Otherwise it sends one [HEAD]
    to the endpoint itself, without any header, and reports whether it
    was answered at all: any HTTP status gives [true], only a failed
    request gives [false]. *)
Theorem testEndpoint_any_answer (st : StorageConfig) (w : Env) tr :
  match Config.getStorageEndpoint st with
  | Rejected e => S3Endpoint.testEndpoint st w tr = (Throw e, tr)
  | Fulfilled ep =>
      fst (S3Endpoint.testEndpoint st w tr)
      = Ret match fetch w (mkRequest ep (lit "HEAD") [] (Some 5000%Z)) with
            | Fulfilled _ => true
            | Rejected _ => false
            end
      /\ Spec.requests (snd (S3Endpoint.testEndpoint st w tr))
         = Spec.requests tr ++ [mkRequest ep (lit "HEAD") [] (Some 5000%Z)]
  end.
Proof.
  unfold S3Endpoint.testEndpoint, bind at 1.
  destruct (Config.getStorageEndpoint st) as [ep|e]; [|reflexivity].
  unfold do_fetch, log, S3Endpoint.endpoint_request.
  unfold await, ret, try_catch, bind, emit, asks, throw.
  destruct (fetch w _) as [res|e]; cbn [fst snd];
    rewrite !requests_app; cbn [Spec.requests]; rewrite app_nil_r;
    split; reflexivity.
Qed.

End BucketProvisioning.

Section SigningTime.
Context {RT : Runtime}.

Import S3.

Lemma no_dot_app (a b : jsstring) : Props.no_dot a -> Props.no_dot b -> Props.no_dot (a ++ b).
Proof. unfold Props.no_dot. rewrite forallb_app. now intros -> ->. Qed.

Lemma no_dot_Number_toString (n : Z) : Props.no_dot (Number_toString n).
Proof.
  assert (Hd : forall s, forallb isDigit s = true -> Props.no_dot s).
  { induction s as [|c s IH]; [reflexivity|]. cbn [forallb].
    intros H. apply andb_prop in H. destruct H as [Hc Hs].
    unfold Props.no_dot. cbn [forallb]. fold (Props.no_dot s). rewrite (IH Hs).
    unfold isDigit in Hc. apply andb_prop in Hc. destruct Hc as [Hc _].
    destruct (N.eqb_spec c 46); [subst c; discriminate | reflexivity]. }
  destruct n as [|p|p].
  - reflexivity.
  - apply Hd. apply Number_toString_digits. lia.
  - destruct (Number_toString_negative p) as [ds [-> [_ H]]].
    unfold Props.no_dot. cbn [forallb]. apply (Hd ds H).
Qed.

Lemma no_dot_pad (w : nat) (n : Z) : Props.no_dot (pad w n).
Proof.
  unfold pad. apply no_dot_app; [|apply no_dot_Number_toString].
  induction (w - List.length (Number_toString n))%nat as [|k IH];
    [reflexivity | exact IH].
Qed.

Lemma no_dot_filter (f : N -> bool) (s : jsstring) :
  Props.no_dot s -> Props.no_dot (filter f s).
Proof.
  unfold Props.no_dot. induction s as [|c s IH]; [reflexivity|].
  cbn [forallb filter]. intros H. apply andb_prop in H.
  destruct H as [Hc Hs]. destruct (f c); [cbn [forallb]; rewrite Hc|];
    now apply IH.
Qed.

(** The fraction of a second goes, with its full stop. *)
Lemma remove_fraction_at_dot (s digits : jsstring) (z : N) (rest : jsstring) :
  Props.no_dot s -> digits <> [] -> forallb isDigit digits = true ->
  isDigit z = false ->
  remove_fraction (s ++ 46%N :: digits ++ z :: rest) = s ++ z :: rest.
Proof.
  intros Hs Hne Hd Hz. induction s as [|c s IH].
  - cbn [app remove_fraction]. destruct digits as [|d ds]; [congruence|].
    cbn [forallb] in Hd. apply andb_prop in Hd. destruct Hd as [Hd Hds].
    cbn [app]. rewrite Hd. cbn [N.eqb Pos.eqb andb dropWhile]. rewrite Hd.
    clear Hne Hd. induction ds as [|e ds IH];
      [cbn [app dropWhile]; now rewrite Hz|].
    cbn [forallb] in Hds. apply andb_prop in Hds. destruct Hds as [He Hds].
    cbn [app dropWhile]. rewrite He. now apply IH.
  - unfold Props.no_dot in Hs. cbn [forallb] in Hs. apply andb_prop in Hs.
    destruct Hs as [Hc Hs]. cbn [app remove_fraction].
    apply negb_true_iff in Hc. rewrite Hc. cbn [andb].
    now rewrite (IH Hs).
Qed.

Lemma pad_digits (w : nat) (n : Z) :
  (0 <= n)%Z -> pad w n <> [] /\ forallb isDigit (pad w n) = true.
Proof.
  intros Hn. destruct (Number_toString_digits n Hn) as [Hne Hd].
  unfold pad. split.
  - intros H. apply app_eq_nil in H. now destruct H.
  - rewrite forallb_app, Hd, andb_true_r.
    induction (w - List.length (Number_toString n))%nat as [|k IH];
      [reflexivity | exact IH].
Qed.

Lemma filter_digits (s : jsstring) :
  forallb isDigit s = true ->
  filter (fun c => negb ((c =? 45) || (c =? 58))%N) s = s.
Proof.
  induction s as [|c s IH]; [reflexivity|]. cbn [forallb filter].
  intros H. apply andb_prop in H. destruct H as [Hc Hs].
  rewrite (IH Hs). unfold isDigit in Hc. apply andb_prop in Hc.
  destruct Hc as [H1 H2]. apply N.leb_le in H1, H2.
  destruct (N.eqb_spec c 45); [lia|]. destruct (N.eqb_spec c 58); [lia|].
  reflexivity.
Qed.

(** The fields of a time value in terms of its whole seconds. *)
Lemma second_of_ms (t : Z) :
  (t mod 86400000 / 1000 = (t / 1000) mod 86400)%Z.
Proof.
  change 86400000%Z with (1000 * 86400)%Z. rewrite Z.rem_mul_r by lia.
  rewrite Z.mul_comm, Z.div_add by lia.
  rewrite Z.div_small by (apply Z.mod_pos_bound; lia). reflexivity.
Qed.

Lemma day_of_ms (t : Z) : (t / 86400000 = t / 1000 / 86400)%Z.
Proof. rewrite Z.div_div by lia. reflexivity. Qed.

Lemma hour_of_ms (t : Z) :
  (t mod 86400000 / 3600000 = (t / 1000) mod 86400 / 3600)%Z.
Proof. rewrite <- second_of_ms, Z.div_div by lia. reflexivity. Qed.

Lemma minute_of_ms (t : Z) :
  (t mod 86400000 / 60000 = (t / 1000) mod 86400 / 60)%Z.
Proof. rewrite <- second_of_ms, Z.div_div by lia. reflexivity. Qed.

(** The time stamp of a signature depends on the second only. *)
Lemma amzDate_seconds (t1 t2 : Z) :
  (t1 / 1000 = t2 / 1000)%Z ->
  remove_fraction (remove_dashes_colons (Date_toISOString t1))
  = remove_fraction (remove_dashes_colons (Date_toISOString t2)).
Proof.
  intros H.
  assert (Hshape : forall t,
    exists s, Props.no_dot s
      /\ forall t', (t' / 1000 = t / 1000)%Z ->
           remove_fraction (remove_dashes_colons (Date_toISOString t'))
           = s ++ [90%N]).
  { intros t.
    exists (remove_dashes_colons
              (let '(y, m, d) := civil_from_days (t / 1000 / 86400) in
               let sec := (t / 1000 mod 86400)%Z in
               (if ((0 <=? y) && (y <=? 9999))%Z then pad 4 y
                else (if (y <? 0)%Z then lit "-" else lit "+")
                     ++ pad 6 (Z.abs y))
               ++ lit "-" ++ pad 2 m ++ lit "-" ++ pad 2 d ++ lit "T"
               ++ pad 2 (sec / 3600) ++ lit ":"
               ++ pad 2 ((sec / 60) mod 60) ++ lit ":"
               ++ pad 2 (sec mod 60))).
    split.
    - apply no_dot_filter.
      destruct (civil_from_days (t / 1000 / 86400)) as [[y m] d].
      cbv zeta.
      repeat (apply no_dot_app;
              try apply no_dot_pad; try reflexivity).
      destruct ((0 <=? y) && (y <=? 9999))%Z; [apply no_dot_pad|].
      apply no_dot_app; [now destruct (y <? 0)%Z | apply no_dot_pad].
    - intros t' Ht'. unfold Date_toISOString.
      rewrite (day_of_ms t'), (hour_of_ms t'), (minute_of_ms t'),
        (second_of_ms t'), Ht'.
      destruct (civil_from_days (t / 1000 / 86400)) as [[y m] d].
      cbv zeta.
      destruct (pad_digits 3 (t' mod 86400000 mod 1000)) as [Hne Hd];
        [apply Z.mod_pos_bound; lia|].
      unfold remove_dashes_colons.
      rewrite !filter_app. rewrite (filter_digits _ Hd).
      change (filter _ (lit ".")) with [46%N].
      change (filter (fun c => negb ((c =? 45) || (c =? 58))%N) (lit "Z"))
        with [90%N].
      rewrite !app_assoc.
      rewrite <- (app_assoc _ [46%N]), <- (app_assoc _ (_ ++ _) [90%N]).
      rewrite <- (app_assoc [46%N]). cbn [app].
      rewrite remove_fraction_at_dot; trivial.
      rewrite <- !filter_app. apply no_dot_filter.
      repeat (apply no_dot_app;
              try apply no_dot_pad; try reflexivity).
      destruct ((0 <=? y) && (y <=? 9999))%Z; [apply no_dot_pad|].
      apply no_dot_app; [now destruct (y <? 0)%Z | apply no_dot_pad]. }
  destruct (Hshape t1) as [s [_ Hs]].
  rewrite (Hs t1 eq_refl), (Hs t2 (eq_sym H)). reflexivity.
Qed.

(** X9. A signature has the granularity of a second: two requests with
    the same options signed within the same second of the clock are the
    same, in their URL and in all four headers. *)
Theorem signRequest_second_granularity (o : SignOpts) (w1 w2 : Env) tr :
  (Date_now w1 / 1000 = Date_now w2 / 1000)%Z ->
  signRequest o w1 tr = signRequest o w2 tr.
Proof.
  intros H. unfold signRequest.
  destruct (URL_new (sr_path o) (sr_endpoint o)) as [u|]; [|reflexivity].
  unfold bind, asks, ret. cbv zeta.
  now rewrite (amzDate_seconds _ _ H).
Qed.

End SigningTime.

(* ================================================================== *)
(** ** Reasoning about what a command adds to the trace               *)
(* ================================================================== *)

Section TraceLogic.

Variable w : Env.
Variable P : Event -> Prop.

Lemma keeps_ret {A} (R : A -> Prop) (a : A) :
  R a -> Props.keeps w P R (ret a).
Proof.
  intros H tr. exists (Ret a), []. rewrite app_nil_r.
  split; [reflexivity|]. split; [constructor|].
  intros a' E. now injection E as <-.
Qed.

Lemma keeps_throw {A} (R : A -> Prop) (e : Exn) :
  Props.keeps w P R (throw e).
Proof.
  intros tr. exists (Throw e), []. rewrite app_nil_r.
  split; [reflexivity|]. split; [constructor | discriminate].
Qed.

Lemma keeps_exit {A} (R : A -> Prop) (n : Z) :
  Props.keeps w P R (process_exit n).
Proof.
  intros tr. exists (Exit n), []. rewrite app_nil_r.
  split; [reflexivity|]. split; [constructor | discriminate].
Qed.

Lemma keeps_emit (R : unit -> Prop) (e : Event) :
  P e -> R tt -> Props.keeps w P R (emit e).
Proof.
  intros He Hr tr. exists (Ret tt), [e].
  split; [reflexivity|]. split; [now constructor|].
  intros a E. now injection E as <-.
Qed.

Lemma keeps_log (R : unit -> Prop) (level : LogLevel) (msg : jsstring) :
  P (Log level msg) -> R tt -> Props.keeps w P R (log level msg).
Proof. apply keeps_emit. Qed.

Lemma keeps_asks {A} (R : A -> Prop) (f : Env -> A) :
  R (f w) -> Props.keeps w P R (asks f).
Proof.
  intros H tr. exists (Ret (f w)), []. rewrite app_nil_r.
  split; [reflexivity|]. split; [constructor|].
  intros a E. now injection E as <-.
Qed.

Lemma keeps_await {A} (R : A -> Prop) (p : Settled A) :
  (forall a, p = Fulfilled a -> R a) -> Props.keeps w P R (await p).
Proof.
  intros H. destruct p as [a|e]; [apply keeps_ret; now apply H|].
  apply keeps_throw.
Qed.

Lemma keeps_bind {A B} (R1 : A -> Prop) (R : B -> Prop) (c : IO A)
  (k : A -> IO B) :
  Props.keeps w P R1 c ->
  (forall a, R1 a -> Props.keeps w P R (k a)) ->
  Props.keeps w P R (bind c k).
Proof.
  intros Hc Hk tr. destruct (Hc tr) as [o [ev [E [Hev Hr]]]].
  unfold bind. rewrite E. destruct o as [a|e|n].
  - destruct (Hk a (Hr a eq_refl) (tr ++ ev)) as [o' [ev' [E' [Hev' Hr']]]].
    exists o', (ev ++ ev'). rewrite E', app_assoc.
    split; [reflexivity|]. split; [|exact Hr'].
    apply Forall_app. now split.
  - exists (Throw e), ev. split; [reflexivity|].
    split; [exact Hev | discriminate].
  - exists (Exit n), ev. split; [reflexivity|].
    split; [exact Hev | discriminate].
Qed.

Lemma keeps_try_catch {A} (R : A -> Prop) (c : IO A) (h : Exn -> IO A) :
  Props.keeps w P R c ->
  (forall e, Props.keeps w P R (h e)) ->
  Props.keeps w P R (try_catch c h).
Proof.
  intros Hc Hh tr. destruct (Hc tr) as [o [ev [E [Hev Hr]]]].
  unfold try_catch. rewrite E. destruct o as [a|e|n].
  - exists (Ret a), ev. split; [reflexivity|]. now split.
  - destruct (Hh e (tr ++ ev)) as [o' [ev' [E' [Hev' Hr']]]].
    exists o', (ev ++ ev'). rewrite E', app_assoc.
    split; [reflexivity|]. split; [|exact Hr'].
    apply Forall_app. now split.
  - exists (Exit n), ev. split; [reflexivity|].
    split; [exact Hev | discriminate].
Qed.

Lemma keeps_weaken {A} (R1 R : A -> Prop) (c : IO A) :
  Props.keeps w P R1 c ->
  (forall a, R1 a -> R a) ->
  Props.keeps w P R c.
Proof.
  intros Hc Hi tr. destruct (Hc tr) as [o [ev [E [Hev Hr]]]].
  exists o, ev. split; [exact E|]. split; [exact Hev|].
  intros a Ha. apply Hi. now apply Hr.
Qed.

(** [await] of what the world answers. *)
Lemma keeps_answer {A} (R : A -> Prop) (f : Env -> Settled A) :
  (forall a, f w = Fulfilled a -> R a) ->
  Props.keeps w P R (r <- asks f ;; await r).
Proof.
  intros H. apply (keeps_bind (fun r => r = f w)).
  - now apply keeps_asks.
  - intros r ->. now apply keeps_await.
Qed.

(** A sequence of log lines. *)
Lemma keeps_log_lines (level : LogLevel) (lines : list jsstring)
  (R : unit -> Prop) :
  (forall l m, P (Log l m)) -> R tt ->
  Props.keeps w P R
    (fold_right (fun line k => log level line ;; k) (ret tt) lines).
Proof.
  intros Hlog Hr. induction lines as [|l lines IH]; cbn [fold_right].
  - now apply keeps_ret.
  - apply (keeps_bind (fun _ => True)); [now apply keeps_log | intros _ _].
    exact IH.
Qed.

(** [resolvePassphrase] returns the highest-priority passphrase. *)
Lemma keeps_resolvePassphrase (opts : BackupCli.BackupOptions) :
  P KeychainRead -> (forall l m, P (Log l m)) ->
  Props.keeps w P
    (fun pass =>
       Spec.highest_priority (Spec.passphrase_chain opts w) = Some pass)
    (BackupCli.resolvePassphrase opts).
Proof.
  intros Hk Hlog tr. rewrite resolvePassphrase_cases.
  unfold Spec.passphrase_chain, Spec.highest_priority, Spec.present,
    Spec.keychain_value.
  destruct (BackupCli.passphrase opts) as [[|c s]|];
    cbn [truthy truthy_str BackupCli.the].
  2: { exists (Ret (c :: s)), []. rewrite app_nil_r. split; [reflexivity|].
       split; [constructor|]. intros a E. now injection E as <-. }
  all: destruct (process_env w (lit "CLAWSTASH_PASSPHRASE")) as [[|c s]|];
    cbn [truthy truthy_str BackupCli.the].
  2, 5: exists (Ret (c :: s)), []; rewrite app_nil_r; split; [reflexivity|];
    split; [constructor|]; intros a E; now injection E as <-.
  all: destruct (getKeychainPassphrase w) as [[[|c s]|]|e];
    cbn [truthy truthy_str BackupCli.the].
  all: eexists _, _; (split; [reflexivity|]); split;
    try (intros a E; first [discriminate | now injection E as <-]);
    unfold Spec.no_passphrase_events; repeat constructor; auto.
Qed.

(** [getCategoryIncludes] only writes to the log. *)
Lemma keeps_lookup_includes (table : list (jsstring * list jsstring))
  (only : option jsstring) :
  (forall l m, P (Log l m)) ->
  Props.keeps w P
    (fun v => match v with
              | NoIncludes => truthy only = false
              | Globs globs =>
                  truthy only = true
                  /\ own_property table (BackupCli.the only) = Some globs
              | PrototypeMember name => name = BackupCli.the only
              end)
    (BackupCli.lookup_includes table only).
Proof.
  intros Hlog. unfold BackupCli.lookup_includes.
  destruct (truthy only) eqn:Ht; cbn [negb]; [|now apply keeps_ret].
  unfold get_property.
  destruct (own_property table (BackupCli.the only)) eqn:Hown.
  - apply keeps_ret. now split.
  - destruct (existsb _ _).
    + now apply keeps_ret.
    + apply (keeps_bind (fun _ => True)); [now apply keeps_log | intros _ _].
      apply (keeps_bind (fun _ => True)); [now apply keeps_log | intros _ _].
      apply keeps_exit.
Qed.

End TraceLogic.

(** One step of a proof of [Props.keeps] that needs no fact about the
    values passed along. *)
Ltac keeps_step :=
  match goal with
  | |- Props.keeps _ _ _ (bind (bind (asks _) (fun r => await r)) _) =>
      apply (keeps_bind _ _ (fun _ => True));
        [apply keeps_answer; intros; exact I | intros ? _]
  | |- Props.keeps _ _ _ (bind _ _) =>
      apply (keeps_bind _ _ (fun _ => True)); [|intros ? _]
  | |- Props.keeps _ _ _ (ret _) => apply keeps_ret
  | |- Props.keeps _ _ _ (throw _) => apply keeps_throw
  | |- Props.keeps _ _ _ (process_exit _) => apply keeps_exit
  | |- Props.keeps _ _ _ (emit _) => apply keeps_emit
  | |- Props.keeps _ _ _ (log _ _) => apply keeps_log
  | |- Props.keeps _ _ _ (asks _) => apply keeps_asks
  | |- Props.keeps _ _ _ (await _) => apply keeps_await; intros ? _
  | |- Props.keeps _ _ _ (try_catch _ _) =>
      apply keeps_try_catch; [|intros ?]
  | |- Props.keeps _ _ _ (BackupCli.resolvePassphrase _) =>
      eapply keeps_weaken; [apply keeps_resolvePassphrase|]
  | |- Props.keeps _ _ _ (BackupCli.getCategoryIncludes _) =>
      eapply keeps_weaken; [apply keeps_lookup_includes|]
  | |- Props.keeps _ _ _ (RestoreCli.getCategoryIncludes _) =>
      eapply keeps_weaken; [apply keeps_lookup_includes|]
  | |- Props.keeps _ _ _ (if ?b then _ else _) => destruct b
  | |- Props.keeps _ _ _ (match ?x with _ => _ end) => destruct x
  | |- True => exact I
  | |- forall _, _ -> True => intros; exact I
  end.

(** Pass over a step of a sequence whose value is of no interest. *)
Ltac keeps_skip :=
  apply (keeps_bind _ _ (fun _ => True));
    [solve [repeat keeps_step; try (intros; exact I)] | intros ? _].

(* ================================================================== *)
(** ** [src/cli/backup.ts]: what [backupCommand] never does           *)
(* ================================================================== *)

Section BackupCommandSafety.
Context {RT : Runtime}.

Import BackupCli.

Lemma forgets_app (a b : list Event) :
  Props.forgets (a ++ b) = Props.forgets a ++ Props.forgets b.
Proof.
  induction a as [|e a IH]; [reflexivity|].
  destruct e; cbn [app Props.forgets]; rewrite IH; reflexivity.
Qed.

Lemma forgets_none (events : list Event) :
  Forall Props.no_forget events -> Props.forgets events = [].
Proof.
  induction 1 as [|e events He _ IH]; [reflexivity|].
  destruct e; cbn [Props.forgets]; solve [exact IH | destruct He].
Qed.

(** The report of a finished backup is log output. *)
Lemma keeps_report w (P : Event -> Prop) (opts : BackupOptions)
  (summary : ResticBackupSummary) :
  P LogBlank -> (forall m, P (LogHeader m)) ->
  (forall k v s, P (LogKv k v s)) ->
  Props.keeps w P (fun _ => True) (report opts summary).
Proof.
  intros Hb Hh Hkv. unfold report. cbv zeta.
  repeat keeps_step; auto.
Qed.

(** X10. [backupCommand] asks for a retention run only when it was
    neither a dry run nor told to skip retention: with [dryRun] set or
    [forget] set to [false], no world makes it start one. *)
Theorem backupCommand_retention_only_when_asked (opts : BackupOptions)
  (w : Env) tr :
  dryRun opts = Some true \/ forget opts = Some false ->
  Props.forgets (snd (backupCommand opts w tr)) = Props.forgets tr.
Proof.
  intros Hflags.
  assert (H : Props.keeps w Props.no_forget (fun _ => True)
                (backupCommand opts)).
  { unfold backupCommand.
    replace (negb match dryRun opts with Some true => true | _ => false end
             && negb match forget opts with Some false => true | _ => false end)
      with false
      by (destruct Hflags as [-> | ->]; [reflexivity|];
          now destruct (dryRun opts) as [[]|]).
    repeat keeps_step; try (intros; exact I).
    apply keeps_report; intros; exact I. }
  destruct (H tr) as [o [events [E [Hev _]]]]. rewrite E. cbn [snd].
  now rewrite forgets_app, (forgets_none _ Hev), app_nil_r.
Qed.

(** X11. A failure of the engine's backup run is fatal, unlike a
    failure of the retention run: when every backup run fails,
    [backupCommand] does not return, and it asks for no retention run. *)
Theorem backupCommand_engine_failure_is_fatal (opts : BackupOptions)
  (w : Env) tr :
  (forall dir ro bo, exists e, restic_backup w dir ro bo = Rejected e) ->
  (forall a, fst (backupCommand opts w tr) <> Ret a)
  /\ Props.forgets (snd (backupCommand opts w tr)) = Props.forgets tr.
Proof.
  intros Hfail.
  assert (H : Props.keeps w Props.no_forget (fun _ => False)
                (backupCommand opts)).
  { unfold backupCommand.
    repeat first
      [ match goal with
        | |- Props.keeps _ _ _ (bind (try_catch _ _) _) =>
            apply (keeps_bind _ _ (fun _ => False)); [|intros ? []];
            apply keeps_try_catch; [|intros ?];
            [apply (keeps_bind _ _ (fun _ => True));
             [apply keeps_emit; exact I | intros _ _];
             apply (keeps_bind _ _ (fun _ => False)); [|intros ? []];
             apply keeps_answer; intros summary Ha; cbv beta in Ha;
             match type of Ha with
             | restic_backup w ?d ?o ?b = _ =>
                 destruct (Hfail d o b) as [e He]; congruence
             end
            |]
        end
      | keeps_step ];
      try (intros; exact I). }
  destruct (H tr) as [o [events [E [Hev Hr]]]]. rewrite E. cbn [fst snd].
  split.
  - intros a ->. exact (Hr a eq_refl).
  - now rewrite forgets_app, (forgets_none _ Hev), app_nil_r.
Qed.

(** X12. Whatever the world answers, [backupCommand] starts a backup
    only of the directory of the configuration, after that directory
    was found and the engine was made available, with the storage of
    the configuration and the highest-priority passphrase, the default
    exclusions before the configured ones, and the tag [clawstash]
    first. *)
Theorem backupCommand_backup_call (opts : BackupOptions) (w : Env) tr :
  exists events,
    snd (backupCommand opts w tr) = tr ++ events
    /\ forall dir ro bo,
         In (CallBackup dir ro bo) events ->
         exists cfg,
           requireConfig w = Fulfilled cfg
           /\ dir = openclawDir cfg
           /\ scanOpenClawDir_exists w dir = Fulfilled true
           /\ ensureRestic w (resticVersion cfg) = Fulfilled tt
           /\ ro_storage ro = storage cfg
           /\ Spec.highest_priority (Spec.passphrase_chain opts w)
              = Some (ro_passphrase ro)
           /\ bo_excludes bo
              = Some (Openclaw.DEFAULT_EXCLUDES ++ exclude cfg)
           /\ (exists more, bo_tags bo = Some (lit "clawstash" :: more))
           /\ bo_dryRun bo = dryRun opts.
Proof.
  pose (P := fun e : Event =>
               match e with
               | CallBackup dir ro bo =>
                   exists cfg,
                     requireConfig w = Fulfilled cfg
                     /\ dir = openclawDir cfg
                     /\ scanOpenClawDir_exists w dir = Fulfilled true
                     /\ ensureRestic w (resticVersion cfg) = Fulfilled tt
                     /\ ro_storage ro = storage cfg
                     /\ Spec.highest_priority (Spec.passphrase_chain opts w)
                        = Some (ro_passphrase ro)
                     /\ bo_excludes bo
                        = Some (Openclaw.DEFAULT_EXCLUDES ++ exclude cfg)
                     /\ (exists more,
                           bo_tags bo = Some (lit "clawstash" :: more))
                     /\ bo_dryRun bo = dryRun opts
               | _ => True
               end).
  assert (H : Props.keeps w P (fun _ => True) (backupCommand opts)).
  { unfold backupCommand.
    apply (keeps_bind _ _ (fun cfg => requireConfig w = Fulfilled cfg));
      [apply keeps_answer; trivial | intros cfg Hcfg].
    apply (keeps_bind _ _ _ _ _ _
             (keeps_resolvePassphrase w P opts I (fun _ _ => I))).
    intros pass Hpass.
    apply (keeps_bind _ _ (fun _ => True));
      [apply keeps_emit; exact I | intros _ _].
    apply (keeps_bind _ _ (fun u => ensureRestic w (resticVersion cfg)
                                   = Fulfilled u));
      [apply keeps_answer; trivial | intros [] Hensure].
    apply (keeps_bind _ _ (fun found =>
                             scanOpenClawDir_exists w (openclawDir cfg)
                             = Fulfilled found));
      [apply keeps_answer; trivial | intros found Hfound].
    destruct found; cbn [negb];
      [|repeat keeps_step; try (intros; exact I)].
    keeps_step.
    apply (keeps_bind _ _ (fun _ => True));
      [repeat keeps_step; try (intros; exact I) | intros _ _].
    cbv zeta.
    apply (keeps_bind _ _ (fun _ => True));
      [repeat keeps_step; try (intros; exact I) | intros includes _].
    apply (keeps_bind _ _ (fun _ => True));
      [apply keeps_emit; exact I | intros _ _].
    apply (keeps_bind _ _ (fun _ => True)).
    - apply keeps_try_catch;
        [|intros err; repeat keeps_step; try (intros; exact I)].
      apply (keeps_bind _ _ (fun _ => True)).
      + apply keeps_emit; [|exact I]. exists cfg. cbn.
        repeat (split; trivial). now eexists.
      + intros _ _. repeat keeps_step; try (intros; exact I).
        apply keeps_report; intros; exact I.
    - intros _ _. repeat keeps_step; try (intros; exact I). }
  destruct (H tr) as [o [events [E [Hev _]]]]. exists events.
  rewrite E. split; [reflexivity|]. intros dir ro bo Hin.
  rewrite Forall_forall in Hev. exact (Hev _ Hin).
Qed.

End BackupCommandSafety.

(* ================================================================== *)
(** ** [src/utils/fs.ts] and [src/cli/restore.ts]: relative times     *)
(* ================================================================== *)

Section RelativeTimes.
Context {RT : Runtime}.

Lemma gap_space : Spec.gap (lit " ").
Proof. split; [discriminate | reflexivity]. Qed.

(** A count followed by a unit, as [formatTimeAgo] prints it, is read
    back by [findSnapshotByTime] as that many units before now. *)
Lemma targetTime_shown (n : Z) (unit spaced : jsstring) (w : Env) tr :
  (0 <= n)%Z -> In unit RestoreCli.unit_words ->
  spaced = lit " " ++ unit ->
  Spec.safe (Date_now w) ->
  Spec.safe (n * (1000 * Spec.unit_seconds unit)) ->
  Spec.safe (Date_now w - n * (1000 * Spec.unit_seconds unit)) ->
  RestoreCli.targetTime
    (Number_toString n ++ spaced ++ Fs.plural n ++ lit " ago") w tr
  = (Ret (Finite (Date_now w - n * (1000 * Spec.unit_seconds unit))%Z), tr).
Proof.
  intros Hn Hunit -> Hnow Hprod Htarget.
  destruct (Number_toString_digits n Hn) as [Hne Hd].
  pose proof (targetTime_phrase (Number_toString n) (lit " ") unit
                (negb (n =? 1)%Z) (lit " ") w tr Hne Hd gap_space gap_space
                Hunit Hnow) as H.
  rewrite <- decimal_value_denoted in H.
  rewrite (decimal_value_Number_toString n Hn) in H.
  rewrite <- (H Hprod Htarget).
  f_equal. unfold Spec.relative_phrase, Fs.plural.
  rewrite <- !app_assoc. destruct (n =? 1)%Z; reflexivity.
Qed.

Lemma floor_bounds (d u : Z) :
  (0 < u)%Z -> (d / u * u <= d < d / u * u + u)%Z.
Proof.
  intros Hu. pose proof (Z.div_mod d u ltac:(lia)).
  pose proof (Z.mod_pos_bound d u Hu). lia.
Qed.

(** X13. What [formatTimeAgo] shows for a date between one minute and
    thirty days old is a relative time that [findSnapshotByTime]
    understands, and the instant it is read back as lies at or after
    the date, less than a day after it. The date is a valid one: its
    time value is at most 8.64e15 in magnitude. *)
Theorem formatTimeAgo_round_trip (t : Z) (w : Env) tr :
  Props.valid_date t ->
  (60000 <= Date_now w - t < 2592000000)%Z ->
  exists shown target,
    Fs.formatTimeAgo (Some t) w tr = (Ret shown, tr)
    /\ RestoreCli.targetTime shown w tr = (Ret (Finite target), tr)
    /\ (t <= target < t + 86400000)%Z.
Proof.
  intros Hdate Hage. unfold Props.valid_date in Hdate.
  unfold Fs.formatTimeAgo, bind, asks, ret. cbv zeta.
  set (diff := (Date_now w - t)%Z) in *.
  assert (Hs : (diff / 1000 <? 60)%Z = false).
  { apply Z.ltb_ge. apply Z.div_le_lower_bound; lia. }
  rewrite Hs.
  assert (Hm : (diff / 1000 / 60 = diff / 60000)%Z)
    by (rewrite Z.div_div by lia; reflexivity).
  assert (Hh : (diff / 1000 / 60 / 60 = diff / 3600000)%Z)
    by (rewrite !Z.div_div by lia; reflexivity).
  assert (Hd : (diff / 1000 / 60 / 60 / 24 = diff / 86400000)%Z)
    by (rewrite !Z.div_div by lia; reflexivity).
  rewrite Hd, Hh, Hm.
  assert (Hdays : (diff / 86400000 <? 30)%Z = true).
  { apply Z.ltb_lt. apply Z.div_lt_upper_bound; lia. }
  pose proof (floor_bounds diff 60000 ltac:(lia)) as B1.
  pose proof (floor_bounds diff 3600000 ltac:(lia)) as B2.
  pose proof (floor_bounds diff 86400000 ltac:(lia)) as B3.
  assert (Hin : forall u, In u [lit "minute"; lit "hour"; lit "day"] ->
                           In u RestoreCli.unit_words)
    by (intros u Hu; cbn in Hu |- *; tauto).
  assert (Hnow : Spec.safe (Date_now w))
    by (unfold Spec.safe; subst diff; lia).
  destruct (Z.ltb_spec (diff / 60000) 60) as [M|M];
    [|destruct (Z.ltb_spec (diff / 3600000) 24) as [H|H]; [|rewrite Hdays]];
    eexists _, _; (split; [reflexivity|]).
  - split; [apply (targetTime_shown _ (lit "minute"));
            [lia | apply Hin; cbn; tauto | reflexivity | exact Hnow | ..];
            change (Spec.unit_seconds (lit "minute")) with 60%Z;
            unfold Spec.safe; subst diff; lia|].
    change (Spec.unit_seconds (lit "minute")) with 60%Z. subst diff. lia.
  - split; [apply (targetTime_shown _ (lit "hour"));
            [lia | apply Hin; cbn; tauto | reflexivity | exact Hnow | ..];
            change (Spec.unit_seconds (lit "hour")) with 3600%Z;
            unfold Spec.safe; subst diff; lia|].
    change (Spec.unit_seconds (lit "hour")) with 3600%Z. subst diff. lia.
  - split; [apply (targetTime_shown _ (lit "day"));
            [lia | apply Hin; cbn; tauto | reflexivity | exact Hnow | ..];
            change (Spec.unit_seconds (lit "day")) with 86400%Z;
            unfold Spec.safe; subst diff; lia|].
    change (Spec.unit_seconds (lit "day")) with 86400%Z. subst diff. lia.
Qed.

End RelativeTimes.

(* ================================================================== *)
(** ** [src/cli/restore.ts]: [restoreCommand]                         *)
(* ================================================================== *)

Section RestoreCommandRuns.
Context {RT : Runtime}.

Import RestoreCommand.

Lemma restores_app (a b : list Event) :
  Props.restores (a ++ b) = Props.restores a ++ Props.restores b.
Proof. unfold Props.restores. now rewrite spawned_app, filter_app. Qed.

Lemma restores_none (events : list Event) :
  Forall Props.no_restore events -> Props.restores events = [].
Proof.
  unfold Props.restores.
  induction 1 as [|e events He _ IH]; [reflexivity|].
  destruct e; cbn [Props.spawned]; try exact IH.
  cbn [filter]. cbn [Props.no_restore] in He. now rewrite He.
Qed.

(** A step that starts no restore leaves the restores as they are. *)
Lemma keeps_restores {A} (w : Env) (R : A -> Prop) (c : IO A) tr :
  Props.keeps w Props.no_restore R c ->
  Props.restores (snd (c w tr)) = Props.restores tr.
Proof.
  intros H. destruct (H tr) as [o [ev [E [Hev _]]]]. rewrite E. cbn [snd].
  now rewrite restores_app, (restores_none _ Hev), app_nil_r.
Qed.

(** When a sequence returns, its first step has returned. *)
Lemma bind_returns {A B} (w : Env) (R : A -> Prop) (c : IO A)
  (k : A -> IO B) tr b tr2 :
  Props.keeps w Props.no_restore R c ->
  bind c k w tr = (Ret b, tr2) ->
  exists a tr1,
    R a /\ Props.restores tr1 = Props.restores tr
    /\ k a w tr1 = (Ret b, tr2).
Proof.
  intros H E. destruct (H tr) as [o [ev [Ec [Hev Hr]]]].
  unfold bind in E. rewrite Ec in E. destruct o as [a|e|n]; try discriminate.
  exists a, (tr ++ ev). split; [now apply Hr|]. split; [|exact E].
  now rewrite restores_app, (restores_none _ Hev), app_nil_r.
Qed.

(** What a step returns, it returns in some run. *)
Lemma keeps_returned {A} (w : Env) (P : Event -> Prop) (c : IO A) :
  Props.keeps w P (fun _ => True) c ->
  Props.keeps w P (fun a => exists tr tr', c w tr = (Ret a, tr')) c.
Proof.
  intros H tr. destruct (H tr) as (o & ev & E & Hev & _).
  exists o, ev. split; [exact E|]. split; [exact Hev|].
  intros a ->. now exists tr, (tr ++ ev).
Qed.

(** One run of the engine writes to the log and starts one process. *)
Lemma keeps_runResticRaw (w : Env) (P : Event -> Prop)
  (args : list jsstring) (ro : ResticOptions) (timeout : Z) :
  (forall l m, P (Log l m)) ->
  (forall binary env,
     P (Spawn binary (Restic.buildExtraArgs (ro_storage ro) ++ args) env
          timeout)) ->
  Props.keeps w P (fun _ => True) (Restic.runResticRaw args ro timeout).
Proof.
  intros Hlog Hspawn tr. rewrite runResticRaw_cases.
  destruct (Restic.buildEnv ro) as [env|e].
  - cbv zeta.
    destruct (execFile w (getResticBinaryPath w) _ env timeout)
      as [[out err]|e].
    + cbn [fst snd]. rewrite <- app_assoc.
      eexists _, _. split; [reflexivity|]. split; [|trivial].
      destruct (truthy_str err); repeat constructor; auto.
    + eexists _, _. split; [reflexivity|].
      split; [repeat constructor; auto | trivial].
  - exists (Throw e), []. rewrite app_nil_r. split; [reflexivity|].
    split; [constructor | trivial].
Qed.

(** The extra arguments of the engine never ask for a restore. *)
Lemma listing_no_restore (st : StorageConfig) :
  Props.is_restore (Restic.buildExtraArgs st
                    ++ [lit "snapshots"; lit "--json"]) = false.
Proof. unfold Restic.buildExtraArgs. now destruct (provider st). Qed.

(** Listing the repository writes to the log and starts the process
    that lists, which is no restore; what it returns is what the engine
    lists. *)
Lemma keeps_listSnapshots (w : Env) (deps : Collaborators)
  (ro : ResticOptions) :
  Props.keeps w Props.no_restore (Props.lists deps w ro)
    (listSnapshots deps ro).
Proof.
  unfold listSnapshots.
  apply (keeps_bind _ _
           (fun listed => exists tr tr',
                ResticOps.listSnapshots ro None w tr = (Ret listed, tr'))).
  - apply keeps_returned. unfold ResticOps.listSnapshots, ResticOps.runRestic.
    cbn [Restic.flag_each app].
    apply (keeps_bind _ _ (fun _ => True)); [|intros; now apply keeps_ret].
    apply (keeps_bind _ _ (fun _ => True)); [|intros; now apply keeps_ret].
    apply keeps_runResticRaw; [intros; exact I|].
    intros binary env. cbn [Props.no_restore]. apply listing_no_restore.
  - intros listed (tr0 & tr1 & E). apply keeps_ret.
    now exists tr0, listed, tr1.
Qed.

(** [formatTimeAgo] leaves no trace. *)
Lemma keeps_formatTimeAgo w (P : Event -> Prop) (date : option Z) :
  Props.keeps w P (fun _ => True) (Fs.formatTimeAgo date).
Proof.
  unfold Fs.formatTimeAgo. cbv zeta.
  apply (keeps_bind _ _ (fun _ => True)); [now apply keeps_asks|].
  intros now _. destruct date as [t|]; [|apply keeps_throw].
  repeat keeps_step.
Qed.

(** [findSnapshotByTime] only writes to the log, and what it finds is
    one of the snapshots. *)
Lemma keeps_findSnapshotByTime w (P : Event -> Prop)
  (snapshots : list ResticSnapshot) (timeStr : jsstring) :
  (forall l m, P (Log l m)) ->
  Props.keeps w P
    (fun found => forall snap, found = Some snap -> In snap snapshots)
    (RestoreCli.findSnapshotByTime snapshots timeStr).
Proof.
  intros Hlog. unfold RestoreCli.findSnapshotByTime.
  apply (keeps_bind _ _ (fun _ => True)).
  - unfold RestoreCli.targetTime.
    destruct (RestoreCli.relativeMatch timeStr) as [[digits unit]|].
    + repeat keeps_step.
    + destruct (Date_getTime timeStr); repeat keeps_step; auto.
  - intros target _. apply keeps_ret. intros snap Hsnap.
    exact (closest_In snapshots target snap Hsnap).
Qed.

(** The selection only writes to the log, and selects one of the
    snapshots. *)
Lemma keeps_select w (P : Event -> Prop) (opts : RestoreOptions)
  (snapshots : list ResticSnapshot) (latest : ResticSnapshot) :
  (forall l m, P (Log l m)) ->
  In latest snapshots ->
  Props.keeps w P (fun snap => In snap snapshots)
    (select opts snapshots latest).
Proof.
  intros Hlog Hlatest. unfold select, ago.
  destruct (truthy (at_ opts)).
  - apply (keeps_bind _ _ _ _ _ _
             (keeps_findSnapshotByTime w P snapshots _ Hlog)).
    intros [snap|] Hfound; [|repeat keeps_step; auto].
    apply (keeps_bind _ _ (fun _ => True)); [apply keeps_formatTimeAgo|].
    intros when _.
    apply (keeps_bind _ _ (fun _ => True)); [now apply keeps_log|].
    intros _ _. apply keeps_ret. now apply Hfound.
  - apply (keeps_bind _ _ (fun _ => True)); [apply keeps_formatTimeAgo|].
    intros when _.
    apply (keeps_bind _ _ (fun _ => True)); [now apply keeps_log|].
    intros _ _. now apply keeps_ret.
Qed.

(** The confirmation step only writes to the log; it lets a dry run
    pass, and stops a run that would overwrite the configured
    directory unless the answer is yes. *)
Lemma keeps_confirm w (P : Event -> Prop) (deps : Collaborators)
  (opts : RestoreOptions) (selected : ResticSnapshot) (dir : jsstring) :
  P LogBlank -> (forall l m, P (Log l m)) ->
  Props.keeps w P
    (fun proceed =>
       (proceed = false ->
        dry opts = false /\ truthy (target opts) = false)
       /\ (dry opts = false -> truthy (target opts) = false ->
           pathExists deps dir = true ->
           (forall msg, confirmed deps msg <> Some true) ->
           proceed = false))
    (confirm deps opts selected dir).
Proof.
  intros Hblank Hlog. unfold confirm.
  destruct (dry opts); cbn [negb];
    [apply keeps_ret; split; [discriminate | discriminate]|].
  destruct (pathExists deps dir); cbn [andb];
    [|apply keeps_ret; split; [discriminate | intros _ _; discriminate]].
  destruct (truthy (target opts)); cbn [negb];
    [apply keeps_ret; split; [discriminate | intros _; discriminate]|].
  apply (keeps_bind _ _ (fun _ => True)); [now apply keeps_emit|].
  intros _ _.
  apply (keeps_bind _ _ (fun _ => True)); [now apply keeps_log|].
  intros _ _.
  destruct (confirmed deps _) as [[]|] eqn:Hc.
  - apply keeps_ret. split; [discriminate|].
    intros _ _ _ Hno. now destruct (Hno _ Hc).
  - apply (keeps_bind _ _ (fun _ => True)); [now apply keeps_log|].
    intros _ _. apply keeps_ret. now split.
  - apply (keeps_bind _ _ (fun _ => True)); [now apply keeps_log|].
    intros _ _. apply keeps_ret. now split.
Qed.

(** X14. Without snapshots nothing is restored: when what the engine
    lists for the repository is read as the empty list,
    [restoreCommand] does not return and starts no restore process. *)
Theorem restoreCommand_without_snapshots (deps : Collaborators)
  (opts : RestoreOptions) (w : Env) tr :
  Props.lists_nothing deps w ->
  (forall a, fst (restoreCommand deps opts w tr) <> Ret a)
  /\ Props.restores (snd (restoreCommand deps opts w tr))
     = Props.restores tr.
Proof.
  intros Hempty.
  assert (H : Props.keeps w Props.no_restore (fun _ => False)
                (restoreCommand deps opts)).
  { unfold restoreCommand, resolvePassphrase.
    do 5 keeps_skip.
    apply (keeps_bind _ _ _ _ _ _ (keeps_listSnapshots w deps _)).
    intros snapshots Hlists. rewrite (Hempty _ _ Hlists).
    keeps_skip. cbn [rev]. repeat keeps_step; exact I. }
  split.
  - intros a Ha. destruct (H tr) as [o [ev [E [_ Hr]]]].
    rewrite E in Ha. exact (Hr a Ha).
  - exact (keeps_restores w _ _ tr H).
Qed.

(** X15. A restore over the configured directory needs a yes: without
    [--target] and without [--dry-run], when the directory of the
    configuration exists and the question is not answered with yes,
    [restoreCommand] starts no restore process, whatever else the world
    answers. *)
Theorem restoreCommand_needs_confirmation (deps : Collaborators)
  (opts : RestoreOptions) (w : Env) tr :
  target opts = None ->
  dry opts = false ->
  (forall cfg, requireConfig w = Fulfilled cfg ->
               pathExists deps (openclawDir cfg) = true) ->
  (forall msg, confirmed deps msg <> Some true) ->
  Props.restores (snd (restoreCommand deps opts w tr)) = Props.restores tr.
Proof.
  intros Htarget Hdry Hexists Hno.
  apply (keeps_restores w (fun _ => True)).
  unfold restoreCommand, resolvePassphrase.
  apply (keeps_bind _ _ (fun cfg => requireConfig w = Fulfilled cfg));
    [apply keeps_answer; trivial | intros cfg Hcfg].
  do 4 keeps_skip.
  apply (keeps_bind _ _ _ _ _ _ (keeps_listSnapshots w deps _)).
  intros snapshots _.
  keeps_skip.
  destruct (rev snapshots) as [|latest earlier] eqn:Hrev;
    [repeat keeps_step; exact I|].
  apply (keeps_bind _ _ (fun _ => True)).
  { eapply keeps_weaken;
      [apply (keeps_select w _ opts snapshots latest (fun _ _ => I))
      |trivial].
    apply in_rev. rewrite Hrev. now left. }
  intros selected _. cbv zeta.
  eapply keeps_bind;
    [apply (keeps_confirm w _ deps opts selected _ I (fun _ _ => I))|].
  intros proceed [_ Hstop].
  rewrite Htarget in Hstop.
  rewrite (Hstop Hdry eq_refl (Hexists cfg Hcfg) Hno). cbn [negb].
  now apply keeps_ret.
Qed.

(** When a guarded block returns and its handler cannot, the block
    itself has returned. *)
Lemma try_catch_returns {A} (c : IO A) (h : Exn -> IO A) (w : Env) tr a tr2 :
  (forall e tr1, fst (h e w tr1) <> Ret a) ->
  try_catch c h w tr = (Ret a, tr2) ->
  c w tr = (Ret a, tr2).
Proof.
  intros Hh E. unfold try_catch in E.
  destruct (c w tr) as [[x|e|n] tr1]; try discriminate; [exact E|].
  exfalso. apply (Hh e tr1). now rewrite E.
Qed.

Lemma bind_inv {A B} (c : IO A) (k : A -> IO B) (w : Env) tr b tr2 :
  bind c k w tr = (Ret b, tr2) ->
  exists a tr1, c w tr = (Ret a, tr1) /\ k a w tr1 = (Ret b, tr2).
Proof.
  unfold bind. destruct (c w tr) as [[a|e|n] tr1]; try discriminate.
  intros E. now exists a, tr1.
Qed.

(** The arguments of [restore] ask for a restore. *)
Lemma restore_is_restore (extra rest : list jsstring) :
  Props.is_restore (extra ++ lit "restore" :: rest) = true.
Proof.
  unfold Props.is_restore. rewrite existsb_app. cbn [existsb].
  rewrite str_eqb_refl. cbn [orb]. apply orb_true_r.
Qed.

(** A [restore] that returns has started one restore process. *)
Lemma restore_spawned (snapshotId dir : jsstring) (ro : ResticOptions)
  (includes : IncludesValue) (w : Env) tr tr1 :
  ResticOps.restore snapshotId dir ro
    (Some (ResticOps.mkRestoreCallOptions includes None)) w tr
  = (Ret tt, tr1) ->
  exists globs,
    (includes = NoIncludes /\ globs = [] \/ includes = Globs globs)
    /\ Props.restores tr1
       = Props.restores tr
         ++ [Restic.buildExtraArgs (ro_storage ro)
             ++ [lit "restore"; snapshotId; lit "--target"; dir]
             ++ flat_map (fun g => [lit "--include"; g]) globs].
Proof.
  unfold ResticOps.restore. cbn [ResticOps.rc_include ResticOps.rc_exclude
                                   Restic.flag_each].
  intros E. apply bind_inv in E. destruct E as (args & tr0 & Ea & E).
  apply bind_inv in E. destruct E as (out & tr' & Erun & E).
  injection E as <-.
  pose proof (runResticRaw_spawned
                ([lit "restore"; snapshotId; lit "--target"; dir]
                 ++ args ++ []) ro 600000 w tr0) as Hs.
  rewrite Erun in Hs. cbn [snd] in Hs.
  destruct (Restic.buildEnv ro) as [env|e] eqn:Henv.
  2: { rewrite runResticRaw_cases, Henv in Erun. discriminate. }
  rewrite app_nil_r in Hs.
  assert (Hr : Props.restores tr'
               = Props.restores tr0
                 ++ [Restic.buildExtraArgs (ro_storage ro)
                     ++ [lit "restore"; snapshotId; lit "--target"; dir]
                     ++ args]).
  { unfold Props.restores. rewrite Hs, filter_app. cbn [filter].
    cbn [app]. now rewrite restore_is_restore. }
  destruct includes as [|globs|name].
  - injection Ea as <- <-. exists []. split; [now left | exact Hr].
  - injection Ea as <- <-. exists globs. split; [now right | exact Hr].
  - discriminate.
Qed.

(** X16. A [restoreCommand] that returns has either been cancelled at
    the question, which is only asked without [--target] and without
    [--dry-run], or has started exactly one restore process: the
    restore of one of the snapshots the engine lists into the target
    directory, limited to the patterns of the category if one is
    given. The arguments of that process do not depend on [--dry-run]:
    a dry run restores. *)
Theorem restoreCommand_restores (deps : Collaborators)
  (opts : RestoreOptions) (w : Env) tr :
  fst (restoreCommand deps opts w tr) = Ret tt ->
  (dry opts = false /\ truthy (target opts) = false
   /\ Props.restores (snd (restoreCommand deps opts w tr))
      = Props.restores tr)
  \/ exists cfg ro snapshots snap globs,
       requireConfig w = Fulfilled cfg
       /\ ro_storage ro = storage cfg
       /\ Props.lists deps w ro snapshots
       /\ In snap snapshots
       /\ (if truthy (only opts)
           then own_property RestoreCli.map (BackupCli.the (only opts))
                = Some globs
           else globs = [])
       /\ Props.restores (snd (restoreCommand deps opts w tr))
          = Props.restores tr
            ++ [Restic.buildExtraArgs (storage cfg)
                ++ [lit "restore"; id snap; lit "--target";
                    match target opts with
                    | Some t => t
                    | None => openclawDir cfg
                    end]
                ++ flat_map (fun g => [lit "--include"; g]) globs].
Proof.
  destruct (restoreCommand deps opts w tr) as [o tr2] eqn:E.
  cbn [fst snd]. intros ->.
  unfold restoreCommand, resolvePassphrase in E.
  apply (bind_returns w (fun cfg => requireConfig w = Fulfilled cfg)) in E;
    [|apply keeps_answer; trivial].
  destruct E as (cfg & t1 & Hcfg & S1 & E).
  apply (bind_returns w (fun _ => True)) in E;
    [|repeat keeps_step; try (intros; exact I)].
  destruct E as (pass & t2 & _ & S2 & E). rewrite S1 in S2. clear S1 t1.
  apply (bind_returns w (fun _ => True)) in E;
    [|repeat keeps_step; try (intros; exact I)].
  destruct E as (_ & t3 & _ & S3 & E). rewrite S2 in S3. clear S2 t2.
  apply (bind_returns w (fun _ => True)) in E;
    [|repeat keeps_step; try (intros; exact I)].
  destruct E as (_ & t4 & _ & S4 & E). rewrite S3 in S4. clear S3 t3.
  apply (bind_returns w (fun _ => True)) in E;
    [|repeat keeps_step; try (intros; exact I)].
  destruct E as (_ & t5 & _ & S5 & E). rewrite S4 in S5. clear S4 t4.
  set (ro := mkResticOptions (storage cfg) pass) in *.
  apply (bind_returns w (Props.lists deps w ro)) in E;
    [|apply keeps_listSnapshots].
  destruct E as (snapshots & t6 & Hlist & S6 & E). rewrite S5 in S6.
  clear S5 t5.
  apply (bind_returns w (fun _ => True)) in E;
    [|repeat keeps_step; try (intros; exact I)].
  destruct E as (_ & t7 & _ & S7 & E). rewrite S6 in S7. clear S6 t6.
  destruct (rev snapshots) as [|latest earlier] eqn:Hrev;
    [discriminate|].
  apply (bind_returns w (fun snap => In snap snapshots)) in E;
    [|apply keeps_select;
      [intros; exact I | apply in_rev; rewrite Hrev; now left]].
  destruct E as (snap & t8 & Hsnap & S8 & E). rewrite S7 in S8. clear S7 t7.
  cbv zeta in E.
  set (dir := match target opts with
              | Some t => t
              | None => openclawDir cfg
              end) in *.
  eapply bind_returns in E;
    [|apply (keeps_confirm w _ deps opts snap dir I (fun _ _ => I))].
  destruct E as (proceed & t9 & [Hstop _] & S9 & E). rewrite S8 in S9.
  clear S8 t8.
  destruct proceed; cbn [negb] in E.
  2: { injection E as <-. left.
       destruct (Hstop eq_refl) as [Hd Ht]. now repeat split. }
  clear Hstop. right.
  eapply bind_returns in E;
    [|apply (keeps_lookup_includes w _ RestoreCli.map (only opts)
               (fun _ _ => I))].
  destruct E as (includes & t10 & Hinc & S10 & E). rewrite S9 in S10.
  clear S9 t9.
  apply (bind_returns w (fun _ => True)) in E;
    [|repeat keeps_step; try (intros; exact I)].
  destruct E as (_ & t11 & _ & S11 & E). rewrite S10 in S11. clear S10 t10.
  apply try_catch_returns in E;
    [|intros e tr1; unfold bind, emit, log, process_exit; discriminate].
  apply bind_inv in E. destruct E as ([] & t12 & Erestore & E).
  apply restore_spawned in Erestore.
  destruct Erestore as (globs & Hglobs & S12).
  exists cfg, ro, snapshots, snap, globs.
  split; [exact Hcfg|]. split; [reflexivity|].
  split; [exact Hlist|]. split; [exact Hsnap|].
  split.
  - destruct Hglobs as [[-> ->] | ->]; [now rewrite Hinc|].
    destruct Hinc as [-> Hown]. exact Hown.
  - match type of E with
    | ?c w t12 = _ =>
        assert (Hrest : Props.keeps w Props.no_restore (fun _ => True) c)
    end.
    { unfold ago. repeat first [apply keeps_formatTimeAgo | keeps_step];
        try (intros; exact I). }
    pose proof (keeps_restores w _ _ t12 Hrest) as S13.
    rewrite E in S13. cbn [snd] in S13.
    rewrite S13, S12, S11. reflexivity.
Qed.

(** X24. A category that is not in the table of the restore direction,
    be it unknown or a member of the prototype of the table, never
    reaches a restore: [restoreCommand] starts no restore process for
    it. *)
Theorem restoreCommand_unknown_category (deps : Collaborators)
  (opts : RestoreOptions) (w : Env) tr :
  truthy (only opts) = true ->
  own_property RestoreCli.map (BackupCli.the (only opts)) = None ->
  Props.restores (snd (restoreCommand deps opts w tr)) = Props.restores tr.
Proof.
  intros Honly Hnone.
  apply (keeps_restores w (fun _ => True)).
  unfold restoreCommand, resolvePassphrase.
  do 5 keeps_skip.
  apply (keeps_bind _ _ _ _ _ _ (keeps_listSnapshots w deps _)).
  intros snapshots _.
  keeps_skip.
  destruct (rev snapshots) as [|latest earlier] eqn:Hrev;
    [repeat keeps_step; exact I|].
  apply (keeps_bind _ _ (fun _ => True)).
  { eapply keeps_weaken;
      [apply (keeps_select w _ opts snapshots latest (fun _ _ => I))
      |trivial].
    apply in_rev. rewrite Hrev. now left. }
  intros selected _. cbv zeta.
  apply (keeps_bind _ _ (fun _ => True)).
  { eapply keeps_weaken;
      [apply (keeps_confirm w _ deps opts selected _ I (fun _ _ => I))
      |trivial]. }
  intros [] _; cbn [negb]; [|now apply keeps_ret].
  eapply keeps_bind;
    [apply (keeps_lookup_includes w _ RestoreCli.map (only opts)
              (fun _ _ => I))|].
  intros [|globs|name] Hinc; [congruence | destruct Hinc; congruence|].
  keeps_skip.
  apply keeps_try_catch; [|intros err; repeat keeps_step; exact I].
  apply (keeps_bind _ _ (fun _ => False)); [|intros ? []].
  unfold ResticOps.restore. cbn [ResticOps.rc_include].
  apply (keeps_bind _ _ (fun _ => False)); [|intros ? []].
  apply keeps_throw.
Qed.

End RestoreCommandRuns.

(* ================================================================== *)
(** ** [src/cli/forget.ts]                                            *)
(* ================================================================== *)

Section ForgetCommandRuns.
Context {RT : Runtime}.

Import ForgetCli.

(** An engine that cannot run makes every run of it raise. *)
Lemma keeps_runResticRaw_fails (w : Env) (P : Event -> Prop)
  (args : list jsstring) (ro : ResticOptions) (timeout : Z) :
  (forall e, P e) ->
  (forall a env t,
     exists e, execFile w (getResticBinaryPath w) a env t = Rejected e) ->
  Props.keeps w P (fun _ => False) (Restic.runResticRaw args ro timeout).
Proof.
  intros HP Hfail tr. rewrite runResticRaw_cases.
  destruct (Restic.buildEnv ro) as [env|e].
  - cbv zeta.
    destruct (Hfail (Restic.buildExtraArgs (ro_storage ro) ++ args) env
                timeout) as [e ->].
    eexists _, _. split; [reflexivity|].
    split; [repeat constructor; apply HP | discriminate].
  - exists (Throw e), []. rewrite app_nil_r. split; [reflexivity|].
    split; [constructor | discriminate].
Qed.

Lemma keeps_list_now (w : Env) (P : Event -> Prop) (deps : Collaborators)
  (ro : ResticOptions) :
  Props.keeps w P (fun _ => True) (list_now deps ro).
Proof.
  intros tr. unfold list_now.
  destruct (listSnapshots deps tr ro) as [l|e]; eexists _, [];
    rewrite app_nil_r; (split; [reflexivity|]); split; (constructor || trivial).
Qed.

(** X17. For [forgetCommand] a failure of the retention run is fatal:
    when the engine cannot run, the command does not return, whatever
    else the world answers. *)
Theorem forgetCommand_failure_is_fatal (deps : Collaborators)
  (opts : ForgetOptions) (w : Env) tr :
  (forall args env timeout,
     exists e,
       execFile w (getResticBinaryPath w) args env timeout = Rejected e) ->
  forall a, fst (forgetCommand deps opts w tr) <> Ret a.
Proof.
  intros Hfail.
  assert (H : Props.keeps w (fun _ => True) (fun _ => False)
                (forgetCommand deps opts)).
  { unfold forgetCommand.
    keeps_skip.
    apply (keeps_bind _ _ (fun _ => True));
      [unfold resolvePassphrase; repeat keeps_step; try (intros; exact I)
      |intros pass _].
    do 2 keeps_skip. cbv zeta.
    apply (keeps_bind _ _ (fun _ => True));
      [apply keeps_list_now | intros before _].
    keeps_skip.
    apply keeps_try_catch; [|intros err; repeat keeps_step; exact I].
    apply (keeps_bind _ _ (fun _ => False)); [|intros ? []].
    unfold ResticOps.forget.
    apply (keeps_bind _ _ (fun _ => False)); [|intros ? []].
    apply keeps_runResticRaw_fails; [intros; exact I | exact Hfail]. }
  intros a Ha. destruct (H tr) as [o [ev [E [_ Hr]]]].
  rewrite E in Ha. exact (Hr a Ha).
Qed.

(** X18. [forget.ts] resolves the passphrase as [backup.ts] and
    [restore.ts] do: in every world the three give the same passphrase,
    raise the same error of the keychain lookup, or all end the process
    with code 1, and they read the keychain equally often; only the
    messages differ. *)
Theorem forget_resolvePassphrase_agrees (explicit : option jsstring)
  (only : option jsstring) (dryRun forget : option bool) (w : Env) tr :
  let shared :=
    BackupCli.resolvePassphrase
      (BackupCli.mkBackupOptions explicit only dryRun forget) w tr in
  fst (resolvePassphrase (mkForgetOptions explicit) w tr) = fst shared
  /\ Spec.keychain_reads
       (snd (resolvePassphrase (mkForgetOptions explicit) w tr))
     = Spec.keychain_reads (snd shared).
Proof.
  cbv zeta. rewrite resolvePassphrase_cases.
  unfold resolvePassphrase, log. unfold bind, asks, emit, ret, process_exit.
  cbn [passphrase BackupCli.passphrase].
  destruct (truthy explicit); [split; reflexivity|].
  destruct (truthy (process_env w (lit "CLAWSTASH_PASSPHRASE")));
    [split; reflexivity|].
  destruct (getKeychainPassphrase w) as [fromKeychain|e];
    unfold await, ret, throw;
    [destruct (truthy fromKeychain)|]; cbn [fst snd];
    (split; [reflexivity|]);
    unfold Spec.keychain_reads, Spec.no_passphrase_events;
    repeat rewrite filter_app; repeat rewrite length_app;
    cbn [filter List.length]; lia.
Qed.

End ForgetCommandRuns.

(* ================================================================== *)
(** ** [src/core/openclaw.ts]: configuration and secrets, totals      *)
(* ================================================================== *)

Section ConfigAndSecrets.

Import Openclaw.

(** X19. A path is [config] exactly when it starts with ["openclaw."]
    and has no slash, and [secrets] exactly when it is [".env"] or lies
    under ["credentials/"] or ["auth/"]: no other rule can take such a
    path, and a [".env"] below the root is not [secrets]. *)
Theorem categorizeFile_config_secrets (p : jsstring) :
  (categorizeFile p = config
   <-> startsWith p (lit "openclaw.") = true
       /\ includes p (lit "/") = false)
  /\ (categorizeFile p = secrets
      <-> p = lit ".env"
          \/ startsWith p (lit "credentials/") = true
          \/ startsWith p (lit "auth/") = true).
Proof.
  split.
  - assert (Hc : categorizeFile p = config <-> rule_config p = true).
    { unfold categorizeFile.
      destruct (rule_config p); [now split|].
      destruct (rule_secrets p), (rule_workspace p), (rule_skills p),
        (rule_sessions p), (rule_memory p), (rule_agents p),
        (rule_settings p); split; discriminate. }
    rewrite Hc. unfold rule_config. split.
    + intros H. apply orb_true_iff in H as [H|H];
        [apply orb_true_iff in H as [H|H]; apply str_eqb_eq in H; subst p;
         split; reflexivity|].
      apply andb_true_iff in H as [H1 H2].
      split; [exact H1 | now apply negb_true_iff].
    + intros [H1 H2]. rewrite H1, H2. cbn [negb andb].
      now rewrite orb_true_r.
  - split.
    + unfold categorizeFile.
      destruct (rule_config p); [discriminate|].
      destruct (rule_secrets p) eqn:Hs.
      * intros _. unfold rule_secrets in Hs.
        apply orb_true_iff in Hs as [Hs|Hs];
          [apply orb_true_iff in Hs as [Hs|Hs]|]; auto.
        left. now apply str_eqb_eq.
      * destruct (rule_workspace p), (rule_skills p), (rule_sessions p),
          (rule_memory p), (rule_agents p), (rule_settings p);
          discriminate.
    + intros [-> | [H|H]]; [reflexivity| |];
        apply startsWith_app in H as [r ->]; reflexivity.
Qed.

End ConfigAndSecrets.

Section ScanTotals.

Import Scan.

(** The sum of a quantity over the files of one category. *)
Lemma tally_spec (files : list OpenClawFile) (start : Categories * Z) :
  let result := fold_left tally files start in
  snd result = (snd start + fold_right Z.add 0 (map size files))%Z
  /\ forall c,
       count (fst result c)
       = (count (fst start c)
          + Z.of_nat
              (List.length
                 (filter (fun f => category_eqb c (category f)) files)))%Z
       /\ bytes (fst result c)
          = (bytes (fst start c)
             + fold_right Z.add 0
                 (map size
                    (filter (fun f => category_eqb c (category f))
                       files)))%Z.
Proof.
  revert start. induction files as [|f files IH]; intros start; cbv zeta.
  - cbn. split; [lia|]. intros c. lia.
  - cbn [fold_left map fold_right filter].
    destruct (IH (tally start f)) as [Hs Hc]. split.
    + rewrite Hs. cbn [tally snd]. lia.
    + intros c. destruct (Hc c) as [H1 H2]. rewrite H1, H2.
      cbn [tally fst].
      destruct (category_eqb c (category f));
        cbn [count bytes List.length map fold_right]; lia.
Qed.

Lemma category_eqb_eq (a b : Openclaw.FileCategory) :
  category_eqb a b = true <-> a = b.
Proof. destruct a, b; split; (reflexivity || discriminate). Qed.

(** Every file is counted in exactly one category. *)
Lemma one_category_each (files : list OpenClawFile) :
  fold_right Z.add 0%Z
    (map (fun c =>
            Z.of_nat
              (List.length
                 (filter (fun f => category_eqb c (category f)) files)))
       Openclaw.all_categories)
  = Z.of_nat (List.length files)
  /\ fold_right Z.add 0%Z
       (map (fun c =>
               fold_right Z.add 0%Z
                 (map size
                    (filter (fun f => category_eqb c (category f)) files)))
          Openclaw.all_categories)
     = fold_right Z.add 0%Z (map size files).
Proof.
  induction files as [|f files [IH1 IH2]]; [split; reflexivity|].
  unfold Openclaw.all_categories in *.
  cbn [List.length map fold_right filter] in *.
  destruct (category f);
    repeat match goal with
           | |- context [category_eqb ?a ?b] =>
               let r := eval vm_compute in (category_eqb a b) in
               change (category_eqb a b) with r
           end;
    cbv iota; cbn [List.length map fold_right]; split; lia.
Qed.

(** X20. The totals of a scan add up: the total size is the sum of the
    sizes of the files, each category holds the number and the size of
    the files of that category, and over the nine categories the counts
    add up to the number of files and the sizes to the total size. *)
Theorem scanOpenClawDir_totals (deps : Collaborators)
  (openclawDir : option jsstring) (scan : OpenClawScanResult) :
  scanOpenClawDir deps openclawDir = Fulfilled scan ->
  totalSize scan = fold_right Z.add 0%Z (map size (files scan))
  /\ (forall c,
        count (categories scan c)
        = Z.of_nat
            (List.length
               (filter (fun f => category_eqb c (category f)) (files scan)))
        /\ bytes (categories scan c)
           = fold_right Z.add 0%Z
               (map size
                  (filter (fun f => category_eqb c (category f))
                     (files scan))))
  /\ fold_right Z.add 0%Z
       (map (fun c => count (categories scan c)) Openclaw.all_categories)
     = Z.of_nat (List.length (files scan))
  /\ fold_right Z.add 0%Z
       (map (fun c => bytes (categories scan c)) Openclaw.all_categories)
     = totalSize scan.
Proof.
  intros H.
  assert (Hscan :
    totalSize scan = fold_right Z.add 0%Z (map size (files scan))
    /\ forall c,
         count (categories scan c)
         = Z.of_nat
             (List.length
                (filter (fun f => category_eqb c (category f))
                   (files scan)))
         /\ bytes (categories scan c)
            = fold_right Z.add 0%Z
                (map size
                   (filter (fun f => category_eqb c (category f))
                      (files scan)))).
  { unfold scanOpenClawDir in H. cbv zeta in H.
    destruct (negb (pathExists deps _)).
    - injection H as <-. cbn. split; [reflexivity|]. now intros c.
    - destruct (scanDir deps _) as [fs|e]; [|discriminate].
      pose proof (tally_spec fs (emptyCategories, 0%Z)) as T.
      cbv zeta in T.
      destruct (fold_left tally fs (emptyCategories, 0%Z)) as [cats total].
      injection H as <-. cbn [files totalSize categories fst snd] in *.
      destruct T as [T1 T2]. split; [lia|].
      intros c. destruct (T2 c) as [C1 C2].
      unfold emptyCategories in C1, C2. cbn [count bytes] in C1, C2.
      split; lia. }
  destruct Hscan as [Ht Hc]. split; [exact Ht|]. split; [exact Hc|].
  destruct (one_category_each (files scan)) as [O1 O2].
  rewrite Ht, <- O1, <- O2.
  split; f_equal; apply map_ext; intros c; now destruct (Hc c).
Qed.

End ScanTotals.

(* ================================================================== *)
(** ** [src/utils/platform.ts] and [src/core/keychain.ts]             *)
(* ================================================================== *)

Section PlatformAndKeychain.

Import Platform.

Lemma getPlatform_supported (p : jsstring) :
  (exists q, getPlatform p = Fulfilled q)
  <-> In p [lit "darwin"; lit "linux"; lit "win32"].
Proof.
  unfold getPlatform. cbn [In].
  destruct (str_eqb p (lit "darwin")) eqn:H1;
    [apply str_eqb_eq in H1; split; [auto | now eexists]|].
  destruct (str_eqb p (lit "linux")) eqn:H2;
    [apply str_eqb_eq in H2; split; [auto | now eexists]|].
  destruct (str_eqb p (lit "win32")) eqn:H3;
    [apply str_eqb_eq in H3; split; [auto 6 | now eexists]|].
  apply str_eqb_neq in H1, H2, H3. cbn [orb].
  split; [intros [q Hq]; discriminate|].
  intros [H|[H|[H|[]]]]; congruence.
Qed.

Lemma getArch_supported (a : jsstring) :
  (exists b, getArch a = Fulfilled b) <-> In a [lit "x64"; lit "arm64"].
Proof.
  unfold getArch. cbn [In].
  destruct (str_eqb a (lit "x64")) eqn:H1;
    [apply str_eqb_eq in H1; split; [auto | now eexists]|].
  destruct (str_eqb a (lit "arm64")) eqn:H2;
    [apply str_eqb_eq in H2; split; [auto | now eexists]|].
  apply str_eqb_neq in H1, H2. cbn [orb].
  split; [intros [q Hq]; discriminate|].
  intros [H|[H|[]]]; congruence.
Qed.

(** X21. There is a release asset exactly for the three platforms and
    the two architectures, it is a zip archive exactly on [win32], and
    for one version no two of the six targets share an asset name. *)
Theorem getResticAssetName_targets :
  (forall p a version,
     (exists name, getResticAssetName p a version = Fulfilled name)
     <-> In p [lit "darwin"; lit "linux"; lit "win32"]
         /\ In a [lit "x64"; lit "arm64"])
  /\ (forall p a version name,
        getResticAssetName p a version = Fulfilled name ->
        endsWith name (lit ".zip") = str_eqb p (lit "win32"))
  /\ (forall p a p' a' version name,
        getResticAssetName p a version = Fulfilled name ->
        getResticAssetName p' a' version = Fulfilled name ->
        p = p' /\ a = a').
Proof.
  assert (Hdef : forall p a version,
             (exists name, getResticAssetName p a version = Fulfilled name)
             <-> In p [lit "darwin"; lit "linux"; lit "win32"]
                 /\ In a [lit "x64"; lit "arm64"]).
  { intros p a version.
    rewrite <- getPlatform_supported, <- getArch_supported.
    unfold getResticAssetName.
    destruct (getPlatform p) as [q|e]; destruct (getArch a) as [b|e'];
      split; try (intros [name H]; discriminate);
      try (intros [[x Hx] [y Hy]]; discriminate);
      [intros _; split; now eexists | intros _; now eexists]. }
  assert (Hshape : forall p a version name,
             getResticAssetName p a version = Fulfilled name ->
             exists suffix,
               name = lit "restic_" ++ version ++ lit "_" ++ suffix
               /\ In (p, a, suffix)
                    [(lit "darwin", lit "x64", lit "darwin_amd64.bz2");
                     (lit "darwin", lit "arm64", lit "darwin_arm64.bz2");
                     (lit "linux", lit "x64", lit "linux_amd64.bz2");
                     (lit "linux", lit "arm64", lit "linux_arm64.bz2");
                     (lit "win32", lit "x64", lit "windows_amd64.zip");
                     (lit "win32", lit "arm64", lit "windows_arm64.zip")]).
  { intros p a version name H.
    destruct (proj1 (Hdef p a version) (ex_intro _ name H)) as [Hp Ha].
    cbn [In] in Hp, Ha.
    destruct Hp as [<-|[<-|[<-|[]]]]; destruct Ha as [<-|[<-|[]]];
      injection H as <-; eexists; (split; [reflexivity|]); cbn; auto 8. }
  split; [exact Hdef|]. split.
  - intros p a version name H.
    destruct (Hshape p a version name H) as [suffix [-> Hin]].
    unfold endsWith. rewrite !app_assoc, rev_app_distr.
    cbn [In] in Hin.
    destruct Hin as [E|[E|[E|[E|[E|[E|[]]]]]]]; injection E as <- <- <-;
      reflexivity.
  - intros p a p' a' version name H H'.
    destruct (Hshape p a version name H) as [s [-> Hin]].
    destruct (Hshape p' a' version _ H') as [s' [E Hin']].
    apply app_inv_head in E. apply app_inv_head in E.
    apply app_inv_head in E. subst s'.
    cbn [In] in Hin, Hin'.
    destruct Hin as [E|[E|[E|[E|[E|[E|[]]]]]]]; injection E as <- <- <-;
      destruct Hin' as [E|[E|[E|[E|[E|[E|[]]]]]]];
      try discriminate E; injection E as <- <-; now split.
Qed.

(** Trimming leaves nothing to trim. *)
Lemma dropWhile_idem (f : N -> bool) (s : jsstring) :
  dropWhile f (dropWhile f s) = dropWhile f s.
Proof.
  induction s as [|c s IH]; [reflexivity|]. cbn [dropWhile].
  destruct (f c) eqn:E; [exact IH|]. cbn [dropWhile]. now rewrite E.
Qed.

Lemma dropWhile_snoc (f : N -> bool) (s : jsstring) (c : N) :
  f c = false -> exists kept, dropWhile f (s ++ [c]) = kept ++ [c].
Proof.
  intros Hc. induction s as [|d s [kept IH]]; cbn [app dropWhile].
  - rewrite Hc. now exists [].
  - destruct (f d); [now exists kept|]. now exists (d :: s).
Qed.

Lemma dropWhile_head (f : N -> bool) (s : jsstring) c rest :
  dropWhile f s = c :: rest -> f c = false.
Proof.
  induction s as [|d s IH]; [discriminate|]. cbn [dropWhile].
  destruct (f d) eqn:Hd; [exact IH|]. now intros [= <- _].
Qed.

Lemma trim_idem (s : jsstring) : trim (trim s) = trim s.
Proof.
  unfold trim. set (X := dropWhile isWhiteSpace s).
  set (Y := dropWhile isWhiteSpace (rev X)).
  assert (H1 : dropWhile isWhiteSpace (rev Y) = rev Y).
  { subst Y. destruct X as [|c rest] eqn:E; [reflexivity|].
    pose proof (dropWhile_head _ _ _ _ E) as Hc. cbn [rev].
    destruct (dropWhile_snoc isWhiteSpace (rev rest) c Hc) as [kept ->].
    rewrite rev_app_distr. cbn [rev app dropWhile]. now rewrite Hc. }
  rewrite H1, rev_involutive. subst Y. now rewrite dropWhile_idem.
Qed.

(** X22. [getPassphrase] raises exactly on a platform other than the
    three supported ones. What it returns is never the empty string
    and has no white space around it. On [win32] it is what the
    passphrase file holds; on [linux] and [darwin] a passphrase printed
    by the keychain tool wins over the file. *)
Theorem getPassphrase_result (deps : Keychain.Collaborators) :
  ((exists e, Keychain.getPassphrase deps = Rejected e)
   <-> ~ In (Keychain.platform deps) [lit "darwin"; lit "linux"; lit "win32"])
  /\ (forall passphrase,
        Keychain.getPassphrase deps = Fulfilled (Some passphrase) ->
        passphrase <> [] /\ trim passphrase = passphrase)
  /\ (Keychain.platform deps = lit "win32" ->
      Keychain.getPassphrase deps
      = Fulfilled (Keychain.readPassphraseFromFile deps))
  /\ (forall stdout,
        Keychain.platform deps = lit "linux" ->
        Keychain.execFileAsync deps (lit "secret-tool")
          [lit "lookup"; lit "service"; lit "clawstash";
           lit "account"; lit "backup-passphrase"] = Fulfilled stdout ->
        trim stdout <> [] ->
        Keychain.getPassphrase deps = Fulfilled (Some (trim stdout)))
  /\ (forall stdout,
        Keychain.platform deps = lit "darwin" ->
        Keychain.execFileAsync deps (lit "security")
          [lit "find-generic-password"; lit "-s"; lit "clawstash";
           lit "-a"; lit "backup-passphrase"; lit "-w"] = Fulfilled stdout ->
        trim stdout <> [] ->
        Keychain.getPassphrase deps = Fulfilled (Some (trim stdout))).
Proof.
  assert (Htrim : forall raw p,
             (if truthy_str (trim raw) then Some (trim raw) else None)
             = Some p ->
             p <> [] /\ trim p = p).
  { intros raw p H. destruct (trim raw) as [|c t] eqn:E; [discriminate|].
    cbn [truthy_str] in H. injection H as <-.
    split; [discriminate|]. rewrite <- E. apply trim_idem. }
  split; [|split; [|split; [|split]]].
  - rewrite <- getPlatform_supported. unfold Keychain.getPassphrase.
    destruct (getPlatform (Keychain.platform deps)) as [q|e].
    + split; [|intros H; destruct H; now eexists].
      destruct (Keychain.fromKeychain deps q); intros [e H]; discriminate.
    + split; [intros _ [q H]; discriminate | intros _; now eexists].
  - intros p. unfold Keychain.getPassphrase.
    destruct (getPlatform (Keychain.platform deps)) as [q|e];
      [|discriminate].
    destruct (Keychain.fromKeychain deps q) as [k|] eqn:Hk.
    + intros [= <-]. unfold Keychain.fromKeychain in Hk.
      destruct (str_eqb q (lit "darwin")).
      * destruct (Keychain.execFileAsync deps (lit "security") _)
          as [out|e]; [|discriminate].
        destruct (truthy_str (trim out)) eqn:Ht.
        -- injection Hk as <-. apply (Htrim out). now rewrite Ht.
        -- destruct (str_eqb q (lit "linux")); [|discriminate].
           destruct (Keychain.execFileAsync deps (lit "secret-tool") _)
             as [out'|e]; [|discriminate].
           now apply (Htrim out').
      * destruct (str_eqb q (lit "linux")); [|discriminate].
        destruct (Keychain.execFileAsync deps (lit "secret-tool") _)
          as [out'|e]; [|discriminate].
        now apply (Htrim out').
    + intros [= H]. unfold Keychain.readPassphraseFromFile in H.
      destruct (Keychain.readFile deps) as [content|e]; [|discriminate].
      now apply (Htrim content).
  - intros Hp. unfold Keychain.getPassphrase. rewrite Hp. reflexivity.
  - intros out Hp Hrun Hne.
    unfold Keychain.getPassphrase, Keychain.fromKeychain. rewrite Hp.
    cbn [getPlatform str_eqb N.eqb Pos.eqb andb orb].
    change Keychain.SERVICE_NAME with (lit "clawstash").
    change Keychain.ACCOUNT_NAME with (lit "backup-passphrase").
    rewrite Hrun. destruct (trim out); [congruence | reflexivity].
  - intros out Hp Hrun Hne.
    unfold Keychain.getPassphrase, Keychain.fromKeychain. rewrite Hp.
    cbn [getPlatform str_eqb N.eqb Pos.eqb andb orb].
    change Keychain.SERVICE_NAME with (lit "clawstash").
    change Keychain.ACCOUNT_NAME with (lit "backup-passphrase").
    rewrite Hrun. destruct (trim out); [congruence | reflexivity].
Qed.

End PlatformAndKeychain.

(* ================================================================== *)
(** ** [src/core/health.ts]                                           *)
(* ================================================================== *)

Section HealthChecks.
Context {RT : Runtime}.

Import Health.

(** The fifth check never raises: the repository URL is only asked for
    after [checkRepo] has returned [true], and then it exists. *)
Lemma repository_check_returns (config : option ClawstashConfig)
  (passphrase : option jsstring) (w : Env) tr :
  exists checks,
    fst (repository_check config passphrase w tr) = Ret checks
    /\ match config with
       | None => checks = []
       | Some cfg =>
           exists check,
             checks = [check]
             /\ name check = lit "Remote repository"
             /\ status check
                = if truthy passphrase then
                    if Props.engine_succeeds
                         [lit "cat"; lit "config"; lit "--json"]
                         (mkResticOptions (storage cfg)
                            (BackupCli.the passphrase)) 30000 w
                    then ok else error
                  else warn
       end.
Proof.
  unfold repository_check. destruct config as [cfg|]; [|now eexists].
  destruct (truthy passphrase); [|eexists; split; [reflexivity|];
                                  eexists; now repeat split].
  set (ro := mkResticOptions (storage cfg) (BackupCli.the passphrase)).
  pose proof (try_run_bool [lit "cat"; lit "config"; lit "--json"] ro 30000
                w tr) as Hcheck.
  fold (ResticOps.checkRepo ro) in Hcheck.
  unfold bind at 1.
  destruct (ResticOps.checkRepo ro w tr) as [o tr1]. cbn [fst] in Hcheck.
  subst o.
  destruct (Props.engine_succeeds _ ro 30000 w) eqn:Hok.
  - unfold Props.engine_succeeds, Restic.buildEnv in Hok. cbn [ro_storage ro] in Hok.
    unfold bind, await.
    destruct (Config.getResticRepoUrl (storage cfg)) as [url|e];
      [|discriminate].
    eexists. split; [reflexivity|]. eexists. now repeat split.
  - eexists. split; [reflexivity|]. eexists. now repeat split.
Qed.

(** X23. When the scan of the directory and the probe of the gateway
    answer, [runHealthChecks] returns its checks in a fixed order, four
    without a configuration and five with one, and never raises: the
    check of the remote repository is [warn] without a passphrase,
    [ok] when the engine can read the repository, and [error]
    otherwise, also for a storage configuration without endpoint. *)
Theorem runHealthChecks_report (deps : Collaborators)
  (passphrase : option jsstring) (w : Env) tr
  (scan : Scan.OpenClawScanResult) (running : bool) :
  Scan.scanOpenClawDir (scanning deps)
    (option_map openclawDir (loadConfig deps)) = Fulfilled scan ->
  isOpenClawRunning w = Fulfilled running ->
  exists checks,
    fst (runHealthChecks deps passphrase w tr) = Ret checks
    /\ map name checks
       = firstn (match loadConfig deps with Some _ => 5 | None => 4 end)
           [lit "Restic binary"; lit "Config"; lit "OpenClaw directory";
            lit "OpenClaw gateway"; lit "Remote repository"]
    /\ forall cfg check,
         loadConfig deps = Some cfg ->
         nth_error checks 4 = Some check ->
         status check
         = if truthy passphrase then
             if Props.engine_succeeds
                  [lit "cat"; lit "config"; lit "--json"]
                  (mkResticOptions (storage cfg)
                     (BackupCli.the passphrase)) 30000 w
             then ok else error
           else warn.
Proof.
  intros Hscan Hrun. unfold runHealthChecks.
  unfold bind at 1. unfold asks at 1. cbv zeta.
  unfold bind at 1. rewrite Hscan. unfold await at 1, ret at 1.
  unfold bind at 1. rewrite (asks_await _ w tr running Hrun).
  destruct (repository_check_returns (loadConfig deps) passphrase w tr)
    as [repository [Hret Hrep]].
  unfold bind.
  destruct (repository_check (loadConfig deps) passphrase w tr)
    as [o tr1]. cbn [fst] in Hret. subst o. unfold ret. cbn [fst].
  eexists. split; [reflexivity|].
  destruct (loadConfig deps) as [cfg|].
  - destruct Hrep as [check [-> [Hname Hstatus]]].
    split.
    + cbn [map app firstn]. rewrite Hname.
      destruct (isResticInstalled deps), (Scan.exists_ scan); reflexivity.
    + intros cfg' check' [= <-] Hnth. cbn in Hnth.
      injection Hnth as <-. exact Hstatus.
  - subst repository. split.
    + cbn [map app firstn].
      destruct (isResticInstalled deps), (Scan.exists_ scan); reflexivity.
    + intros cfg check H. discriminate.
Qed.

End HealthChecks.

(* ================================================================== *)
(** ** The further statements on concrete inputs                      *)
(* ================================================================== *)

(** X2 on the R2 target in the EU jurisdiction. *)
Lemma r2_endpoint_agrees_witness :
  Config.getStorageEndpoint Cases.eu_storage
  = Fulfilled (S3.r2_endpoint (lit "abc") (lit "eu")).
Proof.
  apply (r2_endpoint_agrees Cases.eu_storage (lit "abc"));
    [reflexivity | reflexivity | reflexivity | discriminate].
Defined.

(** X4 on a policy that keeps 7 last snapshots and 10^21 monthly ones,
    with the daily count at zero and the weekly count not set. *)
Lemma forget_argv_witness :
  exists keep,
    Props.flag_value (lit "--keep-last") keep = Some (lit "7")
    /\ Props.flag_value (lit "--keep-daily") keep = None
    /\ Props.flag_value (lit "--keep-weekly") keep = None
    /\ Props.flag_value (lit "--keep-monthly") keep = Some (lit "1e+21")
    /\ List.length keep = 4%nat.
Proof.
  destruct (forget_argv
              (mkResticOptions Samples.sample_storage (lit "pw"))
              Cases.partial_retention Samples.offline_world [])
    as [keep [_ [H1 [H2 [H3 [H4 [H5 _]]]]]]].
  exists keep. repeat split; assumption.
Defined.

(** X5 on the MinIO target without endpoint. *)
Lemma no_endpoint_no_process_witness :
  ResticOps.checkRepo
    (mkResticOptions Samples.minio_without_endpoint (lit "pw"))
    Samples.offline_world []
  = (Ret false, []).
Proof.
  exact (proj1 (@no_endpoint_no_process Samples.plain_runtime
                  (mkResticOptions Samples.minio_without_endpoint (lit "pw"))
                  Samples.offline_world []
                  (Error (lit "MinIO requires a custom endpoint")) eq_refl)).
Defined.

(** X6 on an engine that prints [null]. *)
Lemma listSnapshots_null_is_empty_witness :
  fst (@ResticOps.listSnapshots Samples.plain_runtime
         (mkResticOptions Samples.sample_storage (lit "pw")) None
         (Samples.printing (lit "null")) [])
  = Ret (ResticOps.Parsed (JArr []))
  /\ ResticOps.Parsed (JArr []) <> ResticOps.Parsed JNull.
Proof.
  assert (H : fst (@ResticOps.listSnapshots Samples.plain_runtime
                     (mkResticOptions Samples.sample_storage (lit "pw")) None
                     (Samples.printing (lit "null")) [])
              = Ret (ResticOps.Parsed (JArr [])))
    by (vm_compute; reflexivity).
  split; [exact H|].
  exact (proj1 (@listSnapshots_null_is_empty Samples.plain_runtime
                  (mkResticOptions Samples.sample_storage (lit "pw")) None
                  (Samples.printing (lit "null")) [] _ H)).
Defined.

(** X7 on the sample target where every request is answered with 200,
    where the [HEAD] is the only request, and on the MinIO target
    without endpoint, where nothing is sent. *)
Lemma ensureBucket_requests_witness :
  (exists head,
     @Spec.signed Samples.plain_runtime
       (Spec.bucket_opts (lit "HEAD") Samples.sample_storage
          (lit "https://abc.r2.cloudflarestorage.com"))
       (Samples.answering (mkResponse 200 []))
     = Some head
     /\ Spec.requests
          (snd (@S3.ensureBucket Samples.plain_runtime Samples.sample_storage
                  (Samples.answering (mkResponse 200 [])) []))
        = [mkRequest (S3.url head) (lit "HEAD") (S3.headers head) None])
  /\ @S3.ensureBucket Samples.plain_runtime Samples.minio_without_endpoint
       Samples.offline_world []
     = (Throw (Error (lit "MinIO requires a custom endpoint")), []).
Proof.
  split.
  - pose proof (@ensureBucket_requests Samples.plain_runtime
                  Samples.sample_storage
                  (Samples.answering (mkResponse 200 [])) []) as H.
    vm_compute in H. destruct H as (put & _ & Hreq & _).
    vm_compute. eexists. split; [reflexivity | exact Hreq].
  - exact (@ensureBucket_requests Samples.plain_runtime
             Samples.minio_without_endpoint Samples.offline_world []).
Defined.

(** X8 on the sample target where every request is answered with 403,
    and on the MinIO target without endpoint. *)
Lemma testEndpoint_any_answer_witness :
  fst (S3Endpoint.testEndpoint Samples.sample_storage
         (Samples.answering (mkResponse 403 [])) [])
  = Ret true
  /\ S3Endpoint.testEndpoint Samples.minio_without_endpoint
       Samples.offline_world []
     = (Throw (Error (lit "MinIO requires a custom endpoint")), []).
Proof.
  split.
  - exact (proj1 (testEndpoint_any_answer
                    Samples.sample_storage
                    (Samples.answering (mkResponse 403 [])) [])).
  - exact (testEndpoint_any_answer Samples.minio_without_endpoint
             Samples.offline_world []).
Defined.

(** X9 on two readings of the clock 788 milliseconds apart. *)
Lemma signRequest_second_granularity_witness :
  @S3.signRequest Samples.plain_runtime
    (Spec.bucket_opts (lit "HEAD") Samples.sample_storage
       (lit "https://abc.r2.cloudflarestorage.com"))
    (Cases.at_time 1709210096001) []
  = @S3.signRequest Samples.plain_runtime
      (Spec.bucket_opts (lit "HEAD") Samples.sample_storage
         (lit "https://abc.r2.cloudflarestorage.com"))
      Samples.offline_world [].
Proof.
  apply (@signRequest_second_granularity Samples.plain_runtime).
  reflexivity.
Defined.

(** X10 on a dry run. *)
Lemma backupCommand_retention_only_when_asked_witness :
  Props.forgets
    (snd (@BackupCli.backupCommand Samples.plain_runtime
            (BackupCli.mkBackupOptions (Some (lit "pass")) None (Some true)
               None)
            Samples.retention_failing []))
  = Props.forgets [].
Proof.
  exact (@backupCommand_retention_only_when_asked Samples.plain_runtime
           (BackupCli.mkBackupOptions (Some (lit "pass")) None (Some true)
              None)
           Samples.retention_failing [] (or_introl eq_refl)).
Defined.

(** X11 in the offline world, where every backup run fails. *)
Lemma backupCommand_engine_failure_is_fatal_witness :
  fst (@BackupCli.backupCommand Samples.plain_runtime
         (BackupCli.mkBackupOptions (Some (lit "pass")) None None None)
         Samples.offline_world [])
  <> Ret tt.
Proof.
  exact (proj1 (@backupCommand_engine_failure_is_fatal Samples.plain_runtime
                  (BackupCli.mkBackupOptions (Some (lit "pass")) None None
                     None)
                  Samples.offline_world []
                  (fun _ _ _ => ex_intro _ (Error (lit "exit code 1"))
                                  eq_refl))
           tt).
Defined.

(** X13 on a date two hours before the clock reading. *)
Lemma formatTimeAgo_round_trip_witness :
  exists shown target,
    Fs.formatTimeAgo (Some (1709210096789 - 7200000)%Z)
      Samples.offline_world []
    = (Ret shown, [])
    /\ @RestoreCli.targetTime Samples.plain_runtime shown
         Samples.offline_world []
       = (Ret (Finite target), [])
    /\ (1709210096789 - 7200000 <= target
        < 1709210096789 - 7200000 + 86400000)%Z.
Proof.
  apply (@formatTimeAgo_round_trip Samples.plain_runtime
           (1709210096789 - 7200000)%Z Samples.offline_world []).
  - unfold Props.valid_date. lia.
  - change (Date_now Samples.offline_world) with 1709210096789%Z. lia.
Defined.

(** X14 on an engine that lists [null]. *)
Lemma restoreCommand_without_snapshots_witness :
  (forall a,
     fst (@RestoreCommand.restoreCommand Samples.plain_runtime
            (Cases.restoring Samples.three_snapshots true None)
            (Cases.restore_options None None None)
            (Samples.printing (lit "null")) [])
     <> Ret a)
  /\ Props.restores
       (snd (@RestoreCommand.restoreCommand Samples.plain_runtime
               (Cases.restoring Samples.three_snapshots true None)
               (Cases.restore_options None None None)
               (Samples.printing (lit "null")) []))
     = Props.restores [].
Proof.
  apply (@restoreCommand_without_snapshots Samples.plain_runtime).
  intros ro snapshots (tr & listed & tr' & E & <-).
  unfold ResticOps.listSnapshots, ResticOps.runRestic, bind in E.
  rewrite runResticRaw_cases in E.
  destruct (Restic.buildEnv ro); [|discriminate E].
  cbn in E. injection E as <- _. reflexivity.
Defined.

(** X15 on an existing directory and the answer no. *)
Lemma restoreCommand_needs_confirmation_witness :
  Props.restores
    (snd (@RestoreCommand.restoreCommand Samples.plain_runtime
            (Cases.restoring Samples.three_snapshots true (Some false))
            (Cases.restore_options None None None)
            (Samples.printing []) []))
  = Props.restores [].
Proof.
  apply (@restoreCommand_needs_confirmation Samples.plain_runtime);
    [reflexivity | reflexivity | intros cfg _; reflexivity
    |intros msg H; discriminate H].
Defined.

(** X16 on a dry run over the three sample snapshots with an engine
    that runs: the run returns, and one restore was started. *)
Lemma restoreCommand_restores_witness :
  fst (@RestoreCommand.restoreCommand Samples.plain_runtime
         (Cases.restoring Samples.three_snapshots true None)
         (Cases.restore_options None None (Some true))
         (Samples.printing []) [])
  = Ret tt
  /\ exists argv,
       Props.restores
         (snd (@RestoreCommand.restoreCommand Samples.plain_runtime
                 (Cases.restoring Samples.three_snapshots true None)
                 (Cases.restore_options None None (Some true))
                 (Samples.printing []) []))
       = Props.restores [] ++ [argv].
Proof.
  assert (H : fst (@RestoreCommand.restoreCommand Samples.plain_runtime
                     (Cases.restoring Samples.three_snapshots true None)
                     (Cases.restore_options None None (Some true))
                     (Samples.printing []) [])
              = Ret tt)
    by (vm_compute; reflexivity).
  split; [exact H|].
  destruct (@restoreCommand_restores Samples.plain_runtime
              (Cases.restoring Samples.three_snapshots true None)
              (Cases.restore_options None None (Some true))
              (Samples.printing []) [] H)
    as [[Hdry _]
       | (cfg & ro & snaps & snap & globs & _ & _ & _ & _ & _ & Hs)].
  - discriminate Hdry.
  - eexists. exact Hs.
Defined.

(** X17 in the offline world, where the engine cannot run. *)
Lemma forgetCommand_failure_is_fatal_witness :
  fst (ForgetCli.forgetCommand Cases.listing
         (ForgetCli.mkForgetOptions (Some (lit "pw")))
         Samples.offline_world [])
  <> Ret tt.
Proof.
  exact (forgetCommand_failure_is_fatal Cases.listing
           (ForgetCli.mkForgetOptions (Some (lit "pw")))
           Samples.offline_world []
           (fun _ _ _ => ex_intro _ (Error (lit "spawn ENOENT")) eq_refl)
           tt).
Defined.

(** X20 on a directory with two files. *)
Lemma scanOpenClawDir_totals_witness :
  exists scan,
    Scan.scanOpenClawDir Cases.two_files None = Fulfilled scan
    /\ Scan.totalSize scan
       = fold_right Z.add 0%Z (map Scan.size (Scan.files scan)).
Proof.
  eexists. split; [reflexivity|].
  exact (proj1 (scanOpenClawDir_totals Cases.two_files None _ eq_refl)).
Defined.

(** X23 on an installation whose repository cannot be reached. *)
Lemma runHealthChecks_report_witness :
  exists checks,
    fst (Health.runHealthChecks Cases.installed
           (Some (lit "pw")) Samples.offline_world [])
    = Ret checks
    /\ map Health.name checks
       = [lit "Restic binary"; lit "Config"; lit "OpenClaw directory";
          lit "OpenClaw gateway"; lit "Remote repository"].
Proof.
  destruct (runHealthChecks_report Cases.installed
              (Some (lit "pw")) Samples.offline_world [] _ false
              eq_refl eq_refl)
    as [checks [H1 [H2 _]]].
  exists checks. split; [exact H1 | exact H2].
Defined.

(** X24 on the category [constructor]. *)
Lemma restoreCommand_unknown_category_witness :
  Props.restores
    (snd (@RestoreCommand.restoreCommand Samples.plain_runtime
            (Cases.restoring Samples.three_snapshots false None)
            (Cases.restore_options (Some (lit "constructor")) None None)
            (Samples.printing []) []))
  = Props.restores [].
Proof.
  apply (@restoreCommand_unknown_category Samples.plain_runtime);
    reflexivity.
Defined.
